(** * ETL Studio: graph model, optimizer, naming, lowering and interpreter

    A shallow embedding of [optimizer.py], [server.py] and [validator.py].

    Python values are modelled as follows.
    - [str] is [string]; the character classes ([isalnum], [isspace],
      [lower]) are Python's on the ASCII range, which is the range the
      embedding covers.
    - [int] is [Z]; the texts that [int()] reads stay within the
      interpreter's limit on the number of digits.
    - the count [n] of a sample node, a field typed [Any], is a [PyAny]; the
      entries of a measure and of a schema row are texts or absent, as the
      editor writes them, and the fraction of a sample node is kept as the
      text it arrived as.
    - [dict] is an association list that keeps Python's insertion order
      (module [PyDict]); iteration over a dict walks that list.
    - [set] is a list used only through membership.
    - a raised exception is the [Raise] case of [result]; [while] loops take
      fuel, and [Diverge] is the answer of a loop whose fuel ran out. *)

From Stdlib Require Import List String Ascii ZArith Lia Bool Arith.
From Stdlib Require Import DecimalString Permutation ListDec.
From Stdlib Require DecimalZ DecimalPos.
Import ListNotations.
Open Scope string_scope.
Open Scope list_scope.

(* ================================================================== *)
(** * Python runtime: exceptions, dictionaries, strings                *)
(* ================================================================== *)

(** Exceptions: the two built-in ones the modelled code can raise by itself,
    and exceptions raised inside a library call (type name and message). *)
Inductive exn : Type :=
| KeyError (key : string)
| IndexError
| PyExc (name msg : string).

Inductive result (A : Type) : Type :=
| Ok (a : A)
| Raise (e : exn)
| Diverge.
Arguments Ok {A} a.
Arguments Raise {A} e.
Arguments Diverge {A}.

Definition bind {A B : Type} (m : result A) (k : A -> result B) : result B :=
  match m with
  | Ok a => k a
  | Raise e => Raise e
  | Diverge => Diverge
  end.

Notation "x <- m ;; k" := (bind m (fun x => k))
  (at level 61, m at next level, right associativity).
Notation "' p <- m ;; k" := (bind m (fun x => let p := x in k))
  (at level 61, p pattern, m at next level, right associativity).

(** [for x in xs: st = body(st, x)], stopping at the first exception. *)
Fixpoint for_each {A S : Type} (body : S -> A -> result S) (xs : list A) (st : S)
  : result S :=
  match xs with
  | [] => Ok st
  | x :: xs' => st' <- body st x ;; for_each body xs' st'
  end.

Module PyDict.
Section Dict.
Context {V : Type}.

Definition t : Type := list (string * V).

Definition empty : t := [].

(** [d.get(k)] *)
Fixpoint get (d : t) (k : string) : option V :=
  match d with
  | [] => None
  | (k', v) :: r => if String.eqb k' k then Some v else get r k
  end.

(** [d.get(k, dflt)] *)
Definition get_default (d : t) (k : string) (dflt : V) : V :=
  match get d k with Some v => v | None => dflt end.

(** [d[k]] *)
Definition lookup (d : t) (k : string) : result V :=
  match get d k with Some v => Ok v | None => Raise (KeyError k) end.

(** [d[k] = v]: an existing key keeps its position, a new one goes last. *)
Fixpoint set (d : t) (k : string) (v : V) : t :=
  match d with
  | [] => [(k, v)]
  | (k', v') :: r =>
      if String.eqb k' k then (k', v) :: r else (k', v') :: set r k v
  end.

(** [d.pop(k, None)] *)
Fixpoint pop (d : t) (k : string) : t :=
  match d with
  | [] => []
  | (k', v') :: r => if String.eqb k' k then r else (k', v') :: pop r k
  end.

(** [k in d] *)
Definition mem (d : t) (k : string) : bool :=
  match get d k with Some _ => true | None => false end.

(** [list(d)], in insertion order *)
Definition keys (d : t) : list string := map fst d.
End Dict.
Arguments t V : clear implicits.
End PyDict.

Abbreviation dict := PyDict.t.

(** [x in xs] on a list or a set of strings *)
Definition mem_str (x : string) (xs : list string) : bool :=
  existsb (String.eqb x) xs.
Arguments mem_str : simpl never.

(** ** Strings *)

Definition ascii_code (c : ascii) : nat := nat_of_ascii c.

(** [c.isspace()] on ASCII: TAB..CR, FS..US and the blank. *)
Definition isspace (c : ascii) : bool :=
  let n := ascii_code c in
  ((9 <=? n) && (n <=? 13) || (28 <=? n) && (n <=? 32))%nat.

Definition isdigit (c : ascii) : bool :=
  let n := ascii_code c in ((48 <=? n) && (n <=? 57))%nat.

Definition isupper (c : ascii) : bool :=
  let n := ascii_code c in ((65 <=? n) && (n <=? 90))%nat.

Definition islower (c : ascii) : bool :=
  let n := ascii_code c in ((97 <=? n) && (n <=? 122))%nat.

(** [c.isalnum()] on ASCII *)
Definition isalnum (c : ascii) : bool := isdigit c || isupper c || islower c.

Definition lower_char (c : ascii) : ascii :=
  if isupper c then ascii_of_nat (ascii_code c + 32) else c.

Definition map_string (f : ascii -> ascii) (s : string) : string :=
  string_of_list_ascii (map f (list_ascii_of_string s)).

(** [s.lower()] *)
Definition lower (s : string) : string := map_string lower_char s.

Fixpoint drop_while (p : ascii -> bool) (l : list ascii) : list ascii :=
  match l with
  | [] => []
  | c :: r => if p c then drop_while p r else l
  end.

Definition strip_chars (p : ascii -> bool) (l : list ascii) : list ascii :=
  rev (drop_while p (rev (drop_while p l))).

(** [s.strip()] *)
Definition strip (s : string) : string :=
  string_of_list_ascii (strip_chars isspace (list_ascii_of_string s)).

(** [s.strip(c)] for a one-character argument *)
Definition strip_char (c : ascii) (s : string) : string :=
  string_of_list_ascii (strip_chars (Ascii.eqb c) (list_ascii_of_string s)).

(** [s.split(sep)] for a one-character separator: never the empty list. *)
Fixpoint split_aux (sep : ascii) (cur : list ascii) (l : list ascii) : list string :=
  match l with
  | [] => [string_of_list_ascii (rev cur)]
  | c :: r =>
      if Ascii.eqb c sep
      then string_of_list_ascii (rev cur) :: split_aux sep [] r
      else split_aux sep (c :: cur) r
  end.

Definition split (sep : ascii) (s : string) : list string :=
  split_aux sep [] (list_ascii_of_string s).

(** [sep.join(xs)] *)
Fixpoint join (sep : string) (xs : list string) : string :=
  match xs with
  | [] => EmptyString
  | [x] => x
  | x :: r => (x ++ sep ++ join sep r)%string
  end.

(** Truthiness of a string. *)
Definition nonempty (s : string) : bool :=
  match s with EmptyString => false | _ => true end.

(** [o or dflt] for an optional string: [None] and the empty string are
    both falsy. *)
Definition str_or (o : option string) (dflt : string) : string :=
  match o with
  | Some s => if nonempty s then s else dflt
  | None => dflt
  end.

(** [str(n)] for an [int] *)
Definition str_of_Z (n : Z) : string := NilZero.string_of_int (Z.to_int n).

(** [[c.strip() for c in s.split(",") if c.strip()]] *)
Definition csv_list (s : string) : list string :=
  filter nonempty (map strip (split "," s)).

(* ================================================================== *)
(** * Data model                                                        *)
(* ================================================================== *)

Record Edge : Type := mkEdge { source : string; target : string }.

(** One aggregate measure, [{col, op, as}], each entry a text or absent. *)
Record Measure : Type := mkMeasure {
  m_col : option string; m_op : option string; m_as : option string }.

(** One entry of a select node's [schema], [{name, dtype}]. *)
Record SchemaEntry : Type := mkSchema {
  s_name : option string; s_dtype : option string }.

(** A value of a field typed [Any], by what the code does with it: an [int],
    a [str], or a value of another type (a float, a bool, a list, a dict),
    which is given by its truth value and by what [int()] returns or raises
    for it. *)
Inductive PyAny : Type :=
| AnyInt (z : Z)
| AnyStr (s : string)
| AnyOther (truthy : bool) (as_int : exn + Z).

Record NodeData : Type := mkData {
  label : option string;
  type : string;
  path : option string;
  _fileText : option string;
  columns : option string;
  expr : option string;
  groupBy : option string;
  measures : option (list Measure);
  newCol : option string;
  sortSpec : option string;
  mode : option string;
  n : option PyAny;
  how : option string;
  left_on : option string;
  right_on : option string;
  schema : option (list SchemaEntry);
  frac : option string   (* the fraction, kept as the text it arrived as *)
}.

Record Node : Type := mkNode { id : string; data : NodeData }.

Definition set_columns (d : NodeData) (c : string) : NodeData :=
  mkData (label d) (type d) (path d) (_fileText d) (Some c) (expr d)
         (groupBy d) (measures d) (newCol d) (sortSpec d) (mode d) (n d)
         (how d) (left_on d) (right_on d) (schema d) (frac d).

Definition set_expr (d : NodeData) (e : string) : NodeData :=
  mkData (label d) (type d) (path d) (_fileText d) (columns d) (Some e)
         (groupBy d) (measures d) (newCol d) (sortSpec d) (mode d) (n d)
         (how d) (left_on d) (right_on d) (schema d) (frac d).

Definition ids (nodes : list Node) : list string := map id nodes.

(** [{n.id: v for n in nodes}] *)
Definition dict_of_ids {V : Type} (nodes : list Node) (v : V) : dict V :=
  fold_left (fun d nd => PyDict.set d (id nd) v) nodes PyDict.empty.

(** [{n.id: n for n in nodes}] *)
Definition id_map (nodes : list Node) : dict Node :=
  fold_left (fun d nd => PyDict.set d (id nd) nd) nodes PyDict.empty.

(** The Kahn loop is written twice in the repository, once per file; each
    module below carries its own copy, as the source does. The two helpers
    that follow are the statements both copies share word for word. *)

(** [inc[e.target] = inc.get(e.target, 0) + 1; outs[e.source].append(e.target)] *)
Definition count_edge (st : dict Z * dict (list string)) (e : Edge)
  : result (dict Z * dict (list string)) :=
  let '(inc, outs) := st in
  let inc' := PyDict.set inc (target e) (PyDict.get_default inc (target e) 0 + 1)%Z in
  l <- PyDict.lookup outs (source e) ;;
  Ok (inc', PyDict.set outs (source e) (l ++ [target e])).

(** [inc[t] -= 1; if inc[t] == 0: q.append(t)] *)
Definition relax (st : dict Z * list string) (t : string)
  : result (dict Z * list string) :=
  let '(inc, q) := st in
  v <- PyDict.lookup inc t ;;
  let inc' := PyDict.set inc t (v - 1)%Z in
  Ok (inc', if (v - 1 =? 0)%Z then q ++ [t] else q).

(* ================================================================== *)
(** * optimizer.py                                                      *)
(* ================================================================== *)

Module Optimizer.

(** The [while q:] loop of [_topo]. *)
Fixpoint topo_loop (fuel : nat) (inc : dict Z) (outs : dict (list string))
                   (q out : list string) : result (list string) :=
  match q with
  | [] => Ok out
  | nid :: q' =>
      match fuel with
      | O => Diverge
      | S fuel' =>
          '(inc', q'') <- for_each relax (PyDict.get_default outs nid []) (inc, q') ;;
          topo_loop fuel' inc' outs q'' (out ++ [nid])
      end
  end.

Definition _topo (nodes : list Node) (edges : list Edge) : result (list string) :=
  let inc0 := dict_of_ids nodes 0%Z in
  let outs0 := dict_of_ids nodes ([] : list string) in
  '(inc, outs) <- for_each count_edge edges (inc0, outs0) ;;
  (* [nid for nid in inc if inc[nid] == 0]: a walk over the dict's entries *)
  let q := map fst (filter (fun kv => (snd kv =? 0)%Z) inc) in
  out <- topo_loop (List.length q + List.length inc) inc outs q [] ;;
  Ok (if (List.length out =? List.length nodes)%nat then out else ids nodes).

(** [p.setdefault(k, v)], for its effect on [p] *)
Definition setdefault {V : Type} (p : dict V) (k : string) (v : V) : dict V :=
  match PyDict.get p k with Some _ => p | None => PyDict.set p k v end.

Definition _parents (edges : list Edge) : dict (list string) :=
  fold_left (fun p e =>
    let p1 := PyDict.set p (target e)
                (PyDict.get_default p (target e) [] ++ [source e]) in
    setdefault p1 (source e) []) edges PyDict.empty.

Definition _children (edges : list Edge) : dict (list string) :=
  fold_left (fun c e =>
    let c1 := PyDict.set c (source e)
                (PyDict.get_default c (source e) [] ++ [target e]) in
    setdefault c1 (target e) []) edges PyDict.empty.

(** [_remove_node]: the new value of the two objects it mutates in place. *)
Definition _remove_node (nodes : dict Node) (edges : list Edge) (nid : string)
  : dict Node * list Edge :=
  let ins := filter (fun e => target e =? nid) edges in
  let outs := filter (fun e => source e =? nid) edges in
  if ((List.length ins =? 1) && (List.length outs =? 1))%nat then
    match ins, outs with
    | i :: _, o :: _ =>
        (PyDict.pop nodes nid,
         filter (fun e => negb (source e =? nid) && negb (target e =? nid)) edges
           ++ [mkEdge (source i) (target o)])
    | _, _ => (nodes, edges)
    end
  else (nodes, edges).

(** [preds.setdefault(e.target, []).append(e.source)] over all edges *)
Definition build_preds (edges : list Edge) : dict (list string) :=
  fold_left (fun p e =>
    PyDict.set p (target e) (PyDict.get_default p (target e) [] ++ [source e]))
    edges PyDict.empty.

(** The [while stack:] loop of [prune_dead]. The Python list [stack] is kept
    with its last element first: [stack.pop()] takes the head, and appending
    [p1, ..., pk] in turn leaves [pk] on top. *)
Fixpoint reach_loop (fuel : nat) (preds : dict (list string))
                    (keep stack : list string) : result (list string) :=
  match stack with
  | [] => Ok keep
  | cur :: stack' =>
      match fuel with
      | O => Diverge
      | S fuel' =>
          if mem_str cur keep then reach_loop fuel' preds keep stack'
          else reach_loop fuel' preds (cur :: keep)
                 (rev (PyDict.get_default preds cur []) ++ stack')
      end
  end.

Definition prune_dead (nodes : list Node) (edges : list Edge)
                      (target_id : option string)
  : result (list Node * list Edge) :=
  match target_id with
  | None => Ok (nodes, edges)
  | Some tid =>
      if negb (nonempty tid) then Ok (nodes, edges) else
      let preds := build_preds edges in
      keep <- reach_loop (S (List.length edges)) preds [] [tid] ;;
      let n2 := filter (fun nd => mem_str (id nd) keep) nodes in
      let e2 := filter (fun e => mem_str (source e) keep && mem_str (target e) keep) edges in
      Ok (n2, e2)
  end.

(** Control flow inside one iteration of the fusion sweep. *)
Inductive flow (S : Type) : Type :=
| Next (s : S)       (* fall through to the next statement *)
| Continue (s : S).  (* [continue] *)
Arguments Next {S} s.
Arguments Continue {S} s.

Definition is_select (nd : Node) : bool := type (data nd) =? "transform.select".
Definition is_filter (nd : Node) : bool := type (data nd) =? "transform.filter".

Definition one_parent (parents : dict (list string)) (nid : string) : bool :=
  (List.length (PyDict.get_default parents nid []) =? 1)%nat.

(** [parents[nid][0]], read only under [one_parent] *)
Definition first_parent (parents : dict (list string)) (nid : string) : string :=
  hd EmptyString (PyDict.get_default parents nid []).

Definition with_columns (nd : Node) (c : string) : Node :=
  mkNode (id nd) (set_columns (data nd) c).

Definition with_expr (nd : Node) (e : string) : Node :=
  mkNode (id nd) (set_expr (data nd) e).

(** [[c for c in set1 if c in set2]] *)
Definition compose_columns (cols1 cols2 : string) : list string :=
  filter (fun c => mem_str c (csv_list cols2)) (csv_list cols1).

(** [",".join(composed) if composed else "*"] *)
Definition composed_text (composed : list string) : string :=
  match composed with [] => "*" | _ => join "," composed end.

(** [e2 if not e1 else (e1 if not e2 else f"({e1}) AND ({e2})")] *)
Definition and_expr (e1 e2 : string) : string :=
  if negb (nonempty e1) then e2
  else if negb (nonempty e2) then e1
  else ("(" ++ e1 ++ ") AND (" ++ e2 ++ ")")%string.

(** The state of one iteration: the dict [id2], the edge list, and the
    object bound to the local [n]. A write through [pnode] goes to
    [id2[pin]], and to [n] as well when both names denote one object. *)
Definition sweep_state : Type := (dict Node * list Edge * Node)%type.

(** First rule: a select below a select. *)
Definition rule_select_select (parents : dict (list string)) (nid : string)
                              (st : sweep_state) : flow sweep_state :=
  let '(id2, edges, n) := st in
  if is_select n && one_parent parents nid then
    let pin := first_parent parents nid in
    match PyDict.get id2 pin with
    | None => Continue st
    | Some pnode =>
        if negb (is_select pnode) then Continue st else
        let cols1 := strip (str_or (columns (data pnode)) "*") in
        let cols2 := strip (str_or (columns (data n)) "*") in
        if (cols1 =? "*") && negb (cols2 =? "*") then
          let '(id2', edges') := _remove_node id2 edges pin in
          Next (id2', edges', n)
        else if negb (cols1 =? "*") && (cols2 =? "*") then
          let '(id2', edges') := _remove_node id2 edges nid in
          Next (id2', edges', n)
        else if negb (cols1 =? "*") && negb (cols2 =? "*") then
          let pnode' := with_columns pnode (composed_text (compose_columns cols1 cols2)) in
          let id2a := PyDict.set id2 pin pnode' in
          let n' := if pin =? nid then pnode' else n in
          let '(id2', edges') := _remove_node id2a edges nid in
          Next (id2', edges', n')
        else Next st
    end
  else Next st.

(** Second rule: a filter below a filter. *)
Definition rule_filter_filter (parents : dict (list string)) (nid : string)
                              (st : sweep_state) : flow sweep_state :=
  let '(id2, edges, n) := st in
  if is_filter n && one_parent parents nid then
    let pin := first_parent parents nid in
    match PyDict.get id2 pin with
    | None => Continue st
    | Some pnode =>
        if negb (is_filter pnode) then Continue st else
        let e1 := strip (str_or (expr (data pnode)) EmptyString) in
        let e2 := strip (str_or (expr (data n)) EmptyString) in
        let pnode' := with_expr pnode (and_expr e1 e2) in
        let id2a := PyDict.set id2 pin pnode' in
        let n' := if pin =? nid then pnode' else n in
        let '(id2', edges') := _remove_node id2a edges nid in
        Next (id2', edges', n')
    end
  else Next st.

(** Third rule: a select that keeps every column. *)
Definition rule_identity_select (parents children : dict (list string))
                                (nid : string) (st : sweep_state) : sweep_state :=
  let '(id2, edges, n) := st in
  if is_select n then
    let cols := strip (str_or (columns (data n)) "*") in
    if (negb (nonempty cols) || (cols =? "*"))
       && one_parent parents nid && one_parent children nid
    then let '(id2', edges') := _remove_node id2 edges nid in (id2', edges', n)
    else st
  else st.

(** The body of [for nid in order]. The type [t] is read once, before the
    rules run; writing a payload never changes it. *)
Definition fuse_step (parents children : dict (list string))
                     (st : dict Node * list Edge) (nid : string)
  : dict Node * list Edge :=
  let '(id2, edges) := st in
  match PyDict.get id2 nid with
  | None => st
  | Some n =>
      match rule_select_select parents nid (id2, edges, n) with
      | Continue (id2', edges', _) => (id2', edges')
      | Next st1 =>
          match rule_filter_filter parents nid st1 with
          | Continue (id2', edges', _) => (id2', edges')
          | Next st2 =>
              let '(id2', edges', _) :=
                rule_identity_select parents children nid st2 in
              (id2', edges')
          end
      end
  end.

(** The closing loop: edges deduplicated by (source, target), survivors only. *)
Definition edge_key_eqb (a b : Edge) : bool :=
  (source a =? source b) && (target a =? target b).

Fixpoint uniq_edges (keep_ids : list string) (seen : list Edge) (edges : list Edge)
  : list Edge :=
  match edges with
  | [] => []
  | e :: r =>
      if negb (existsb (edge_key_eqb e) seen)
         && mem_str (source e) keep_ids && mem_str (target e) keep_ids
      then e :: uniq_edges keep_ids (e :: seen) r
      else uniq_edges keep_ids seen r
  end.

Definition combine_redundant (nodes : list Node) (edges : list Edge)
  : result (list Node * list Edge) :=
  let id2 := id_map nodes in
  order <- _topo nodes edges ;;
  let parents := _parents edges in
  let children := _children edges in
  let '(id2', edges') := fold_left (fuse_step parents children) order (id2, edges) in
  let keep_ids := PyDict.keys id2' in
  nodes_out <- for_each (fun acc i =>
                 if mem_str i keep_ids
                 then nd <- PyDict.lookup id2' i ;; Ok (acc ++ [nd])
                 else Ok acc) order [] ;;
  Ok (nodes_out, uniq_edges keep_ids [] edges').

Definition optimize (nodes : list Node) (edges : list Edge)
                    (target_id : option string)
  : result (list Node * list Edge) :=
  '(n1, e1) <- prune_dead nodes edges target_id ;;
  combine_redundant n1 e1.

End Optimizer.

(* ================================================================== *)
(** * server.py                                                         *)
(* ================================================================== *)

(** ** Text formatting used by the server *)

Definition char_str (c : ascii) : string := String c EmptyString.
Definition newline : string := char_str (ascii_of_nat 10).
Definition dquote : ascii := ascii_of_nat 34.
Definition squote : ascii := ascii_of_nat 39.
Definition backslash : ascii := ascii_of_nat 92.

Definition hex_digit (k : nat) : ascii :=
  if (k <? 10)%nat then ascii_of_nat (48 + k) else ascii_of_nat (87 + k).

Definition hex2 (k : nat) : string :=
  String (hex_digit (k / 16)) (String (hex_digit (k mod 16)) EmptyString).

Definition has_char (c : ascii) (s : string) : bool :=
  existsb (Ascii.eqb c) (list_ascii_of_string s).

(** [repr(s)] of a [str]: single quotes unless the text holds a single
    quote and no double quote. *)
Definition repr_char (quote : ascii) (c : ascii) : string :=
  let k := ascii_code c in
  if Ascii.eqb c backslash then String backslash (char_str backslash)
  else if Ascii.eqb c quote then String backslash (char_str quote)
  else if (k =? 9)%nat then String backslash "t"
  else if (k =? 10)%nat then String backslash "n"
  else if (k =? 13)%nat then String backslash "r"
  else if ((k <? 32) || (k =? 127))%nat then String backslash (String "x" (hex2 k))
  else char_str c.

Definition repr_str (s : string) : string :=
  let quote := if has_char squote s && negb (has_char dquote s)
               then dquote else squote in
  (char_str quote
   ++ String.concat EmptyString (map (repr_char quote) (list_ascii_of_string s))
   ++ char_str quote)%string.

(** [repr(xs)] of a list of [str], as an f-string prints it *)
Definition repr_list (xs : list string) : string :=
  ("[" ++ join ", " (map repr_str xs) ++ "]")%string.

Fixpoint list_eqb (xs ys : list string) : bool :=
  match xs, ys with
  | [], [] => true
  | x :: xs', y :: ys' => (x =? y) && list_eqb xs' ys'
  | _, _ => false
  end.

Module Server.

(** The [while q:] loop of [topo_sort]. *)
Fixpoint sort_loop (fuel : nat) (incoming : dict Z) (outs : dict (list string))
                   (q order : list string) : result (list string) :=
  match q with
  | [] => Ok order
  | cur :: q' =>
      match fuel with
      | O => Diverge
      | S fuel' =>
          '(incoming', q'') <-
             for_each relax (PyDict.get_default outs cur []) (incoming, q') ;;
          sort_loop fuel' incoming' outs q'' (order ++ [cur])
      end
  end.

Definition topo_sort (nodes : list Node) (edges : list Edge) : result (list string) :=
  let incoming0 := dict_of_ids nodes 0%Z in
  let outs0 := dict_of_ids nodes ([] : list string) in
  '(incoming, outs) <- for_each count_edge edges (incoming0, outs0) ;;
  let q := map id (filter (fun nd => (PyDict.get_default incoming (id nd) 0 =? 0)%Z) nodes) in
  order <- sort_loop (List.length q + List.length incoming) incoming outs q [] ;;
  if negb (List.length order =? List.length nodes)%nat then Ok (ids nodes)
  else Ok order.

(** [friendly_name]: the returned name and the new value of [counts]. *)
Definition friendly_base (label : option string) : string :=
  let base := lower (str_or label "node") in
  let base := strip_char "_" (map_string (fun c => if isalnum c then c else "_"%char) base) in
  if nonempty base then base else "node".

Definition friendly_name (label : option string) (counts : dict Z)
  : string * dict Z :=
  let base := friendly_base label in
  let k := (PyDict.get_default counts base 0 + 1)%Z in
  let counts' := PyDict.set counts base k in
  (if (k =? 1)%Z then base else (base ++ "_" ++ str_of_Z k)%string, counts').

(** [{nid: friendly_name(id2[nid].data.label, counts) for nid in order}],
    with the final [counts]. *)
Definition assign_names (id2 : dict Node) (order : list string)
  : result (dict string * dict Z) :=
  for_each (fun st nid =>
    let '(names, counts) := st in
    nd <- PyDict.lookup id2 nid ;;
    let '(v, counts') := friendly_name (label (data nd)) counts in
    Ok (PyDict.set names nid v, counts'))
    order (PyDict.empty, PyDict.empty).

(** [preds[e.target].append(e.source)] over all edges *)
Definition add_pred (preds : dict (list string)) (e : Edge)
  : result (dict (list string)) :=
  l <- PyDict.lookup preds (target e) ;;
  Ok (PyDict.set preds (target e) (l ++ [source e])).

(** The [while stack:] loop of [subgraph_up_to]; the stack is kept with its
    last element first, as in [Optimizer.reach_loop]. *)
Fixpoint up_loop (fuel : nat) (preds : dict (list string))
                 (keep stack : list string) : result (list string) :=
  match stack with
  | [] => Ok keep
  | cur :: stack' =>
      match fuel with
      | O => Diverge
      | S fuel' =>
          if mem_str cur keep then up_loop fuel' preds keep stack'
          else up_loop fuel' preds (cur :: keep)
                 (rev (PyDict.get_default preds cur []) ++ stack')
      end
  end.

Definition subgraph_up_to (nodes : list Node) (edges : list Edge)
                          (target_id : option string)
  : result (list Node * list Edge) :=
  match target_id with
  | None => Ok (nodes, edges)
  | Some tid =>
      if negb (nonempty tid) then Ok (nodes, edges) else
      preds <- for_each add_pred edges (dict_of_ids nodes ([] : list string)) ;;
      keep <- up_loop (S (List.length edges)) preds [] [tid] ;;
      let n2 := filter (fun nd => mem_str (id nd) keep) nodes in
      let e2 := filter (fun e => mem_str (source e) keep && mem_str (target e) keep) edges in
      Ok (n2, e2)
  end.

(** A table signature, as [df_signature] returns it. *)
Record Signature : Type := mkSig {
  sig_columns : list string;
  sig_dtypes : list string;
  sig_rows : Z;
  sig_sample_md5 : string
}.

Definition compare_signatures (a b : Signature) : bool * string :=
  if negb (list_eqb (sig_columns a) (sig_columns b)) then
    (false, ("Columns differ." ++ newline ++ "A: " ++ repr_list (sig_columns a)
             ++ newline ++ "B: " ++ repr_list (sig_columns b))%string)
  else if negb (sig_rows a =? sig_rows b)%Z then
    (false, ("Row count differs. A=" ++ str_of_Z (sig_rows a)
             ++ " B=" ++ str_of_Z (sig_rows b))%string)
  else if negb (sig_sample_md5 a =? sig_sample_md5 b) then
    (false, "Sample hash differs (first rows content mismatch).")
  else (true, "Match.").

(** ** Code paths that can raise and are caught again

    Inside [try] the code is modelled in the monad [attempt]: an exception
    ([inl]) or a value ([inr]). *)

Definition attempt (A : Type) : Type := (exn + A)%type.

Definition abind {A B : Type} (m : attempt A) (k : A -> attempt B) : attempt B :=
  match m with
  | inl e => inl e
  | inr a => k a
  end.

Notation "x <~ m ;; k" := (abind m (fun x => k))
  (at level 61, m at next level, right associativity).

(** [xs[i]] *)
Definition item {A : Type} (xs : list A) (i : nat) : attempt A :=
  match nth_error xs i with
  | Some x => inr x
  | None => inl IndexError
  end.

(** [d[k]] inside [try] *)
Definition lookup_try {V : Type} (d : dict V) (k : string) : attempt V :=
  match PyDict.get d k with
  | Some v => inr v
  | None => inl (KeyError k)
  end.

(** [type(e).__name__] and [str(e)] *)
Definition exn_name (e : exn) : string :=
  match e with
  | KeyError _ => "KeyError"
  | IndexError => "IndexError"
  | PyExc name _ => name
  end.

Definition exn_str (e : exn) : string :=
  match e with
  | KeyError k => repr_str k
  | IndexError => "list index out of range"
  | PyExc _ msg => msg
  end.

(** ** Text helpers of the generators *)

Definition upper_char (c : ascii) : ascii :=
  if islower c then ascii_of_nat (ascii_code c - 32) else c.

(** [s.upper()] *)
Definition upper (s : string) : string := map_string upper_char s.

(** [json.dumps(s)] of a [str] *)
Definition json_char (c : ascii) : string :=
  let k := ascii_code c in
  if Ascii.eqb c dquote then String backslash (char_str dquote)
  else if Ascii.eqb c backslash then String backslash (char_str backslash)
  else if (k =? 10)%nat then String backslash "n"
  else if (k =? 13)%nat then String backslash "r"
  else if (k =? 9)%nat then String backslash "t"
  else if (k =? 8)%nat then String backslash "b"
  else if (k =? 12)%nat then String backslash "f"
  else if ((k <? 32) || (k =? 127))%nat then String backslash ("u00" ++ hex2 k)%string
  else char_str c.

Definition json_str (s : string) : string :=
  (char_str dquote
   ++ String.concat EmptyString (map json_char (list_ascii_of_string s))
   ++ char_str dquote)%string.

(** [json.dumps(xs)] of a list of [str] *)
Definition json_list (xs : list string) : string :=
  ("[" ++ join ", " (map json_str xs) ++ "]")%string.

(** [s.isalnum()]: false on the empty string *)
Definition str_isalnum (s : string) : bool :=
  nonempty s && forallb isalnum (list_ascii_of_string s).

Definition remove_char (c : ascii) (s : string) : string :=
  string_of_list_ascii
    (filter (fun x => negb (Ascii.eqb x c)) (list_ascii_of_string s)).

Definition double_dquotes (s : string) : string :=
  String.concat EmptyString
    (map (fun c => if Ascii.eqb c dquote then String dquote (char_str dquote)
                   else char_str c)
         (list_ascii_of_string s)).

Definition quote_ident (c : string) : string :=
  if str_isalnum (remove_char "_" c)
     && negb (match c with String x _ => isdigit x | EmptyString => false end)
  then c
  else (char_str dquote ++ double_dquotes c ++ char_str dquote)%string.

(** ** Lowering of a join node *)

(** [i if i < len(rk) else 0] *)
Definition wrap_index (i len_rk : nat) : nat :=
  if (i <? len_rk)%nat then i else 0.

(** [[f"{lk[i]} = {rk[i if i < len(rk) else 0]}" for i in range(len(lk))]],
    the text of one pair given by [fmt]. *)
Fixpoint key_pairs (fmt : string -> string -> attempt string)
                   (lk rk : list string) (indices : list nat)
  : attempt (list string) :=
  match indices with
  | [] => inr []
  | i :: rest =>
      l <~ item lk i ;;
      r <~ item rk (wrap_index i (List.length rk)) ;;
      x <~ fmt l r ;;
      xs <~ key_pairs fmt lk rk rest ;;
      inr (x :: xs)
  end.

Definition left_keys (d : NodeData) : list string := csv_list (str_or (left_on d) "id").
Definition right_keys (d : NodeData) : list string := csv_list (str_or (right_on d) "id").

(** The [transform.join] branch of [gen_sql]: the CTE it appends. *)
Definition gen_sql_join (alias : string) (p : list string) (d : NodeData)
  : attempt string :=
  let how_ := upper (str_or (how d) "INNER") in
  let lk := map quote_ident (left_keys d) in
  let rk := map quote_ident (right_keys d) in
  pairs <~ key_pairs (fun l r => inr (l ++ " = " ++ r)%string) lk rk
             (seq 0 (List.length lk)) ;;
  let on_expr := join " AND " pairs in
  p0 <~ item p 0 ;;
  p1 <~ item p 1 ;;
  inr (alias ++ " AS (" ++ newline
       ++ "  SELECT *" ++ newline
       ++ "  FROM " ++ p0 ++ newline
       ++ "  " ++ how_ ++ " JOIN " ++ p1 ++ newline
       ++ "    ON " ++ on_expr ++ newline
       ++ ")")%string.

(** The [transform.join] branch of [gen_spark]: the line it appends. *)
Definition gen_spark_join (v : string) (ps : list string) (d : NodeData)
  : attempt string :=
  let how_ := str_or (how d) "inner" in
  let lk := left_keys d in
  let rk := right_keys d in
  pairs <~ key_pairs (fun l r =>
             p0 <~ item ps 0 ;;
             p1 <~ item ps 1 ;;
             inr (p0 ++ "." ++ l ++ " == " ++ p1 ++ "." ++ r)%string)
             lk rk (seq 0 (List.length lk)) ;;
  let cond := join " & " pairs in
  p0 <~ item ps 0 ;;
  p1 <~ item ps 1 ;;
  inr (v ++ " = " ++ p0 ++ ".join(" ++ p1 ++ ", on=(" ++ cond ++ "), how='"
       ++ how_ ++ "')")%string.

(** [json.dumps(ks) if len(ks) > 1 else json.dumps(ks[0])] *)
Definition key_arg_text (ks : list string) : attempt string :=
  if (1 <? List.length ks)%nat then inr (json_list ks)
  else k <~ item ks 0 ;; inr (json_str k).

(** The [transform.join] branch of [gen_python]: the lines it appends. *)
Definition gen_python_join (v : string) (ps : list string) (d : NodeData)
  : attempt (list string) :=
  let how_ := str_or (how d) "inner" in
  left_arg <~ key_arg_text (left_keys d) ;;
  right_arg <~ key_arg_text (right_keys d) ;;
  p0 <~ item ps 0 ;;
  p1 <~ item ps 1 ;;
  inr [(v ++ " = " ++ p0 ++ ".merge(" ++ p1 ++ ", how=" ++ json_str how_
        ++ ", left_on=" ++ left_arg ++ ", right_on=" ++ right_arg ++ ")")%string;
       EmptyString].

(** ** Lowering of a sample node *)

(** [n.data.mode or "rows"] is the fraction mode *)
Definition is_fraction (d : NodeData) : bool := str_or (mode d) "rows" =? "fraction".

(** The digits of [int(s)], after the sign: decimal digits, with single
    underscores allowed between two digits. *)
Fixpoint digits_value (acc : Z) (after_digit : bool) (l : list ascii) : option Z :=
  match l with
  | [] => if after_digit then Some acc else None
  | c :: r =>
      if isdigit c
      then digits_value (10 * acc + Z.of_nat (ascii_code c - 48)) true r
      else if Ascii.eqb c "_" && after_digit then digits_value acc false r
      else None
  end.

(** The white space that [int()] drops around the number: TAB..CR and the
    blank, a smaller set than [isspace]. *)
Definition int_space (c : ascii) : bool :=
  let n := ascii_code c in
  ((9 <=? n) && (n <=? 13) || (n =? 32))%nat.

(** [int(s)] of a [str]: white space around the number is dropped, a sign
    may come first; anything else is a [ValueError] that quotes the text. *)
Definition int_of_str (s : string) : attempt Z :=
  let body := strip_chars int_space (list_ascii_of_string s) in
  let value :=
    match body with
    | c :: r =>
        if Ascii.eqb c "-" then option_map Z.opp (digits_value 0 false r)
        else if Ascii.eqb c "+" then digits_value 0 false r
        else digits_value 0 false body
    | [] => None
    end in
  match value with
  | Some z => inr z
  | None => inl (PyExc "ValueError"
                   ("invalid literal for int() with base 10: " ++ repr_str s))
  end.

(** [x or 100] followed by [int(...)]: zero, the empty text and every other
    falsy value read 100, as a missing count does. *)
Definition int_or_100 (x : option PyAny) : attempt Z :=
  match x with
  | None => inr 100%Z
  | Some (AnyInt z) => inr (if (z =? 0)%Z then 100%Z else z)
  | Some (AnyStr s) => if nonempty s then int_of_str s else inr 100%Z
  | Some (AnyOther truthy as_int) => if truthy then as_int else inr 100%Z
  end.

(** [int(n.data.n or 100)] *)
Definition sample_size (d : NodeData) : attempt Z := int_or_100 (n d).

(** The [transform.sample] branches. [float_text] stands for
    [str(float(n.data.frac or 0.1))], which is outside the embedding. *)
Definition gen_python_sample (float_text : option string -> attempt string)
                             (v : string) (ps : list string) (d : NodeData)
  : attempt (list string) :=
  if is_fraction d then
    f <~ float_text (frac d) ;;
    p0 <~ item ps 0 ;;
    inr [(v ++ " = " ++ p0 ++ ".sample(frac=" ++ f ++ ", random_state=None)")%string;
         EmptyString]
  else
    N <~ sample_size d ;;
    p0 <~ item ps 0 ;;
    inr [(v ++ " = " ++ p0 ++ ".sample(n=" ++ str_of_Z N
          ++ ", random_state=None)")%string;
         EmptyString].

Definition gen_sql_sample (float_text : option string -> attempt string)
                          (alias : string) (p : list string) (d : NodeData)
  : attempt string :=
  if is_fraction d then
    f <~ float_text (frac d) ;;
    p0 <~ item p 0 ;;
    inr (alias ++ " AS (SELECT * FROM " ++ p0 ++ " WHERE random() < " ++ f ++ ")")%string
  else
    N <~ sample_size d ;;
    p0 <~ item p 0 ;;
    inr (alias ++ " AS (SELECT * FROM " ++ p0 ++ " USING SAMPLE "
         ++ str_of_Z N ++ " ROWS)")%string.

Definition gen_spark_sample (float_text : option string -> attempt string)
                            (v : string) (ps : list string) (d : NodeData)
  : attempt (list string) :=
  if is_fraction d then
    f <~ float_text (frac d) ;;
    p0 <~ item ps 0 ;;
    inr [(v ++ " = " ++ p0 ++ ".sample(" ++ f ++ ")")%string]
  else
    N <~ sample_size d ;;
    p0 <~ item ps 0 ;;
    inr [("__cnt = " ++ p0 ++ ".count()")%string;
         (v ++ " = " ++ p0 ++ ".limit(min(" ++ str_of_Z N
          ++ ", __cnt))")%string].

(** ** The tabular engine

    A table is its column names and its rows, each row holding one cell per
    column; [pd.DataFrame()] is the table without columns and rows. What
    pandas computes (reading, querying, aggregating, sorting, sampling,
    merging, writing) is a field of [Engine]: a function that returns a
    table or the exception the call raises. *)

Inductive Cell : Type :=
| Null
| IntV (z : Z)
| StrV (s : string)
| BoolV (b : bool).

Record DataFrame : Type := mkDF {
  df_columns : list string;
  df_rows : list (list Cell)
}.

Definition empty_frame : DataFrame := mkDF [] [].

(** [len(df)] *)
Definition nrows (df : DataFrame) : Z := Z.of_nat (List.length (df_rows df)).

(** [left_on=Lk if len(Lk) > 1 else Lk[0]] *)
Inductive KeyArg : Type :=
| OneKey (k : string)
| KeyList (ks : list string).

Record Engine : Type := mkEngine {
  read_csv_text : string -> attempt DataFrame;
  path_exists : string -> bool;
  read_csv_path : string -> attempt DataFrame;
  take_columns : DataFrame -> list string -> attempt DataFrame;
  cast_column : DataFrame -> string -> string -> attempt DataFrame;
  query : DataFrame -> string -> attempt DataFrame;
  aggregate : DataFrame -> list string -> dict (list string) -> dict string
              -> attempt DataFrame;
  eval_assign : DataFrame -> string -> string -> attempt DataFrame;
  sort_values : DataFrame -> list string -> list bool -> attempt DataFrame;
  float_of : option string -> attempt string;   (* [float(frac or 0.1)] *)
  sample_frac : DataFrame -> string -> attempt DataFrame;
  sample_n : DataFrame -> Z -> attempt DataFrame;
  merge : DataFrame -> DataFrame -> string -> KeyArg -> KeyArg -> attempt DataFrame;
  to_csv : DataFrame -> string -> attempt unit
}.

(** [df[c] = None]: the column [c] holds the null marker in every row; a
    column of that name is overwritten in place, a new one goes last. *)
Definition null_column (df : DataFrame) (c : string) : DataFrame :=
  if mem_str c (df_columns df) then
    mkDF (df_columns df)
         (map (fun row =>
                 map (fun nc => if fst nc =? c then Null else snd nc)
                     (combine (df_columns df) row))
              (df_rows df))
  else
    mkDF (df_columns df ++ [c]) (map (fun row => row ++ [Null]) (df_rows df)).


(** ** The interpreter *)

(** [p.split()[0]] of a stripped, non-empty piece *)
Fixpoint first_word_aux (l : list ascii) : list ascii :=
  match l with
  | [] => []
  | c :: r => if isspace c then [] else c :: first_word_aux r
  end.

Definition first_word (p : string) : string :=
  string_of_list_ascii (first_word_aux (list_ascii_of_string p)).

(** [s.endswith(suffix)] *)
Definition endswith (s suffix : string) : bool :=
  let n := String.length s in
  let m := String.length suffix in
  (m <=? n)%nat && (substring (n - m) m s =? suffix).

Definition falsy (o : option string) : bool :=
  match o with Some s => negb (nonempty s) | None => true end.

(** The loop over [measures]: the two dictionaries it fills. *)
Definition add_measure (st : dict (list string) * dict string) (m : Measure)
  : dict (list string) * dict string :=
  let '(agg_map, rename) := st in
  if falsy (m_col m) || falsy (m_op m) then st
  else
    let col := str_or (m_col m) EmptyString in
    let op := str_or (m_op m) EmptyString in
    let plain := (op ++ "_" ++ col)%string in
    let key := str_or (m_as m) plain in
    (PyDict.set agg_map col (PyDict.get_default agg_map col [] ++ [op]),
     PyDict.set rename plain key).

(** The loop over [schema] in the select branch. *)
Fixpoint apply_schema (E : Engine) (entries : list SchemaEntry) (df : DataFrame)
  : attempt DataFrame :=
  match entries with
  | [] => inr df
  | s :: rest =>
      let name := strip (str_or (s_name s) EmptyString) in
      let dt := lower (strip (str_or (s_dtype s) "string")) in
      if negb (nonempty name) || negb (mem_str name (df_columns df))
      then apply_schema E rest df
      else df' <~ cast_column E df name dt ;; apply_schema E rest df'
  end.

Definition key_arg (ks : list string) : attempt KeyArg :=
  if (1 <? List.length ks)%nat then inr (KeyList ks)
  else k <~ item ks 0 ;; inr (OneKey k).

Definition filter_message (ex : string) : string :=
  ("Filter expression failed; returned input unchanged. expr='" ++ ex ++ "'")%string.

Definition formula_message (new_col ex : string) : string :=
  ("Formula evaluation failed; filled '" ++ new_col ++ "' with nulls. expr='"
   ++ ex ++ "'")%string.

Definition source_message (d : NodeData) (nid : string) : string :=
  ("CSV Source '" ++ str_or (label d) nid
   ++ "' has no uploaded data or readable path.")%string.

Definition run_state : Type := (dict DataFrame * dict string)%type.

(** The body of the outer [try] for one node: the new [frames] and
    [node_errors], or the exception that escapes it. *)
Definition node_body (E : Engine) (parents : dict (list string))
                     (st : run_state) (nid : string) (nd : Node)
  : attempt run_state :=
  let '(frames, node_errors) := st in
  let d := data nd in
  let t := type d in
  pids <~ lookup_try parents nid ;;
  let ps := map (fun p => PyDict.get_default frames p empty_frame) pids in
  if t =? "source.csv" then
    let text_ok := match _fileText d with
                   | Some txt => nonempty txt && nonempty (strip txt)
                   | None => false
                   end in
    let file_path := strip (str_or (path d) EmptyString) in
    df <~ (if text_ok then read_csv_text E (str_or (_fileText d) EmptyString)
           else if nonempty file_path && path_exists E file_path
                then read_csv_path E file_path
                else inl (PyExc "FileNotFoundError" (source_message d nid))) ;;
    inr (PyDict.set frames nid df, node_errors)
  else if t =? "transform.select" then
    let cols_str := strip (str_or (columns d) "*") in
    p0 <~ item ps 0 ;;
    df <~ (if negb (nonempty cols_str) || (cols_str =? "*") then inr p0
           else take_columns E p0 (csv_list cols_str)) ;;
    df' <~ apply_schema E (match schema d with Some l => l | None => [] end) df ;;
    inr (PyDict.set frames nid df', node_errors)
  else if t =? "transform.filter" then
    let ex := str_or (expr d) "True" in
    match (p0 <~ item ps 0 ;; query E p0 ex) with
    | inr df => inr (PyDict.set frames nid df, node_errors)
    | inl _ =>
        p0 <~ item ps 0 ;;
        inr (PyDict.set frames nid p0,
             PyDict.set node_errors nid (filter_message ex))
    end
  else if t =? "transform.summarize" then
    let by_ := csv_list (str_or (groupBy d) EmptyString) in
    let '(agg_map, rename) :=
      fold_left add_measure (match measures d with Some l => l | None => [] end)
                (PyDict.empty, PyDict.empty) in
    p0 <~ item ps 0 ;;
    df <~ aggregate E p0 by_ agg_map rename ;;
    inr (PyDict.set frames nid df, node_errors)
  else if t =? "transform.formula" then
    let new_col := str_or (newCol d) "new_column" in
    let ex := str_or (expr d) "0" in
    p0 <~ item ps 0 ;;
    match eval_assign E p0 new_col ex with
    | inr df => inr (PyDict.set frames nid df, node_errors)
    | inl _ =>
        inr (PyDict.set frames nid (null_column p0 new_col),
             PyDict.set node_errors nid (formula_message new_col ex))
    end
  else if t =? "transform.sort" then
    let spec := strip (str_or (sortSpec d) EmptyString) in
    p0 <~ item ps 0 ;;
    df <~ (if negb (nonempty spec) then inr p0
           else
             let pieces := csv_list spec in
             sort_values E p0 (map first_word pieces)
               (map (fun p => negb (endswith (lower p) "desc")) pieces)) ;;
    inr (PyDict.set frames nid df, node_errors)
  else if t =? "transform.sample" then
    df <~ (if is_fraction d then
             f <~ float_of E (frac d) ;;
             p0 <~ item ps 0 ;;
             sample_frac E p0 f
           else
             N <~ sample_size d ;;
             p0 <~ item ps 0 ;;
             sample_n E p0 (Z.min N (nrows p0))) ;;
    inr (PyDict.set frames nid df, node_errors)
  else if t =? "transform.join" then
    let how_ := str_or (how d) "inner" in
    p0 <~ item ps 0 ;;
    p1 <~ item ps 1 ;;
    lk <~ key_arg (left_keys d) ;;
    rk <~ key_arg (right_keys d) ;;
    df <~ merge E p0 p1 how_ lk rk ;;
    inr (PyDict.set frames nid df, node_errors)
  else if t =? "sink.csv" then
    let outp := str_or (path d) "out.csv" in
    p0 <~ item ps 0 ;;
    _ <~ to_csv E p0 outp ;;
    inr (PyDict.set frames nid p0, node_errors)
  else
    inr (PyDict.set frames nid (match ps with p0 :: _ => p0 | [] => empty_frame end),
         node_errors).

(** [except Exception as e]: the error is recorded and the node's table is
    the empty one. *)
Definition node_failed (st : run_state) (nid : string) (e : exn) : run_state :=
  (PyDict.set (fst st) nid empty_frame,
   PyDict.set (snd st) nid (exn_name e ++ ": " ++ exn_str e)%string).

(** One turn of [for nid in order], after [n = id2[nid]]. *)
Definition exec_node (E : Engine) (parents : dict (list string))
                     (st : run_state) (nid : string) (nd : Node) : run_state :=
  match node_body E parents st nid nd with
  | inr st' => st'
  | inl e => node_failed st nid e
  end.

Definition exec_nodes (E : Engine) (id2 : dict Node) (parents : dict (list string))
                      (order : list string) (st : run_state) : result run_state :=
  for_each (fun st nid =>
              nd <- PyDict.lookup id2 nid ;;
              Ok (exec_node E parents st nid nd)) order st.

Definition exec_workflow_pandas (E : Engine) (nodes : list Node) (edges : list Edge)
                                (preview_id : option string)
  : result (DataFrame * dict string) :=
  '(n2, e2) <- subgraph_up_to nodes edges preview_id ;;
  order <- topo_sort n2 e2 ;;
  let id2 := id_map n2 in
  parents <- for_each add_pred e2 (dict_of_ids n2 ([] : list string)) ;;
  '(frames, node_errors) <- exec_nodes E id2 parents order (PyDict.empty, PyDict.empty) ;;
  final_df <- match rev order with
              | [] => Ok empty_frame
              | last :: _ => PyDict.lookup frames last
              end ;;
  Ok (final_df, node_errors).

(** ** In-memory sources *)

(** [(n.data.path or "").strip() or "uploaded.csv"] *)
Definition source_key (d : NodeData) : string :=
  let p := strip (str_or (path d) EmptyString) in
  if nonempty p then p else "uploaded.csv".

(** [n.data._fileText and isinstance(n.data._fileText, str) and
    n.data._fileText.strip()] as a condition *)
Definition has_text (d : NodeData) : bool :=
  match _fileText d with
  | Some txt => nonempty txt && nonempty (strip txt)
  | None => false
  end.

(** One turn of [for n in nodes] in [_gather_source_csv_text]. *)
Definition gather_step (out : dict string) (nd : Node) : dict string :=
  let d := data nd in
  if type d =? "source.csv" then
    if has_text d then PyDict.set out (source_key d) (str_or (_fileText d) EmptyString)
    else out
  else out.

Definition _gather_source_csv_text (nodes : list Node) : dict string :=
  fold_left gather_step nodes PyDict.empty.

(** ** The SQL generator *)

(** An exception raised outside any [try] leaves the function. *)
Definition of_attempt {A : Type} (m : attempt A) : result A :=
  match m with
  | inr a => Ok a
  | inl e => Raise e
  end.

(** The loop over [measures] in [gen_sql]: the aggregate expressions. *)
Definition sql_measure (exprs : list string) (m : Measure) : list string :=
  if falsy (m_col m) || falsy (m_op m) then exprs
  else
    let col := str_or (m_col m) EmptyString in
    let op := str_or (m_op m) EmptyString in
    let out_name := str_or (m_as m) (op ++ "_" ++ col)%string in
    exprs ++ [(op ++ "(" ++ quote_ident col ++ ") AS " ++ quote_ident out_name)%string].

(** [f"{alias} AS (SELECT * FROM {p[0]})"] *)
Definition sql_passthrough (alias : string) (p : list string) : attempt string :=
  p0 <~ item p 0 ;;
  inr (alias ++ " AS (SELECT * FROM " ++ p0 ++ ")")%string.

(** The CTE that one node adds to [ctes], by node type. *)
Definition sql_cte (float_text : option string -> attempt string)
                   (alias : string) (p : list string) (d : NodeData)
  : attempt string :=
  let t := type d in
  if t =? "source.csv" then
    inr (alias ++ " AS (SELECT * FROM read_csv_auto('"
         ++ str_or (path d) "uploaded.csv" ++ "', header=true))")%string
  else if t =? "transform.select" then
    let cols_str := strip (str_or (columns d) "*") in
    let select_list :=
      if negb (nonempty cols_str) || (cols_str =? "*") then "*"
      else join ", " (map quote_ident (csv_list cols_str)) in
    p0 <~ item p 0 ;;
    inr (alias ++ " AS (SELECT " ++ select_list ++ " FROM " ++ p0 ++ ")")%string
  else if t =? "transform.filter" then
    let raw := str_or (expr d) "1=1" in
    p0 <~ item p 0 ;;
    inr (alias ++ " AS (SELECT * FROM " ++ p0 ++ " WHERE " ++ raw ++ ")")%string
  else if t =? "transform.summarize" then
    let by_ := map quote_ident (csv_list (str_or (groupBy d) EmptyString)) in
    let exprs := fold_left sql_measure
                   (match measures d with Some l => l | None => [] end) [] in
    let select_parts :=
      match by_ ++ exprs with
      | [] => "*"
      | l => join ", " l
      end in
    let group :=
      match by_ with
      | [] => EmptyString
      | _ => (" GROUP BY " ++ join ", " by_)%string
      end in
    p0 <~ item p 0 ;;
    inr (alias ++ " AS (SELECT " ++ select_parts ++ " FROM " ++ p0 ++ group ++ ")")%string
  else if t =? "transform.formula" then
    let new_col := str_or (newCol d) "new_column" in
    let ex := str_or (expr d) "0" in
    p0 <~ item p 0 ;;
    inr (alias ++ " AS (SELECT *, (" ++ ex ++ ") AS " ++ quote_ident new_col
         ++ " FROM " ++ p0 ++ ")")%string
  else if t =? "transform.sort" then
    let spec := strip (str_or (sortSpec d) EmptyString) in
    if negb (nonempty spec) then sql_passthrough alias p
    else
      let ob := join ", "
                  (map (fun s => (quote_ident (first_word s) ++ " "
                                  ++ (if endswith (lower s) "desc" then "DESC" else "ASC"))%string)
                       (csv_list spec)) in
      p0 <~ item p 0 ;;
      inr (alias ++ " AS (SELECT * FROM " ++ p0 ++ " ORDER BY " ++ ob ++ ")")%string
  else if t =? "transform.sample" then gen_sql_sample float_text alias p d
  else if t =? "transform.join" then gen_sql_join alias p d
  else sql_passthrough alias p.

(** One turn of [for nid in order] in [gen_sql]. *)
Definition sql_turn (float_text : option string -> attempt string)
                    (id2 : dict Node) (parents : dict (list string))
                    (cte : dict string) (ctes : list string) (nid : string)
  : result (list string) :=
  nd <- PyDict.lookup id2 nid ;;
  pids <- PyDict.lookup parents nid ;;
  p <- for_each (fun acc pid => v <- PyDict.lookup cte pid ;; Ok (acc ++ [v])) pids [] ;;
  alias <- PyDict.lookup cte nid ;;
  c <- of_attempt (sql_cte float_text alias p (data nd)) ;;
  Ok (ctes ++ [c]).

(** The text assembled from the CTEs and the name of the last one. *)
Definition sql_text (ctes : list string) (last : string) : string :=
  join newline
    ["-- Auto-generated by ETL Studio (SQL, DuckDB-safe)";
     ("WITH" ++ newline ++ "  " ++ join ("," ++ newline ++ "  ") ctes)%string;
     ("SELECT * FROM " ++ last ++ ";")%string].

Definition gen_sql (float_text : option string -> attempt string)
                   (nodes : list Node) (edges : list Edge) : result string :=
  let id2 := id_map nodes in
  order <- topo_sort nodes edges ;;
  parents <- for_each add_pred edges (dict_of_ids nodes ([] : list string)) ;;
  '(cte, _) <- assign_names id2 order ;;
  ctes <- for_each (sql_turn float_text id2 parents cte) order [] ;;
  last <- match rev order with
          | [] => Ok "final"
          | l :: _ => PyDict.lookup cte l
          end ;;
  Ok (sql_text ctes last).

(** ** The pandas generator *)

Definition in_dquotes (s : string) : string :=
  (char_str dquote ++ s ++ char_str dquote)%string.

(** [s.replace(c, by)] for a one-character [c] *)
Definition replace_char (c : ascii) (by_ : string) (s : string) : string :=
  String.concat EmptyString
    (map (fun x => if Ascii.eqb x c then by_ else char_str x)
         (list_ascii_of_string s)).

(** [s.replace("\\", "\\\\").replace('"', '\\"')] *)
Definition py_escape (s : string) : string :=
  replace_char dquote (String backslash (char_str dquote))
    (replace_char backslash (String backslash (char_str backslash)) s).

(** [json.dumps(bs)] of a list of [bool] *)
Definition json_bools (bs : list bool) : string :=
  ("[" ++ join ", " (map (fun b : bool => if b then "true" else "false") bs) ++ "]")%string.

(** The lines that one node adds to [L] in [gen_python], by node type. *)
Definition python_lines (float_text : option string -> attempt string)
                        (v : string) (ps : list string) (d : NodeData)
  : attempt (list string) :=
  let t := type d in
  if t =? "source.csv" then
    let path_ := str_or (path d) "uploaded.csv" in
    inr [("# Source: " ++ str_or (label d) "CSV")%string;
         (v ++ " = pd.read_csv(r" ++ in_dquotes path_ ++ ")")%string;
         EmptyString]
  else if t =? "transform.select" then
    let cols_str := strip (str_or (columns d) "*") in
    if negb (nonempty cols_str) || (cols_str =? "*") then
      p0 <~ item ps 0 ;;
      inr [(v ++ " = " ++ p0 ++ ".copy()")%string; EmptyString]
    else
      let cols := csv_list cols_str in
      p0 <~ item ps 0 ;;
      inr [(v ++ " = " ++ p0 ++ "[" ++ json_list cols ++ "].copy()")%string; EmptyString]
  else if t =? "transform.filter" then
    let ex := py_escape (str_or (expr d) EmptyString) in
    p0 <~ item ps 0 ;;
    inr [(v ++ " = " ++ p0 ++ ".query(" ++ in_dquotes ex ++ ")")%string; EmptyString]
  else if t =? "transform.summarize" then
    let by_ := csv_list (str_or (groupBy d) EmptyString) in
    let '(agg_map, rename) :=
      fold_left add_measure (match measures d with Some l => l | None => [] end)
                (PyDict.empty, PyDict.empty) in
    let agg_obj :=
      join ", " (map (fun co : string * list string =>
                        ("'" ++ fst co ++ "': [" ++ join ", " (map repr_str (snd co)) ++ "]")%string)
                     agg_map) in
    let tmp := (v ++ "_tmp")%string in
    p0 <~ item ps 0 ;;
    inr ([match by_ with
          | [] => (tmp ++ " = " ++ p0 ++ ".agg({" ++ agg_obj ++ "})")%string
          | _ => (tmp ++ " = " ++ p0 ++ ".groupby(" ++ json_list by_ ++ ").agg({"
                  ++ agg_obj ++ "}).reset_index()")%string
          end;
          (v ++ " = " ++ tmp ++ ".copy()")%string;
          (v ++ ".columns = ['_'.join([str(c) for c in col]).strip('_') if isinstance(col, tuple) else col for col in "
           ++ v ++ ".columns]")%string]
         ++ map (fun ka : string * string =>
                   (v ++ ".rename(columns={'" ++ fst ka ++ "': '" ++ snd ka
                    ++ "'}, inplace=True)")%string) rename
         ++ [EmptyString])
  else if t =? "transform.formula" then
    let new_col := str_or (newCol d) "new_column" in
    let ex := py_escape (str_or (expr d) "0") in
    p0 <~ item ps 0 ;;
    inr [(v ++ " = " ++ p0 ++ ".copy()")%string;
         (v ++ "[" ++ json_str new_col ++ "] = " ++ v ++ ".eval(" ++ in_dquotes ex
          ++ ", engine=" ++ in_dquotes "python" ++ ")")%string;
         EmptyString]
  else if t =? "transform.sort" then
    let spec := strip (str_or (sortSpec d) EmptyString) in
    if negb (nonempty spec) then
      p0 <~ item ps 0 ;;
      inr [(v ++ " = " ++ p0 ++ ".copy()")%string; EmptyString]
    else
      let pieces := csv_list spec in
      let cols := map first_word pieces in
      let ascending := map (fun p => negb (endswith (lower p) "desc")) pieces in
      p0 <~ item ps 0 ;;
      inr [(v ++ " = " ++ p0 ++ ".sort_values(" ++ json_list cols ++ ", ascending="
            ++ json_bools ascending ++ ")")%string;
           EmptyString]
  else if t =? "transform.sample" then gen_python_sample float_text v ps d
  else if t =? "transform.join" then gen_python_join v ps d
  else if t =? "sink.csv" then
    let outp := str_or (path d) "out.csv" in
    p0 <~ item ps 0 ;;
    inr [(p0 ++ ".to_csv(r" ++ in_dquotes outp ++ ", index=False)")%string;
         ("# wrote: " ++ outp)%string;
         EmptyString]
  else
    inr [("# TODO: " ++ t)%string; EmptyString].

(** [ps = [names[p] for p in parents[nid]]] *)
Definition names_of (names : dict string) (pids : list string) : result (list string) :=
  for_each (fun acc pid => v <- PyDict.lookup names pid ;; Ok (acc ++ [v])) pids [].

(** One turn of [for nid in order] in [gen_python]. *)
Definition python_turn (float_text : option string -> attempt string)
                       (id2 : dict Node) (parents : dict (list string))
                       (names : dict string) (L : list string) (nid : string)
  : result (list string) :=
  nd <- PyDict.lookup id2 nid ;;
  v <- PyDict.lookup names nid ;;
  pids <- PyDict.lookup parents nid ;;
  ps <- names_of names pids ;;
  lines <- of_attempt (python_lines float_text v ps (data nd)) ;;
  Ok (L ++ lines).

Definition gen_python (float_text : option string -> attempt string)
                      (nodes : list Node) (edges : list Edge) : result string :=
  let id2 := id_map nodes in
  order <- topo_sort nodes edges ;;
  parents <- for_each add_pred edges (dict_of_ids nodes ([] : list string)) ;;
  '(names, _) <- assign_names id2 order ;;
  L <- for_each (python_turn float_text id2 parents names) order
         ["# Auto-generated by ETL Studio (pandas)"; "import pandas as pd"; EmptyString] ;;
  L' <- match rev order with
        | [] => Ok L
        | last :: _ =>
            '(name2, _) <- assign_names id2 order ;;
            r <- PyDict.lookup name2 last ;;
            Ok (L ++ [("result = " ++ r)%string; EmptyString])
        end ;;
  Ok (join newline L').

(** ** The Spark generator *)

(** The loop over [measures] in [gen_spark]: the aggregate calls. *)
Definition spark_measure (aggs : list string) (m : Measure) : list string :=
  if falsy (m_col m) || falsy (m_op m) then aggs
  else
    let col := str_or (m_col m) EmptyString in
    let op := str_or (m_op m) EmptyString in
    let out := str_or (m_as m) (op ++ "_" ++ col)%string in
    aggs ++ [("F." ++ op ++ "('" ++ col ++ "').alias('" ++ out ++ "')")%string].

(** The lines that one node adds to [L] in [gen_spark], the closing empty
    line left out. *)
Definition spark_lines (float_text : option string -> attempt string)
                       (v : string) (ps : list string) (d : NodeData)
  : attempt (list string) :=
  let t := type d in
  if t =? "source.csv" then
    let path_ := str_or (path d) "uploaded.csv" in
    inr [(v ++ " = spark.read.option('header', True).csv(" ++ json_str path_ ++ ")")%string]
  else if t =? "transform.select" then
    let cols_str := strip (str_or (columns d) "*") in
    if negb (nonempty cols_str) || (cols_str =? "*") then
      p0 <~ item ps 0 ;;
      inr [(v ++ " = " ++ p0)%string]
    else
      let cols := csv_list cols_str in
      p0 <~ item ps 0 ;;
      inr [(v ++ " = " ++ p0 ++ ".select(" ++ join ", " (map repr_str cols) ++ ")")%string]
  else if t =? "transform.filter" then
    let ex := str_or (expr d) "1=1" in
    p0 <~ item ps 0 ;;
    inr [(v ++ " = " ++ p0 ++ ".filter(" ++ json_str ex ++ ")")%string]
  else if t =? "transform.summarize" then
    let by_ := csv_list (str_or (groupBy d) EmptyString) in
    let aggs := fold_left spark_measure
                  (match measures d with Some l => l | None => [] end) [] in
    p0 <~ item ps 0 ;;
    inr [match by_ with
         | [] => (v ++ " = " ++ p0 ++ ".agg(" ++ join ", " aggs ++ ")")%string
         | _ => (v ++ " = " ++ p0 ++ ".groupBy(" ++ join ", " (map repr_str by_)
                 ++ ").agg(" ++ join ", " aggs ++ ")")%string
         end]
  else if t =? "transform.formula" then
    let new_col := str_or (newCol d) "new_column" in
    let ex := str_or (expr d) "0" in
    p0 <~ item ps 0 ;;
    inr [(v ++ " = " ++ p0 ++ ".withColumn('" ++ new_col ++ "', F.expr("
          ++ json_str ex ++ "))")%string]
  else if t =? "transform.sort" then
    let spec := strip (str_or (sortSpec d) EmptyString) in
    if negb (nonempty spec) then
      p0 <~ item ps 0 ;;
      inr [(v ++ " = " ++ p0)%string]
    else
      let orders :=
        map (fun p => ("F.col('" ++ first_word p ++ "')."
                       ++ (if endswith (lower p) "desc" then "desc" else "asc")
                       ++ "()")%string)
            (csv_list spec) in
      p0 <~ item ps 0 ;;
      inr [(v ++ " = " ++ p0 ++ ".orderBy(" ++ join ", " orders ++ ")")%string]
  else if t =? "transform.sample" then gen_spark_sample float_text v ps d
  else if t =? "transform.join" then
    line <~ gen_spark_join v ps d ;; inr [line]
  else if t =? "sink.csv" then
    let outp := str_or (path d) "out_spark.csv" in
    p0 <~ item ps 0 ;;
    inr [(p0 ++ ".coalesce(1).write.mode('overwrite').option('header', True).csv("
          ++ json_str outp ++ ")")%string]
  else
    inr [("# TODO: " ++ t)%string].

(** One turn of [for nid in order] in [gen_spark]. *)
Definition spark_turn (float_text : option string -> attempt string)
                      (id2 : dict Node) (parents : dict (list string))
                      (names : dict string) (L : list string) (nid : string)
  : result (list string) :=
  nd <- PyDict.lookup id2 nid ;;
  v <- PyDict.lookup names nid ;;
  pids <- PyDict.lookup parents nid ;;
  ps <- names_of names pids ;;
  lines <- of_attempt (spark_lines float_text v ps (data nd)) ;;
  Ok (L ++ lines ++ [EmptyString]).

Definition gen_spark (float_text : option string -> attempt string)
                     (nodes : list Node) (edges : list Edge) : result string :=
  let id2 := id_map nodes in
  order <- topo_sort nodes edges ;;
  parents <- for_each add_pred edges (dict_of_ids nodes ([] : list string)) ;;
  '(names, _) <- assign_names id2 order ;;
  L <- for_each (spark_turn float_text id2 parents names) order
         ["# Auto-generated by ETL Studio (PySpark)";
          "from pyspark.sql import SparkSession, functions as F";
          "spark = SparkSession.builder.appName('etl-studio').getOrCreate()";
          EmptyString] ;;
  L' <- match rev order with
        | [] => Ok L
        | last :: _ => r <- PyDict.lookup names last ;; Ok (L ++ [("result = " ++ r)%string])
        end ;;
  Ok (join newline L').

End Server.

(* ================================================================== *)
(** * validator.py                                                      *)
(* ================================================================== *)

Module Validator.

(** A metadata snapshot; a key that is missing reads as [None]. *)
Record Meta : Type := mkMeta {
  rows : option Z;
  meta_columns : option (list string);
  dtypes : option (list string)
}.

Record MetaCmp : Type := mkCmp {
  rows_equal : bool; columns_equal : bool; dtypes_equal : bool; exact_match : bool }.

Definition opt_eqb {A : Type} (eqb : A -> A -> bool) (x y : option A) : bool :=
  match x, y with
  | Some a, Some b => eqb a b
  | None, None => true
  | _, _ => false
  end.

Definition compare_meta (a b : Meta) : MetaCmp :=
  let r := opt_eqb Z.eqb (rows a) (rows b) in
  let c := opt_eqb list_eqb (meta_columns a) (meta_columns b) in
  let d := opt_eqb list_eqb (dtypes a) (dtypes b) in
  mkCmp r c d (r && c && d).

End Validator.


(* ================================================================== *)
(** * Specification vocabulary                                          *)
(* ================================================================== *)

(** A graph is well formed when node ids are pairwise distinct and every
    edge joins two of its nodes. *)
Definition graph_wf (nodes : list Node) (edges : list Edge) : Prop :=
  NoDup (ids nodes) /\
  forall e, In e edges -> In (source e) (ids nodes) /\ In (target e) (ids nodes).
Arguments graph_wf nodes edges /.

(** A non-empty walk along the edges. *)
Inductive walk (E : list Edge) : string -> string -> Prop :=
| walk_edge s t : In (mkEdge s t) E -> walk E s t
| walk_step s m t : In (mkEdge s m) E -> walk E m t -> walk E s t.

Definition has_cycle (E : list Edge) : Prop := exists x, walk E x x.
Definition acyclic (E : list Edge) : Prop := forall x, ~ walk E x x.

(** [s] occurs in [l] at a position before an occurrence of [t]. *)
Definition before (s t : string) (l : list string) : Prop :=
  exists l1 l2 l3, l = l1 ++ s :: l2 ++ t :: l3.

(** Consecutive elements are joined by an edge. *)
Fixpoint chain (E : list Edge) (l : list string) : Prop :=
  match l with
  | x :: ((y :: _) as r) => In (mkEdge x y) E /\ chain E r
  | _ => True
  end.

Definition indeg (E : list Edge) (t : string) : nat :=
  List.length (filter (fun e => target e =? t) E).

Definition succs (E : list Edge) (s : string) : list string :=
  map target (filter (fun e => source e =? s) E).

Definition preds_of (E : list Edge) (t : string) : list string :=
  map source (filter (fun e => target e =? t) E).

(** In-edges of [t] whose source is not yet in [out]. *)
Definition remaining (E : list Edge) (out : list string) (t : string) : nat :=
  List.length (filter (fun e => (target e =? t) && negb (mem_str (source e) out)) E).

(** What the edge-counting loop keeps true of the in-degree dictionary:
    its keys are distinct, they start with the node ids in the caller's
    order, and a key that is not a node id has a positive count. *)
Definition inc_shape (V : list string) (inc : dict Z) : Prop :=
  NoDup (PyDict.keys inc) /\
  exists extra, PyDict.keys inc = V ++ extra /\
    forall k v, In k extra -> PyDict.get inc k = Some v -> (0 < v)%Z.

Definition inc_nonneg (inc : dict Z) : Prop :=
  forall k v, PyDict.get inc k = Some v -> (0 <= v)%Z.
(** The invariant of Kahn's loop over the graph [(V, E)], stated while the
    successors [todo] of the node just moved to [out] are still to be
    relaxed: the counter of [t] is the number of its in-edges whose source
    is not yet output, plus its pending relaxations; the nodes that reached
    zero are exactly those output or queued; every edge into such a node
    comes from an earlier position; and the sequence starts with the
    initial queue [q0]. *)
Definition kahn_inner (V : list string) (E : list Edge) (q0 : list string)
                      (out todo : list string) (inc : dict Z) (q : list string)
  : Prop :=
  NoDup (out ++ q) /\ incl (out ++ q) V /\
  (forall t, In t V ->
     PyDict.get inc t
     = Some (Z.of_nat (remaining E out t + count_occ string_dec todo t))) /\
  (forall t, In t V ->
     (remaining E out t + count_occ string_dec todo t = 0 <-> In t (out ++ q))) /\
  (forall e, In e E -> In (target e) (out ++ q) ->
     before (source e) (target e) (out ++ q)) /\
  (exists rest, out ++ q = q0 ++ rest).

Definition kahn_inv (V : list string) (E : list Edge) (q0 : list string)
                    (inc : dict Z) (q out : list string) : Prop :=
  kahn_inner V E q0 out [] inc q.

(** The nodes without an incoming edge, in the caller's order: the initial
    ready queue. *)
Definition sources_of (V : list string) (E : list Edge) : list string :=
  filter (fun k => (indeg E k =? 0)%nat) V.

(** [x] is [t] or reaches [t] along the edges: backward reachability from
    [t] over predecessor edges, [t] included. *)
Definition ancestor (E : list Edge) (t x : string) : Prop := x = t \/ walk E x t.

Definition edges_within (nodes : list Node) (edges : list Edge) : Prop :=
  forall e, In e edges -> In (source e) (ids nodes) /\ In (target e) (ids nodes).

(** Edges whose target is not yet kept: what the reachability loop can
    still push. *)
Definition unkept (E : list Edge) (keep : list string) : nat :=
  List.length (filter (fun e => negb (mem_str (target e) keep)) E).

(** The invariant of the reachability loop towards [tid]. *)
Definition reach_inv (E : list Edge) (tid : string) (keep stack : list string)
  : Prop :=
  (forall x, In x (keep ++ stack) -> ancestor E tid x) /\
  In tid (keep ++ stack) /\
  (forall e, In e E -> In (target e) keep -> In (source e) (keep ++ stack)).

(** ** Sample graphs *)

Definition plain (i : string) : Node :=
  mkNode i (mkData None "unknown" None None None None None None None None
                   None None None None None None None).

(** [a -> b -> c], handed over in the order [c, a, b]. *)
Definition line_nodes : list Node := [plain "c"; plain "a"; plain "b"].
Definition line_edges : list Edge := [mkEdge "a" "b"; mkEdge "b" "c"].

(** The same with the edge [c -> b] added: a cycle. *)
Definition loop_edges : list Edge := [mkEdge "a" "b"; mkEdge "b" "c"; mkEdge "c" "b"].

(** A node list in which the id [a] occurs twice. *)
Definition twin_nodes : list Node := [plain "b"; plain "a"; plain "a"].
Definition twin_edges : list Edge := [mkEdge "a" "b"].

Definition line_rank (s : string) : nat :=
  if s =? "a" then 0 else if s =? "b" then 1 else 2.

(** Two unconnected nodes, one of them with the empty id. *)
Definition blank_nodes : list Node := [plain EmptyString; plain "x"].

(** ** Sample pipelines *)

Definition step (i t : string) (cols ex : option string) : Node :=
  mkNode i (mkData None t None None cols ex None None None None
                   None None None None None None None).

(** [s -> p -> q -> {k1, k2}]: two filters in a row, the second one feeding
    two sinks. *)
Definition fan_nodes : list Node :=
  [step "s" "source.csv" None None;
   step "p" "transform.filter" None (Some "x>1");
   step "q" "transform.filter" None (Some "y<5");
   step "k1" "sink.csv" None None;
   step "k2" "sink.csv" None None].
Definition fan_edges : list Edge :=
  [mkEdge "s" "p"; mkEdge "p" "q"; mkEdge "q" "k1"; mkEdge "q" "k2"].

(** [s -> p -> q]: two explicit selects in a row, the second one last. *)
Definition tail_nodes : list Node :=
  [step "s" "source.csv" None None;
   step "p" "transform.select" (Some "a, b") None;
   step "q" "transform.select" (Some "b,c") None].
Definition tail_edges : list Edge := [mkEdge "s" "p"; mkEdge "p" "q"].

(** [s -> p -> q -> k]: the same two selects followed by a sink. *)
Definition mid_nodes : list Node :=
  tail_nodes ++ [step "k" "sink.csv" None None].
Definition mid_edges : list Edge := tail_edges ++ [mkEdge "q" "k"].

(** ** Naming *)

(** The character-wise replacement inside [friendly_name]. *)
Definition underscored (label : option string) : list ascii :=
  map (fun c => if isalnum c then c else "_"%char)
      (list_ascii_of_string (lower (str_or label "node"))).

(** The name given to the occurrence of [base] that follows [k] earlier ones. *)
Definition numbered (base : string) (k : Z) : string :=
  if (k + 1 =? 1)%Z then base else (base ++ "_" ++ str_of_Z (k + 1))%string.

(** The base name of the node stored under [nid]. *)
Definition base_of (id2 : dict Node) (nid : string) : string :=
  match PyDict.get id2 nid with
  | Some nd => Server.friendly_base (label (data nd))
  | None => EmptyString
  end.

(** How many of the nodes [pre] share the base name [b]. *)
Definition same_base (id2 : dict Node) (b : string) (pre : list string) : nat :=
  List.length (filter (fun m => base_of id2 m =? b) pre).

Definition labelled (i : string) (l : string) : Node :=
  mkNode i (mkData (Some l) "transform.filter" None None None None None None None
                   None None None None None None None None).

Definition two_filters : list Node := [labelled "n1" "Filter"; labelled "n2" "Filter"].

(** ** Tables and a bench engine *)


(** What pandas promises of [df.sample(n=k)]: for [0 <= k <= len(df)] it
    returns a table of exactly [k] rows. *)
Definition sample_contract (E : Server.Engine) : Prop :=
  forall df k, (0 <= k <= Server.nrows df)%Z ->
    exists df', Server.sample_n E df k = inr df' /\ Server.nrows df' = k.

Definition unsupported {A : Type} : Server.attempt A :=
  inl (PyExc "NotImplementedError" "not in the bench engine").

(** An engine small enough to run by hand: sampling [k] rows takes the
    leading [k] rows and refuses a count that is negative or larger than the
    table, as pandas does; a query keeps the table when its text is [True]
    and raises otherwise; evaluating a formula always raises. *)
Definition bench_engine : Server.Engine :=
  Server.mkEngine
    (fun _ => unsupported)
    (fun _ => false)
    (fun _ => unsupported)
    (fun _ _ => unsupported)
    (fun _ _ _ => unsupported)
    (fun df ex => if ex =? "True" then inr df
                  else inl (PyExc "SyntaxError" "invalid syntax"))
    (fun _ _ _ _ => unsupported)
    (fun _ _ _ => inl (PyExc "SyntaxError" "invalid syntax"))
    (fun _ _ _ => unsupported)
    (fun _ => unsupported)
    (fun _ _ => unsupported)
    (fun df k =>
       if (k <? 0)%Z
       then inl (PyExc "ValueError"
                   "A negative number of rows requested. Please provide `n` >= 0.")
       else if (k <=? Server.nrows df)%Z
       then inr (Server.mkDF (Server.df_columns df)
                             (firstn (Z.to_nat k) (Server.df_rows df)))
       else inl (PyExc "ValueError"
                   "Cannot take a larger sample than population when 'replace=False'"))
    (fun _ _ _ _ _ => unsupported)
    (fun _ _ => unsupported).

(** A table of two columns and three rows. *)
Definition people : Server.DataFrame :=
  Server.mkDF ["name"; "age"]
    [[Server.StrV "ann"; Server.IntV 31];
     [Server.StrV "bob"; Server.IntV 17];
     [Server.StrV "cy"; Server.IntV 44]].

Definition job (i t : string) (ex new_col : option string) (count : option PyAny) : Node :=
  mkNode i (mkData None t None None None ex None None new_col None None count
                   None None None None None).

(** One parent, [src], holding [people]; the node under test is [x]. *)
Definition bench_parents : dict (list string) := [("src", []); ("x", ["src"])].
Definition bench_frames : dict Server.DataFrame := [("src", people)].

(** A join on two left keys and one right key. *)
Definition short_join : NodeData :=
  mkData None "transform.join" None None None None None None None None None None
         None (Some "a,b") (Some "x") None None.

(** A join whose right key list is blank. *)
Definition blank_join : NodeData :=
  mkData None "transform.join" None None None None None None None None None None
         None (Some "a,b") (Some " ,") None None.

(** [s] between double quotes. *)
Definition dq (s : string) : string :=
  (char_str dquote ++ s ++ char_str dquote)%string.

Definition right_keys_nonempty (d : NodeData) : Prop := Server.right_keys d <> [].

(** Counters that are still positive: with the queue length, the measure
    that Kahn's loop decreases at every turn. *)
Definition count_pos (inc : dict Z) : nat :=
  List.length (filter (fun kv => (0 <? snd kv)%Z) inc).


(** ** More sample graphs *)

(** The line graph with one more edge, from an id that no node carries. *)
Definition stray_edges : list Edge := [mkEdge "a" "b"; mkEdge "z" "c"; mkEdge "b" "c"].

(** An edge into an id that no node carries. *)
Definition dangling_edges : list Edge := [mkEdge "a" "b"; mkEdge "b" "y"].

(** ** More sample pipelines *)

(** [s -> p -> q -> k]: two filters in a row followed by a sink. *)
Definition sieve_nodes : list Node :=
  [step "s" "source.csv" None None;
   step "p" "transform.filter" None (Some "x>1");
   step "q" "transform.filter" None (Some "y<5");
   step "k" "sink.csv" None None].
Definition sieve_edges : list Edge :=
  [mkEdge "s" "p"; mkEdge "p" "q"; mkEdge "q" "k"].

(** [s -> w -> k]: a select that keeps every column, between a source and a
    sink. *)
Definition pass_nodes : list Node :=
  [step "s" "source.csv" None None;
   step "w" "transform.select" None None;
   step "k" "sink.csv" None None].
Definition pass_edges : list Edge := [mkEdge "s" "w"; mkEdge "w" "k"].

(** [s -> p -> w -> k]: an explicit select, then one that keeps every column. *)
Definition narrow_nodes : list Node :=
  [step "s" "source.csv" None None;
   step "p" "transform.select" (Some "a,b") None;
   step "w" "transform.select" (Some "*") None;
   step "k" "sink.csv" None None].
Definition narrow_edges : list Edge :=
  [mkEdge "s" "p"; mkEdge "p" "w"; mkEdge "w" "k"].

(** What the fusion sweep keeps true of its node dictionary, relative to the
    node list it started from: keys are distinct, a node is stored under its
    own id, and it has the id and the type of a node of the list. *)
Definition tracks (nodes : list Node) (id2 : dict Node) : Prop :=
  NoDup (PyDict.keys id2) /\
  forall k nd', PyDict.get id2 k = Some nd' ->
    id nd' = k /\
    exists nd, In nd nodes /\ id nd = k /\ type (data nd) = type (data nd').

(** [[id2[i] for i in order if i in keep_ids]] *)
Definition survivors (id2 : dict Node) (order : list string) : list Node :=
  flat_map (fun i => match PyDict.get id2 i with Some nd => [nd] | None => [] end)
           order.

(** The node dictionary a rule hands on. *)
Definition flow_dict (f : Optimizer.flow Optimizer.sweep_state) : dict Node :=
  match f with
  | Optimizer.Next (d, _, _) => d
  | Optimizer.Continue (d, _, _) => d
  end.

(** A source node with a path and an in-memory text. *)
Definition upload (i : string) (p txt : option string) : Node :=
  mkNode i (mkData None "source.csv" p txt None None None None None None
                   None None None None None None None).

(** The in-memory source that [_gather_source_csv_text] files under [p]. *)
Definition files_under (p : string) (nd : Node) : bool :=
  (type (data nd) =? "source.csv")
  && Server.has_text (data nd)
  && (Server.source_key (data nd) =? p).

(** Three nodes labelled [a], [a] and [a 2]. *)
Definition clash_nodes : list Node :=
  [labelled "n1" "a"; labelled "n2" "a"; labelled "n3" "a 2"].

(** A join whose left key list is blank. *)
Definition blank_left_join : NodeData :=
  mkData None "transform.join" None None None None None None None None None None
         None (Some " , ") (Some "x") None None.

(** Two parents, [l] and [r], for the node [j]. *)
Definition join_parents : dict (list string) := [("l", []); ("r", []); ("j", ["l"; "r"])].

(** A join on two left keys and three right keys. *)
Definition long_join : NodeData :=
  mkData None "transform.join" None None None None None None None None None None
         (Some "left") (Some "a,b") (Some "x, y ,z") None None.

(** ** Readiness for the generators *)

(** Whether the number of a sample node converts: its fraction in fraction
    mode, its count in rows mode. *)
Definition sample_ok (float_text : option string -> Server.attempt string)
                     (d : NodeData) : bool :=
  if Server.is_fraction d
  then match float_text (frac d) with inr _ => true | inl _ => false end
  else match Server.sample_size d with inr _ => true | inl _ => false end.

(** Whether [sql_cte] can write the CTE of a node that has [k] parents: a
    source needs none, a join needs two and, unless its left key list is
    blank, a right key to pair with; a sample needs one and a number that
    converts; every other node needs one parent. *)
Definition sql_ready (float_text : option string -> Server.attempt string)
                     (k : nat) (d : NodeData) : bool :=
  let t := type d in
  if t =? "source.csv" then true
  else if t =? "transform.sample" then sample_ok float_text d && (1 <=? k)%nat
  else if t =? "transform.join" then
    match Server.left_keys d, Server.right_keys d with
    | _ :: _, [] => false
    | _, _ => (2 <=? k)%nat
    end
  else (1 <=? k)%nat.

(** The same for [spark_lines]: a node of a type the generator does not
    know needs no parent. *)
Definition spark_ready (float_text : option string -> Server.attempt string)
                       (k : nat) (d : NodeData) : bool :=
  let t := type d in
  if t =? "source.csv" then true
  else if t =? "transform.sample" then sample_ok float_text d && (1 <=? k)%nat
  else if t =? "transform.join" then
    match Server.left_keys d, Server.right_keys d with
    | _ :: _, [] => false
    | _, _ => (2 <=? k)%nat
    end
  else if (t =? "transform.select") || (t =? "transform.filter")
          || (t =? "transform.summarize") || (t =? "transform.formula")
          || (t =? "transform.sort") || (t =? "sink.csv")
  then (1 <=? k)%nat
  else true.

(** The same for [python_lines]: a join needs a key on both sides. *)
Definition py_ready (float_text : option string -> Server.attempt string)
                    (k : nat) (d : NodeData) : bool :=
  let t := type d in
  if t =? "source.csv" then true
  else if t =? "transform.sample" then sample_ok float_text d && (1 <=? k)%nat
  else if t =? "transform.join" then
    match Server.left_keys d, Server.right_keys d with
    | _ :: _, _ :: _ => (2 <=? k)%nat
    | _, _ => false
    end
  else if (t =? "transform.select") || (t =? "transform.filter")
          || (t =? "transform.summarize") || (t =? "transform.formula")
          || (t =? "transform.sort") || (t =? "sink.csv")
  then (1 <=? k)%nat
  else true.

(** Readiness of a node in a graph: its parents are the sources of the
    edges that enter it. *)
Definition node_ready (ready : nat -> NodeData -> bool)
                      (edges : list Edge) (nd : Node) : bool :=
  ready (List.length (preds_of edges (id nd))) (data nd).

(** Readiness of the node stored under an id. *)
Definition id_ready (ready : nat -> NodeData -> bool)
                    (nodes : list Node) (edges : list Edge) (nid : string) : bool :=
  match PyDict.get (id_map nodes) nid with
  | Some nd => node_ready ready edges nd
  | None => false
  end.

(** A filter that no edge enters, beside a source. *)
Definition orphan_nodes : list Node :=
  [step "s" "source.csv" None None; step "f" "transform.filter" None (Some "x>1")].

(** Two sources joined with a blank left key list. *)
Definition blank_join_nodes : list Node :=
  [step "l" "source.csv" None None; step "r" "source.csv" None None;
   mkNode "j" blank_left_join].
Definition blank_join_edges : list Edge := [mkEdge "l" "j"; mkEdge "r" "j"].

(** A node of a type that no generator knows, without any parent. *)
Definition stranger_nodes : list Node := [step "u" "inspect.deepdive" None None].


(** A source without data, a filter whose text the bench engine refuses,
    and a sink after it. *)
Definition faulty_nodes : list Node :=
  [step "s" "source.csv" None None;
   step "f" "transform.filter" None (Some "age >");
   step "k" "unknown" None None].
Definition faulty_edges : list Edge := [mkEdge "s" "f"; mkEdge "f" "k"].

(** A source feeding a rows-mode sample whose count is the text [abc]. *)
Definition counted_nodes : list Node :=
  [step "s" "source.csv" None None;
   job "m" "transform.sample" None None (Some (AnyStr "abc"))].
Definition counted_edges : list Edge := [mkEdge "s" "m"].

(** Case analysis on every [match] left in a hypothesis. *)
Ltac break_match_hyp H :=
  repeat match type of H with
         | context [match ?x with _ => _ end] => destruct x eqn:?
         end.

(** Case analysis on every conditional and [match] of the goal. *)
Ltac break_goal :=
  repeat match goal with
         | |- context [if ?c then _ else _] => destruct c eqn:?
         | |- context [match ?x with _ => _ end] => destruct x eqn:?
         end.

(* ================================================================== *)
(** * Properties                                                        *)
(* ================================================================== *)

(** ** Dictionaries *)

Section DictFacts.
Context {V : Type}.
Implicit Types (d : dict V) (k : string) (v : V).

Lemma get_set_same d k v : PyDict.get (PyDict.set d k v) k = Some v.
Proof.
    induction d as [|[k' v'] r IH]; simpl.
    - now rewrite String.eqb_refl.
    - destruct (String.eqb k' k) eqn:E; simpl; rewrite E; auto.
Qed.

Lemma get_set_other d k k' v :
    k <> k' -> PyDict.get (PyDict.set d k v) k' = PyDict.get d k'.
Proof.
    intros Hne. induction d as [|[k0 v0] r IH]; simpl.
    - destruct (String.eqb_spec k k'); congruence.
    - destruct (String.eqb_spec k0 k) as [->|]; simpl.
      + destruct (String.eqb_spec k k'); congruence.
      + now rewrite IH.
Qed.

Lemma get_None_keys d k : PyDict.get d k = None <-> ~ In k (PyDict.keys d).
Proof.
    induction d as [|[k' v'] r IH]; simpl.
    - tauto.
    - destruct (String.eqb_spec k' k) as [->|Hne].
      + split; [discriminate | tauto].
      + rewrite IH. tauto.
Qed.

Lemma get_Some_keys d k v : PyDict.get d k = Some v -> In k (PyDict.keys d).
Proof.
    intros H. destruct (in_dec string_dec k (PyDict.keys d)) as [|Hn]; auto.
    apply get_None_keys in Hn. congruence.
Qed.

Lemma keys_get d k : In k (PyDict.keys d) -> exists v, PyDict.get d k = Some v.
Proof.
    intros H. destruct (PyDict.get d k) eqn:E; eauto.
    apply get_None_keys in E. tauto.
Qed.

Lemma keys_set_present d k v :
    In k (PyDict.keys d) -> PyDict.keys (PyDict.set d k v) = PyDict.keys d.
Proof.
    induction d as [|[k' v'] r IH]; simpl; [tauto|].
    intros H. destruct (String.eqb_spec k' k) as [->|Hne]; simpl; auto.
    f_equal. apply IH. destruct H; congruence.
Qed.

Lemma keys_set_absent d k v :
    ~ In k (PyDict.keys d) -> PyDict.keys (PyDict.set d k v) = PyDict.keys d ++ [k].
Proof.
    induction d as [|[k' v'] r IH]; simpl; auto.
    intros H. destruct (String.eqb_spec k' k) as [->|Hne]; simpl.
    - tauto.
    - f_equal. apply IH. tauto.
Qed.

Lemma keys_set d k v :
    exists extra, PyDict.keys (PyDict.set d k v) = PyDict.keys d ++ extra
                  /\ incl extra [k].
Proof.
    destruct (in_dec string_dec k (PyDict.keys d)) as [Hin|Hn].
    - exists []. rewrite keys_set_present, app_nil_r by assumption.
      split; [reflexivity | intros x []].
    - exists [k]. rewrite keys_set_absent by assumption.
      split; [reflexivity | apply incl_refl].
Qed.

Lemma in_keys_set d k v k' :
    In k' (PyDict.keys (PyDict.set d k v)) <-> k' = k \/ In k' (PyDict.keys d).
Proof.
    destruct (in_dec string_dec k (PyDict.keys d)) as [Hin|Hn].
    - rewrite keys_set_present by assumption. split; [tauto|].
      intros [->|]; assumption.
    - rewrite keys_set_absent, in_app_iff by assumption. simpl.
      split; intros H; repeat destruct H as [H|H]; auto; tauto.
Qed.

Lemma NoDup_keys_set d k v :
    NoDup (PyDict.keys d) -> NoDup (PyDict.keys (PyDict.set d k v)).
Proof.
    intros H. destruct (in_dec string_dec k (PyDict.keys d)) as [Hin|Hn].
    - now rewrite keys_set_present.
    - rewrite keys_set_absent by assumption.
      apply NoDup_app; [assumption | repeat constructor; intros [] | ].
      intros x Hx [<-|[]]. tauto.
Qed.

Lemma get_default_set_same d k v dflt :
    PyDict.get_default (PyDict.set d k v) k dflt = v.
Proof. unfold PyDict.get_default. now rewrite get_set_same. Qed.

Lemma get_default_set_other d k k' v dflt :
    k <> k' ->
    PyDict.get_default (PyDict.set d k v) k' dflt = PyDict.get_default d k' dflt.
Proof. intros. unfold PyDict.get_default. now rewrite get_set_other. Qed.

Lemma get_of_default d k dflt :
    In k (PyDict.keys d) -> PyDict.get d k = Some (PyDict.get_default d k dflt).
Proof.
    intros H. destruct (keys_get d k H) as [v Hv].
    unfold PyDict.get_default. now rewrite Hv.
Qed.

Lemma get_entry d k v :
    NoDup (PyDict.keys d) -> In (k, v) d -> PyDict.get d k = Some v.
Proof.
    induction d as [|[k' v'] r IH]; simpl; [tauto|].
    intros Hnd [Heq|Hin].
    - inversion Heq; subst. now rewrite String.eqb_refl.
    - inversion Hnd; subst.
      destruct (String.eqb_spec k' k) as [->|Hne].
      + exfalso. apply H1. change (In (fst (k, v)) (map fst r)).
        now apply in_map.
      + auto.
Qed.

Lemma length_keys d : List.length (PyDict.keys d) = List.length d.
Proof. apply length_map. Qed.
End DictFacts.

(** ** Loops *)

Lemma for_each_inv {A S : Type} (P : S -> Prop) (body : S -> A -> result S) :
  forall xs st st',
    (forall s x s', In x xs -> P s -> body s x = Ok s' -> P s') ->
    P st -> for_each body xs st = Ok st' -> P st'.
Proof.
  induction xs as [|x xs IH]; simpl; intros st st' Hstep HP Hrun.
  - inversion Hrun; subst. exact HP.
  - destruct (body st x) as [s1| |] eqn:E; simpl in Hrun; try discriminate.
    apply (IH s1 st'); eauto.
Qed.

Lemma bind_ok {A B : Type} (a : A) (k : A -> result B) : bind (Ok a) k = k a.
Proof. reflexivity. Qed.

Lemma for_each_cons {A S : Type} (body : S -> A -> result S) x xs st :
  for_each body (x :: xs) st = (st' <- body st x ;; for_each body xs st').
Proof. reflexivity. Qed.

Lemma relax_found inc q t v :
  PyDict.get inc t = Some v ->
  relax (inc, q) t
  = Ok (PyDict.set inc t (v - 1)%Z, if (v - 1 =? 0)%Z then q ++ [t] else q).
Proof. intros H. unfold relax, PyDict.lookup. now rewrite H. Qed.

Lemma for_each_app {A S : Type} (body : S -> A -> result S) xs ys st :
  for_each body (xs ++ ys) st = (st' <- for_each body xs st ;; for_each body ys st').
Proof.
  revert st. induction xs as [|x xs IH]; simpl; intros st; auto.
  destruct (body st x); simpl; auto.
Qed.

Lemma filter_map_ids (p : string -> bool) (nodes : list Node) :
  filter p (ids nodes) = map id (filter (fun nd => p (id nd)) nodes).
Proof.
  induction nodes as [|nd r IH]; simpl; auto.
  destruct (p (id nd)); simpl; now rewrite IH.
Qed.

Lemma mem_str_In x xs : mem_str x xs = true <-> In x xs.
Proof.
  unfold mem_str. rewrite existsb_exists. split.
  - intros [y [Hy He]]. apply String.eqb_eq in He. now subst.
  - intros H. exists x. split; auto. apply String.eqb_refl.
Qed.

Lemma mem_str_false x xs : mem_str x xs = false <-> ~ In x xs.
Proof.
  rewrite <- mem_str_In. destruct (mem_str x xs); split; congruence.
Qed.

Lemma mem_str_app x xs ys : mem_str x (xs ++ ys) = mem_str x xs || mem_str x ys.
Proof. unfold mem_str. apply existsb_app. Qed.

(** ** The initial dictionaries of the two sorts *)

Lemma fold_set_keys {V : Type} (v : V) : forall nodes (d : dict V),
  NoDup (PyDict.keys d ++ ids nodes) ->
  PyDict.keys (fold_left (fun d nd => PyDict.set d (id nd) v) nodes d)
  = PyDict.keys d ++ ids nodes.
Proof.
  induction nodes as [|nd r IH]; simpl; intros d Hnd.
  - now rewrite app_nil_r.
  - assert (Hni : ~ In (id nd) (PyDict.keys d)).
    { apply NoDup_remove_2 in Hnd. intros H. apply Hnd.
      apply in_or_app. now left. }
    rewrite IH; rewrite keys_set_absent by assumption.
    + now rewrite <- app_assoc.
    + now rewrite <- app_assoc.
Qed.

Lemma fold_set_in_keys {V : Type} (v : V) : forall nodes (d : dict V) k,
  In k (PyDict.keys (fold_left (fun d nd => PyDict.set d (id nd) v) nodes d))
  <-> In k (PyDict.keys d) \/ In k (ids nodes).
Proof.
  induction nodes as [|nd r IH]; simpl; intros d k.
  - tauto.
  - rewrite IH, in_keys_set. intuition congruence.
Qed.

Lemma fold_set_NoDup {V : Type} (v : V) : forall nodes (d : dict V),
  NoDup (PyDict.keys d) ->
  NoDup (PyDict.keys (fold_left (fun d nd => PyDict.set d (id nd) v) nodes d)).
Proof.
  induction nodes as [|nd r IH]; simpl; intros d Hnd; auto.
  apply IH. now apply NoDup_keys_set.
Qed.

Lemma fold_set_get {V : Type} (v : V) : forall nodes (d : dict V) k v0,
  (forall v1, PyDict.get d k = Some v1 -> v1 = v) ->
  PyDict.get (fold_left (fun d nd => PyDict.set d (id nd) v) nodes d) k = Some v0 ->
  v0 = v.
Proof.
  induction nodes as [|nd r IH]; simpl; intros d k v0 Hd Hg.
  - auto.
  - eapply IH; [|exact Hg]. intros v1 Hv1.
    destruct (string_dec (id nd) k) as [Heq|Hne].
    + rewrite Heq, get_set_same in Hv1. congruence.
    + rewrite get_set_other in Hv1 by assumption. auto.
Qed.

Lemma keys_dict_of_ids {V : Type} (v : V) nodes :
  NoDup (ids nodes) -> PyDict.keys (dict_of_ids nodes v) = ids nodes.
Proof. intros H. unfold dict_of_ids. now rewrite fold_set_keys. Qed.

Lemma in_keys_dict_of_ids {V : Type} (v : V) nodes k :
  In k (PyDict.keys (dict_of_ids nodes v)) <-> In k (ids nodes).
Proof. unfold dict_of_ids. rewrite fold_set_in_keys. simpl. tauto. Qed.

Lemma get_dict_of_ids {V : Type} (v : V) nodes k :
  In k (ids nodes) -> PyDict.get (dict_of_ids nodes v) k = Some v.
Proof.
  intros H. apply (in_keys_dict_of_ids v) in H.
  destruct (keys_get _ _ H) as [v0 Hv0]. rewrite Hv0. f_equal.
  eapply fold_set_get; [|exact Hv0]. simpl. discriminate.
Qed.

(** ** The two topological sorts agree *)

Lemma count_edge_shape V st e st' :
  count_edge st e = Ok st' ->
  inc_shape V (fst st) /\ inc_nonneg (fst st) ->
  inc_shape V (fst st') /\ inc_nonneg (fst st').
Proof.
  destruct st as [inc outs]. unfold count_edge.
  destruct (PyDict.lookup outs (source e)) as [l| |]; simpl; try discriminate.
  intros H; inversion H; subst; clear H. simpl.
  intros [[Hnd [extra [Hk Hpos]]] Hnn].
  assert (Hnew : (0 < PyDict.get_default inc (target e) 0 + 1)%Z).
  { unfold PyDict.get_default. destruct (PyDict.get inc (target e)) eqn:E.
    - apply Hnn in E. lia.
    - lia. }
  split; [split|].
  - now apply NoDup_keys_set.
  - destruct (in_dec string_dec (target e) (PyDict.keys inc)) as [Hin|Hn].
    + exists extra. rewrite keys_set_present by assumption. split; auto.
      intros k v Hin' Hg. destruct (string_dec (target e) k) as [<-|Hne].
      * rewrite get_set_same in Hg. inversion Hg; subst. exact Hnew.
      * rewrite get_set_other in Hg by assumption. eauto.
    + exists (extra ++ [target e]). rewrite keys_set_absent by assumption.
      rewrite Hk, app_assoc. split; auto.
      intros k v Hin' Hg. destruct (string_dec (target e) k) as [<-|Hne].
      * rewrite get_set_same in Hg. inversion Hg; subst. exact Hnew.
      * rewrite get_set_other in Hg by assumption.
        apply in_app_or in Hin'. destruct Hin' as [Hin'|[Heq|[]]]; eauto.
        congruence.
  - intros k v Hg. destruct (string_dec (target e) k) as [<-|Hne].
    + rewrite get_set_same in Hg. inversion Hg; subst. lia.
    + rewrite get_set_other in Hg by assumption. eauto.
Qed.

Lemma count_edges_shape nodes edges inc outs :
  NoDup (ids nodes) ->
  for_each count_edge edges (dict_of_ids nodes 0%Z, dict_of_ids nodes []) = Ok (inc, outs) ->
  inc_shape (ids nodes) inc /\ inc_nonneg inc.
Proof.
  intros Hnd Hrun.
  apply (for_each_inv (fun st => inc_shape (ids nodes) (fst st) /\ inc_nonneg (fst st))
           count_edge edges _ _) in Hrun; auto.
  - intros s x s' _ HP Hb. eapply count_edge_shape; eauto.
  - simpl. split; [split|].
    + rewrite keys_dict_of_ids by assumption. assumption.
    + exists []. rewrite keys_dict_of_ids, app_nil_r by assumption.
      split; [reflexivity | intros k v []].
    + intros k v Hg. assert (v = 0%Z); [|lia].
      eapply fold_set_get; [|exact Hg]. simpl. discriminate.
Qed.

Lemma zero_entries (inc : dict Z) : forall l : dict Z,
  (forall k v, In (k, v) l -> PyDict.get inc k = Some v) ->
  map fst (filter (fun kv => (snd kv =? 0)%Z) l)
  = filter (fun k => (PyDict.get_default inc k 0 =? 0)%Z) (PyDict.keys l).
Proof.
  induction l as [|[k v] r IH]; simpl; intros H; auto.
  unfold PyDict.get_default at 1. rewrite (H k v) by auto.
  destruct (v =? 0)%Z; simpl; rewrite IH; auto.
Qed.

Lemma initial_queue_agrees nodes (inc : dict Z) :
  inc_shape (ids nodes) inc ->
  map fst (filter (fun kv => (snd kv =? 0)%Z) inc)
  = map id (filter (fun nd => (PyDict.get_default inc (id nd) 0 =? 0)%Z) nodes).
Proof.
  intros [Hnd [extra [Hk Hpos]]].
  rewrite (zero_entries inc inc) by (intros; now apply get_entry).
  rewrite <- (filter_map_ids (fun k => (PyDict.get_default inc k 0 =? 0)%Z) nodes).
  rewrite Hk, filter_app.
  assert (Hex : forall l, incl l extra ->
            filter (fun k => (PyDict.get_default inc k 0 =? 0)%Z) l = []).
  { induction l as [|k l IHl]; intros Hincl; simpl; auto.
    assert (Hin : In k extra) by (apply Hincl; now left).
    assert (Hkin : In k (PyDict.keys inc)) by (rewrite Hk; apply in_or_app; auto).
    pose proof (Hpos k _ Hin (get_of_default inc k 0%Z Hkin)) as Hp.
    destruct (Z.eqb_spec (PyDict.get_default inc k 0%Z) 0%Z); [lia|].
    apply IHl. intros x Hx. apply Hincl. now right. }
  rewrite (Hex extra (incl_refl _)). now rewrite app_nil_r.
Qed.

Lemma loops_agree : forall fuel inc outs q out,
  Optimizer.topo_loop fuel inc outs q out = Server.sort_loop fuel inc outs q out.
Proof.
  induction fuel as [|f IH]; intros inc outs [|nid q] out; simpl; auto.
Qed.

(** ** Order of occurrence in a list *)

Lemma before_in_l s t l : before s t l -> In s l.
Proof.
  intros (l1 & l2 & l3 & ->). apply in_or_app. right. now left.
Qed.

Lemma before_in_r s t l : before s t l -> In t l.
Proof.
  intros (l1 & l2 & l3 & ->). apply in_or_app. right. right.
  apply in_or_app. right. now left.
Qed.

Lemma before_app_r s t l l' : before s t l -> before s t (l ++ l').
Proof.
  intros (l1 & l2 & l3 & ->). exists l1, l2, (l3 ++ l').
  now rewrite <- app_assoc, <- app_comm_cons, <- app_assoc, <- app_comm_cons.
Qed.

Lemma before_snoc s t l : In s l -> before s t (l ++ [t]).
Proof.
  intros H. apply in_split in H. destruct H as (l1 & l2 & ->).
  exists l1, l2, []. now rewrite <- app_assoc, <- app_comm_cons.
Qed.

Lemma NoDup_split_unique (x : string) : forall l1 l2 l1' l2',
  NoDup (l1 ++ x :: l2) -> l1 ++ x :: l2 = l1' ++ x :: l2' ->
  l1 = l1' /\ l2 = l2'.
Proof.
  induction l1 as [|a l1 IH]; intros l2 l1' l2' Hnd Heq.
  - destruct l1' as [|b l1']; simpl in *.
    + injection Heq as Heq. auto.
    + injection Heq as Hb Heq. subst b.
      apply NoDup_cons_iff in Hnd. destruct Hnd as [Hni _].
      exfalso. apply Hni. rewrite Heq. apply in_or_app. right. now left.
  - destruct l1' as [|b l1']; simpl in *.
    + injection Heq as Hb Heq. subst a.
      apply NoDup_cons_iff in Hnd. destruct Hnd as [Hni _].
      exfalso. apply Hni. apply in_or_app. right. now left.
    + injection Heq as Hb Heq. subst b.
      apply NoDup_cons_iff in Hnd. destruct Hnd as [_ Hnd].
      destruct (IH _ _ _ Hnd Heq). subst. auto.
Qed.

Lemma before_trans s t u l :
  NoDup l -> before s t l -> before t u l -> before s u l.
Proof.
  intros Hnd (a1 & a2 & a3 & Ha) (b1 & b2 & b3 & Hb).
  assert (Ha' : l = (a1 ++ s :: a2) ++ t :: a3).
  { rewrite Ha. now rewrite <- app_assoc, <- app_comm_cons. }
  rewrite Ha' in Hnd.
  assert (Heq : (a1 ++ s :: a2) ++ t :: a3 = b1 ++ t :: (b2 ++ u :: b3))
    by congruence.
  destruct (NoDup_split_unique t _ _ _ _ Hnd Heq) as [_ H3].
  exists a1, (a2 ++ t :: b2), b3.
  rewrite Ha, H3. now rewrite <- app_assoc, <- app_comm_cons.
Qed.

Lemma before_irrefl x l : NoDup l -> ~ before x x l.
Proof.
  intros Hnd (l1 & l2 & l3 & ->).
  apply NoDup_remove_2 in Hnd. apply Hnd.
  apply in_or_app. right. apply in_or_app. right. now left.
Qed.

(** ** Walks and chains *)

Lemma chain_app_l E : forall l1 l2, chain E (l1 ++ l2) -> chain E l1.
Proof.
  induction l1 as [|x l1 IH]; intros l2 H; simpl; auto.
  destruct l1 as [|y l1]; simpl in *; auto.
  destruct H as [He Hc]. split; auto. apply (IH l2). exact Hc.
Qed.

Lemma chain_app_r E : forall l1 l2, chain E (l1 ++ l2) -> chain E l2.
Proof.
  induction l1 as [|x l1 IH]; intros l2 H; simpl in *; auto.
  apply IH. destruct (l1 ++ l2) eqn:E1; simpl; auto. tauto.
Qed.

Lemma chain_walk E : forall l a b, chain E (a :: l ++ [b]) -> walk E a b.
Proof.
  induction l as [|x l IH]; intros a b H; simpl in H.
  - apply walk_edge. tauto.
  - destruct H as [He Hc]. eapply walk_step; eauto.
Qed.

Lemma walk_of_rank E (rank : string -> nat) :
  (forall e, In e E -> rank (source e) < rank (target e)) -> acyclic E.
Proof.
  intros Hr.
  assert (H : forall s t, walk E s t -> rank s < rank t).
  { induction 1 as [s t He | s m t He _ IH].
    - apply (Hr _ He).
    - pose proof (Hr _ He). simpl in *. lia. }
  intros x Hx. apply H in Hx. lia.
Qed.

(** A set of nodes in which everybody has a predecessor holds a cycle. *)
Lemma cycle_of_no_source E (V : list string) (U : string -> Prop) :
  (forall t, U t -> In t V) ->
  (forall t, U t -> exists s, U s /\ In (mkEdge s t) E) ->
  forall t, U t -> has_cycle E.
Proof.
  intros HUV Hpred t Ht.
  assert (Hch : forall k, exists h l,
             List.length l = k /\ U h /\ Forall U l /\ chain E (h :: l)).
  { induction k as [|k IH].
    - exists t, []. simpl. auto.
    - destruct IH as (h & l & Hlen & Hh & Hl & Hc).
      destruct (Hpred h Hh) as (s & Hs & He).
      exists s, (h :: l). simpl. repeat split; auto. }
  destruct (Hch (List.length V)) as (h & l & Hlen & Hh & Hl & Hc).
  assert (Hincl : incl (h :: l) V).
  { intros x [<-|Hx]; auto. apply HUV. rewrite Forall_forall in Hl. auto. }
  assert (Hdup : ~ NoDup (h :: l)).
  { intros Hnd. apply NoDup_incl_length with (l' := V) in Hnd; auto.
    simpl in Hnd. lia. }
  apply not_NoDup in Hdup.
  - destruct Hdup as (a & l1 & l2 & l3 & Heq). exists a.
    rewrite Heq in Hc. apply chain_app_r in Hc.
    change (a :: l2 ++ a :: l3) with ((a :: l2) ++ a :: l3) in Hc.
    replace ((a :: l2) ++ a :: l3) with ((a :: l2 ++ [a]) ++ l3) in Hc.
    + apply chain_app_l in Hc. now apply chain_walk in Hc.
    + simpl. now rewrite <- app_assoc.
  - intros x y. destruct (string_dec x y); [left|right]; assumption.
Qed.

(** ** Counting edges *)

Lemma remaining_zero_source E out t e :
  remaining E out t = 0 -> In e E -> target e = t -> In (source e) out.
Proof.
  unfold remaining. intros H He Ht.
  apply length_zero_iff_nil in H.
  destruct (mem_str (source e) out) eqn:M; [now apply mem_str_In|].
  assert (Hin : In e (filter (fun e => (target e =? t) && negb (mem_str (source e) out)) E)).
  { apply filter_In. split; auto. rewrite M, Ht, String.eqb_refl. reflexivity. }
  rewrite H in Hin. destruct Hin.
Qed.

Lemma remaining_pos_source E out t :
  remaining E out t <> 0 ->
  exists e, In e E /\ target e = t /\ ~ In (source e) out.
Proof.
  unfold remaining. intros H.
  destruct (filter _ E) as [|e l] eqn:F; [simpl in H; congruence|].
  assert (Hin : In e (e :: l)) by now left.
  rewrite <- F in Hin. apply filter_In in Hin. destruct Hin as [He Hp].
  apply andb_true_iff in Hp. destruct Hp as [H1 H2].
  exists e. repeat split; auto.
  - now apply String.eqb_eq.
  - apply mem_str_false. now destruct (mem_str (source e) out).
Qed.

Lemma remaining_split E out cur t :
  ~ In cur out ->
  remaining E out t
  = remaining E (out ++ [cur]) t + count_occ string_dec (succs E cur) t.
Proof.
  intros Hn. unfold remaining, succs.
  induction E as [|e E IH]; simpl; auto.
  rewrite mem_str_app.
  replace (mem_str (source e) [cur]) with (source e =? cur)
    by (unfold mem_str; simpl; now rewrite orb_false_r).
  destruct (String.eqb_spec (source e) cur) as [Hs|Hs].
  - assert (M : mem_str (source e) out = false)
      by (apply mem_str_false; now rewrite Hs).
    rewrite M. simpl. rewrite andb_false_r.
    destruct (String.eqb_spec (target e) t) as [Ht|Ht]; simpl;
      destruct (string_dec (target e) t); try congruence; simpl; lia.
  - rewrite orb_false_r.
    destruct ((target e =? t) && negb (mem_str (source e) out)); simpl; lia.
Qed.

Lemma remaining_nil E t : remaining E [] t = indeg E t.
Proof.
  unfold remaining, indeg. f_equal. apply filter_ext.
  intros e. simpl. now rewrite andb_true_r.
Qed.

Lemma count_edges_spec : forall edges inc0 outs0,
  (forall e, In e edges -> In (source e) (PyDict.keys outs0)) ->
  exists inc outs,
    for_each count_edge edges (inc0, outs0) = Ok (inc, outs) /\
    (forall t, PyDict.get_default inc t 0%Z
               = (PyDict.get_default inc0 t 0 + Z.of_nat (indeg edges t))%Z) /\
    (forall s, PyDict.get_default outs s []
               = PyDict.get_default outs0 s [] ++ succs edges s).
Proof.
  induction edges as [|e r IH]; intros inc0 outs0 Hsrc.
  - exists inc0, outs0. simpl. repeat split; intros.
    + unfold indeg. simpl. lia.
    + unfold succs. simpl. now rewrite app_nil_r.
  - simpl. unfold count_edge at 1, PyDict.lookup.
    assert (Hin : In (source e) (PyDict.keys outs0)) by (apply Hsrc; now left).
    rewrite (get_of_default outs0 (source e) [] Hin). simpl.
    set (inc1 := PyDict.set inc0 (target e) _).
    set (outs1 := PyDict.set outs0 (source e) _).
    destruct (IH inc1 outs1) as (inc & outs & Hrun & Hinc & Houts).
    { intros e' He'. apply in_keys_set. right. apply Hsrc. now right. }
    exists inc, outs. split; [exact Hrun|]. split.
    + intros t. rewrite Hinc. unfold inc1, indeg. simpl.
      destruct (String.eqb_spec (target e) t) as [<-|Hne].
      * rewrite get_default_set_same. simpl List.length. lia.
      * rewrite get_default_set_other by assumption. lia.
    + intros s. rewrite Houts. unfold outs1, succs. simpl.
      destruct (String.eqb_spec (source e) s) as [<-|Hne].
      * rewrite get_default_set_same. simpl. now rewrite <- app_assoc.
      * now rewrite get_default_set_other by assumption.
Qed.

(** ** Kahn's loop on a well-formed graph *)

Section Kahn.
Variable V : list string.
Variable E : list Edge.
Variable outs : dict (list string).
Variable q0 : list string.
Hypothesis E_in_V : forall e, In e E -> In (source e) V /\ In (target e) V.
Hypothesis outs_spec : forall s, PyDict.get_default outs s [] = succs E s.

Lemma succs_in_V s : incl (succs E s) V.
Proof.
  intros t Ht. unfold succs in Ht. apply in_map_iff in Ht.
  destruct Ht as (e & <- & He). apply filter_In in He.
  apply E_in_V. tauto.
Qed.

Lemma relax_all out : forall todo inc q,
  incl todo V ->
  kahn_inner V E q0 out todo inc q ->
  exists inc' q',
    for_each relax todo (inc, q) = Ok (inc', q') /\
    kahn_inner V E q0 out [] inc' q'.
Proof.
  induction todo as [|t todo IH]; intros inc q Hincl Hinv.
  - exists inc, q. split; [reflexivity | exact Hinv].
  - destruct Hinv as (Hnd & Hsub & Hget & Hzero & Hbef & Hpre).
    assert (HtV : In t V) by (apply Hincl; now left).
    assert (Hincl' : incl todo V) by (intros x Hx; apply Hincl; now right).
    pose proof (Hget t HtV) as Hgt.
    assert (Hnotin : ~ In t (out ++ q)).
    { intros Hin. apply (proj2 (Hzero t HtV)) in Hin. simpl in Hin.
      destruct (string_dec t t); [lia | congruence]. }
    assert (Hcnt : forall t', count_occ string_dec (t :: todo) t'
                   = (if string_dec t t' then 1 else 0) + count_occ string_dec todo t').
    { intros t'. simpl. destruct (string_dec t t'); lia. }
    rewrite for_each_cons, (relax_found _ _ _ _ Hgt), bind_ok.
    set (v1 := (Z.of_nat (remaining E out t + count_occ string_dec (t :: todo) t) - 1)%Z).
    assert (Hv1 : v1 = Z.of_nat (remaining E out t + count_occ string_dec todo t)).
    { unfold v1. rewrite Hcnt. destruct (string_dec t t); [lia | congruence]. }
    assert (Hget' : forall t', In t' V ->
              PyDict.get (PyDict.set inc t v1) t'
              = Some (Z.of_nat (remaining E out t' + count_occ string_dec todo t'))).
    { intros t' Ht'. destruct (string_dec t t') as [<-|Hne].
      - rewrite get_set_same. now rewrite Hv1.
      - rewrite get_set_other by assumption. rewrite (Hget t' Ht'), Hcnt.
        destruct (string_dec t t'); [congruence|]. reflexivity. }
    destruct (Z.eqb_spec v1 0) as [Hz|Hnz].
    + apply (IH (PyDict.set inc t v1) (q ++ [t]) Hincl').
      assert (Hrem : remaining E out t = 0) by lia.
      unfold kahn_inner. rewrite app_assoc.
      repeat split.
      * apply NoDup_app; auto.
        -- repeat constructor. intros [].
        -- intros x Hx [<-|[]]. auto.
      * intros x Hx. apply in_app_or in Hx. destruct Hx as [Hx|[<-|[]]]; auto.
      * exact Hget'.
      * intros H0. destruct (string_dec t t0) as [<-|Hne].
        -- apply in_or_app. right. now left.
        -- apply in_or_app. left. apply (proj1 (Hzero t0 H)). rewrite Hcnt.
           destruct (string_dec t t0); [congruence | exact H0].
      * intros Hin. destruct (string_dec t t0) as [<-|Hne]; [lia|].
        apply in_app_or in Hin. destruct Hin as [Hin|[Heq|[]]]; [|congruence].
        apply (proj2 (Hzero t0 H)) in Hin. rewrite Hcnt in Hin.
        destruct (string_dec t t0); [congruence | exact Hin].
      * intros e He Hin. apply in_app_or in Hin. destruct Hin as [Hin|[Heq|[]]].
        -- apply before_app_r. auto.
        -- rewrite Heq. apply before_snoc.
           assert (Hs : In (source e) out)
             by (apply (remaining_zero_source E out t e); auto).
           apply in_or_app. now left.
      * destruct Hpre as [rest Hrest]. exists (rest ++ [t]).
        now rewrite Hrest, app_assoc.
    + apply (IH (PyDict.set inc t v1) q Hincl').
      unfold kahn_inner. repeat split; auto.
      * intros H0. destruct (string_dec t t0) as [<-|Hne]; [lia|].
        apply (proj1 (Hzero t0 H)). rewrite Hcnt.
        destruct (string_dec t t0); [congruence | exact H0].
      * intros Hin. destruct (string_dec t t0) as [<-|Hne]; [tauto|].
        apply (proj2 (Hzero t0 H)) in Hin. rewrite Hcnt in Hin.
        destruct (string_dec t t0); [congruence | exact Hin].
Qed.

Lemma kahn_pop inc cur q out :
  kahn_inv V E q0 inc (cur :: q) out ->
  kahn_inner V E q0 (out ++ [cur]) (succs E cur) inc q.
Proof.
  intros (Hnd & Hsub & Hget & Hzero & Hbef & Hpre).
  assert (Hcur : ~ In cur out).
  { apply NoDup_remove_2 in Hnd. intros H. apply Hnd. apply in_or_app. now left. }
  assert (Heq : (out ++ [cur]) ++ q = out ++ cur :: q)
    by now rewrite <- app_assoc.
  unfold kahn_inner. rewrite Heq.
  repeat split; auto.
  - intros t Ht. rewrite (Hget t Ht). simpl. rewrite Nat.add_0_r.
    now rewrite (remaining_split E out cur t Hcur).
  - intros H0. apply (proj1 (Hzero t H)). simpl. rewrite Nat.add_0_r.
    now rewrite (remaining_split E out cur t Hcur).
  - intros Hin. apply (proj2 (Hzero t H)) in Hin. simpl in Hin. rewrite Nat.add_0_r in Hin.
    now rewrite (remaining_split E out cur t Hcur) in Hin.
Qed.

Lemma kahn_loop_ok : forall fuel inc q out,
  kahn_inv V E q0 inc q out ->
  List.length V <= fuel + List.length out ->
  exists out' inc',
    Server.sort_loop fuel inc outs q out = Ok out' /\
    kahn_inv V E q0 inc' [] out'.
Proof.
  induction fuel as [|fuel IH]; intros inc q out Hinv Hfuel.
  - destruct q as [|cur q].
    + exists out, inc. split; [reflexivity | exact Hinv].
    + exfalso. destruct Hinv as (Hnd & Hsub & _).
      apply NoDup_incl_length in Hsub; auto.
      rewrite length_app in Hsub. simpl in *. lia.
  - destruct q as [|cur q].
    + exists out, inc. split; [reflexivity | exact Hinv].
    + simpl. rewrite outs_spec.
      destruct (relax_all (out ++ [cur]) (succs E cur) inc q
                  (succs_in_V cur) (kahn_pop _ _ _ _ Hinv))
        as (inc' & q' & Hrun & Hinv').
      rewrite Hrun. simpl. apply (IH inc' q' (out ++ [cur]) Hinv').
      rewrite length_app. simpl. lia.
Qed.

(** What the invariant says once the queue is empty. *)
Lemma kahn_final_edges inc out :
  kahn_inv V E q0 inc [] out ->
  NoDup out /\ incl out V /\
  (forall e, In e E -> In (target e) out -> before (source e) (target e) out) /\
  (forall t, In t V -> ~ In t out ->
     exists s, (In s V /\ ~ In s out) /\ In (mkEdge s t) E) /\
  (exists rest, out = q0 ++ rest).
Proof.
  intros (Hnd & Hsub & Hget & Hzero & Hbef & Hpre).
  rewrite app_nil_r in *. repeat split; auto.
  intros t Ht Hn.
  assert (Hr : remaining E out t <> 0).
  { intros H0. apply Hn. apply (proj1 (Hzero t Ht)). simpl. lia. }
  apply remaining_pos_source in Hr. destruct Hr as (e & He & Het & Hes).
  exists (source e). repeat split; auto.
  - now apply E_in_V.
  - rewrite <- Het. now destruct e.
Qed.

Lemma walk_before out :
  NoDup out ->
  (forall e, In e E -> In (target e) out -> before (source e) (target e) out) ->
  forall s t, walk E s t -> In t out -> before s t out.
Proof.
  intros Hnd Hbef s t Hw. induction Hw as [s t He | s m t He _ IH]; intros Hin.
  - apply (Hbef _ He Hin).
  - pose proof (IH Hin) as Hmt.
    apply before_trans with (t := m); auto.
    apply (Hbef _ He). simpl. eapply before_in_l; eauto.
Qed.

Lemma kahn_complete_of_acyclic inc out :
  kahn_inv V E q0 inc [] out -> acyclic E -> incl V out.
Proof.
  intros Hinv Hac t Ht.
  destruct (in_dec string_dec t out) as [|Hn]; auto.
  exfalso.
  destruct (kahn_final_edges _ _ Hinv) as (_ & _ & _ & Hpred & _).
  destruct (cycle_of_no_source E V (fun x => In x V /\ ~ In x out)) with (t := t)
    as [x Hx]; auto.
  - tauto.
  - intros t' [H1 H2]. apply Hpred; auto.
  - apply (Hac x Hx).
Qed.

Lemma kahn_short_of_cycle inc out :
  kahn_inv V E q0 inc [] out -> has_cycle E ->
  List.length out <> List.length V.
Proof.
  intros Hinv [x Hx] Hlen.
  destruct (kahn_final_edges _ _ Hinv) as (Hnd & Hsub & Hbef & _ & _).
  assert (HxV : In x V).
  { inversion Hx; subst; apply (E_in_V _ H). }
  assert (Hin : In x out).
  { assert (Hall : incl V out)
      by (apply (@NoDup_length_incl _ out V Hnd); [lia | exact Hsub]).
    now apply Hall. }
  apply (before_irrefl x out Hnd).
  apply (walk_before out Hnd Hbef x x Hx Hin).
Qed.

End Kahn.

(** ** The server's sort on a well-formed graph *)

Lemma get_default_dict_of_ids {V : Type} (v : V) nodes k :
  PyDict.get_default (dict_of_ids nodes v) k v = v.
Proof.
  unfold PyDict.get_default.
  destruct (PyDict.get (dict_of_ids nodes v) k) eqn:G; auto.
  eapply fold_set_get; [|exact G]. simpl. discriminate.
Qed.

Lemma kahn_init V E (inc : dict Z) :
  NoDup V ->
  (forall t, In t V -> PyDict.get inc t = Some (Z.of_nat (indeg E t))) ->
  kahn_inv V E (sources_of V E) inc (sources_of V E) [].
Proof.
  intros Hnd Hget. unfold kahn_inv, kahn_inner, sources_of. simpl.
  repeat split.
  - now apply NoDup_filter.
  - apply incl_filter.
  - intros t Ht. now rewrite (Hget t Ht), remaining_nil, Nat.add_0_r.
  - intros H0. apply filter_In. split; auto.
    apply Nat.eqb_eq. rewrite remaining_nil in H0. lia.
  - intros Hin. apply filter_In in Hin. destruct Hin as [_ Hz].
    apply Nat.eqb_eq in Hz. rewrite remaining_nil. lia.
  - intros e He Hin. exfalso. apply filter_In in Hin. destruct Hin as [_ Hz].
    apply Nat.eqb_eq in Hz. rewrite <- remaining_nil in Hz.
    apply (remaining_zero_source E [] (target e) e Hz He eq_refl).
  - exists []. now rewrite app_nil_r.
Qed.

Lemma topo_sort_run nodes edges :
  graph_wf nodes edges ->
  exists out inc,
    kahn_inv (ids nodes) edges (sources_of (ids nodes) edges) inc [] out /\
    Server.topo_sort nodes edges
    = Ok (if (List.length out =? List.length nodes)%nat then out else ids nodes).
Proof.
  intros [Hnd Hwf].
  destruct (count_edges_spec edges (dict_of_ids nodes 0%Z) (dict_of_ids nodes []))
    as (inc & outs & Hrun & Hinc & Houts).
  { intros e He. apply in_keys_dict_of_ids. now apply Hwf. }
  destruct (count_edges_shape nodes edges inc outs Hnd Hrun)
    as [[_ [extra [Hkeys _]]] _].
  assert (Hget : forall t, In t (ids nodes) ->
            PyDict.get inc t = Some (Z.of_nat (indeg edges t))).
  { intros t Ht.
    assert (Hin : In t (PyDict.keys inc)) by (rewrite Hkeys; apply in_or_app; auto).
    rewrite (get_of_default inc t 0%Z Hin), Hinc, get_default_dict_of_ids.
    reflexivity. }
  assert (Hq : map id (filter (fun nd => (PyDict.get_default inc (id nd) 0 =? 0)%Z) nodes)
               = sources_of (ids nodes) edges).
  { rewrite <- (filter_map_ids (fun k => (PyDict.get_default inc k 0 =? 0)%Z)).
    unfold sources_of. apply filter_ext. intros k.
    rewrite Hinc, get_default_dict_of_ids.
    destruct (Nat.eqb_spec (indeg edges k) 0); destruct (Z.eqb_spec (0 + Z.of_nat (indeg edges k)) 0);
      auto; lia. }
  destruct (kahn_loop_ok (ids nodes) edges outs (sources_of (ids nodes) edges) Hwf)
    with (fuel := List.length (sources_of (ids nodes) edges) + List.length inc)
         (inc := inc) (q := sources_of (ids nodes) edges) (out := @nil string)
    as (out & inc' & Hloop & Hinv).
  { intros s. rewrite Houts, get_default_dict_of_ids. reflexivity. }
  { apply kahn_init; assumption. }
  { rewrite <- (length_keys inc), Hkeys, length_app. simpl. lia. }
  exists out, inc'. split; [exact Hinv|].
  unfold Server.topo_sort. rewrite Hrun, bind_ok. cbv zeta.
  rewrite Hq, Hloop, bind_ok.
  destruct (List.length out =? List.length nodes)%nat; reflexivity.
Qed.

Lemma dict_of_ids_ids {V : Type} (v : V) nodes :
  dict_of_ids nodes v
  = fold_left (fun d k => PyDict.set d k v) (ids nodes) PyDict.empty.
Proof.
  unfold dict_of_ids, ids. generalize (@PyDict.empty V).
  induction nodes as [|nd r IH]; simpl; intros d; auto.
Qed.

Lemma topo_sort_ids nodes nodes' edges :
  ids nodes' = ids nodes ->
  Server.topo_sort nodes' edges = Server.topo_sort nodes edges.
Proof.
  intros H. unfold Server.topo_sort.
  rewrite !(dict_of_ids_ids _ nodes'), !(dict_of_ids_ids _ nodes), H.
  destruct (for_each count_edge edges _) as [[inc outs]| |]; simpl; auto.
  rewrite <- !(filter_map_ids (fun k => (PyDict.get_default inc k 0 =? 0)%Z)), H.
  destruct (Server.sort_loop _ _ _ _ _); simpl; auto.
  rewrite <- (length_map id nodes'), <- (length_map id nodes).
  fold (ids nodes') (ids nodes). now rewrite H.
Qed.

Lemma topo_agree nodes edges :
  NoDup (ids nodes) ->
  Optimizer._topo nodes edges = Server.topo_sort nodes edges.
Proof.
  intros Hnd. unfold Optimizer._topo, Server.topo_sort.
  destruct (for_each count_edge edges _) as [[inc outs]| |] eqn:Hrun; simpl; auto.
  destruct (count_edges_shape nodes edges inc outs Hnd Hrun) as [Hshape _].
  rewrite (initial_queue_agrees nodes inc Hshape), loops_agree.
  destruct (Server.sort_loop _ _ _ _ _); simpl; auto.
  destruct (List.length a =? List.length nodes)%nat; reflexivity.
Qed.

(** ** The sorts always come to an end *)

Lemma count_pos_set : forall (d : dict Z) k v v',
  PyDict.get d k = Some v ->
  count_pos (PyDict.set d k v') + (if (0 <? v)%Z then 1 else 0)
  = count_pos d + (if (0 <? v')%Z then 1 else 0).
Proof.
  unfold count_pos.
  induction d as [|[k0 v0] r IH]; intros k v v' Hg; simpl in *; [discriminate|].
  destruct (String.eqb_spec k0 k) as [->|Hne].
  - injection Hg as ->. simpl. destruct (0 <? v)%Z; destruct (0 <? v')%Z; simpl; lia.
  - simpl. specialize (IH k v v' Hg).
    destruct (0 <? v0)%Z; simpl; lia.
Qed.

Lemma relax_measure st t st' :
  relax st t = Ok st' ->
  List.length (snd st') + count_pos (fst st') <= List.length (snd st) + count_pos (fst st).
Proof.
  destruct st as [inc q]. unfold relax, PyDict.lookup.
  destruct (PyDict.get inc t) as [v|] eqn:G; simpl; [|discriminate].
  intros H. injection H as <-. simpl.
  pose proof (count_pos_set inc t v (v - 1)%Z G) as Hc.
  destruct (Z.eqb_spec (v - 1) 0) as [Hz|Hz].
  - rewrite length_app. simpl.
    destruct (Z.ltb_spec 0 v); destruct (Z.ltb_spec 0 (v - 1)); lia.
  - destruct (Z.ltb_spec 0 v); destruct (Z.ltb_spec 0 (v - 1)); lia.
Qed.

Lemma relax_all_measure : forall ts st st',
  for_each relax ts st = Ok st' ->
  List.length (snd st') + count_pos (fst st') <= List.length (snd st) + count_pos (fst st).
Proof.
  induction ts as [|t ts IH]; intros st st' H; simpl in H.
  - injection H as <-. lia.
  - destruct (relax st t) as [s1| |] eqn:R; simpl in H; try discriminate.
    apply relax_measure in R. apply IH in H. lia.
Qed.

Lemma relax_all_ends : forall ts st, for_each relax ts st <> Diverge.
Proof.
  induction ts as [|t ts IH]; intros st; simpl; [discriminate|].
  destruct st as [inc q]. unfold relax at 1, PyDict.lookup.
  destruct (PyDict.get inc t); simpl; [apply IH | discriminate].
Qed.

Lemma count_edges_end : forall edges st, for_each count_edge edges st <> Diverge.
Proof.
  induction edges as [|e edges IH]; intros st; simpl; [discriminate|].
  destruct st as [inc outs]. unfold count_edge at 1, PyDict.lookup.
  destruct (PyDict.get outs (source e)); simpl; [apply IH | discriminate].
Qed.

Lemma sort_loop_ends outs : forall fuel inc q order,
  List.length q + count_pos inc <= fuel ->
  Server.sort_loop fuel inc outs q order <> Diverge.
Proof.
  induction fuel as [|fuel IH]; intros inc q order Hm.
  - destruct q; simpl in *; [discriminate | lia].
  - destruct q as [|cur q]; simpl; [discriminate|].
    destruct (for_each relax (PyDict.get_default outs cur []) (inc, q))
      as [[inc' q']| |] eqn:R; simpl.
    + apply IH. apply relax_all_measure in R. simpl in *. lia.
    + discriminate.
    + exfalso. eapply relax_all_ends; eauto.
Qed.

(** Every successor the loop can meet has a counter. *)
Lemma count_edges_targets edges : forall inc0 outs0 inc outs,
  for_each count_edge edges (inc0, outs0) = Ok (inc, outs) ->
  (forall s t, In t (PyDict.get_default outs0 s []) -> In t (PyDict.keys inc0)) ->
  forall s t, In t (PyDict.get_default outs s []) -> In t (PyDict.keys inc).
Proof.
  intros inc0 outs0 inc outs Hrun H0.
  apply (for_each_inv
           (fun st => forall s t, In t (PyDict.get_default (snd st) s [])
                                  -> In t (PyDict.keys (fst st)))
           count_edge edges (inc0, outs0) (inc, outs)); auto.
  intros [i o] e [i' o'] _ HP Hb. unfold count_edge, PyDict.lookup in Hb.
  destruct (PyDict.get o (source e)) as [l|] eqn:G; simpl in Hb; [|discriminate].
  injection Hb as <- <-. simpl in *. intros s t Ht.
  apply in_keys_set.
  destruct (string_dec (source e) s) as [<-|Hne].
  - rewrite get_default_set_same in Ht. apply in_app_or in Ht.
    destruct Ht as [Ht|[<-|[]]]; auto.
    right. apply (HP (source e)). unfold PyDict.get_default. now rewrite G.
  - rewrite get_default_set_other in Ht by assumption. right. eauto.
Qed.

Lemma relax_all_ok : forall ts inc q,
  incl ts (PyDict.keys inc) ->
  exists inc' q',
    for_each relax ts (inc, q) = Ok (inc', q') /\ PyDict.keys inc' = PyDict.keys inc.
Proof.
  induction ts as [|t ts IH]; intros inc q Hin.
  - exists inc, q. auto.
  - assert (Ht : In t (PyDict.keys inc)) by (apply Hin; now left).
    destruct (keys_get inc t Ht) as [v Hv].
    rewrite for_each_cons, (relax_found inc q t v Hv), bind_ok.
    assert (Hk : PyDict.keys (PyDict.set inc t (v - 1)%Z) = PyDict.keys inc)
      by now apply keys_set_present.
    destruct (IH (PyDict.set inc t (v - 1)%Z)
                 (if (v - 1 =? 0)%Z then q ++ [t] else q)) as (inc' & q' & Hrun & Hk').
    { rewrite Hk. intros x Hx. apply Hin. now right. }
    exists inc', q'. split; [exact Hrun | congruence].
Qed.

Lemma sort_loop_no_raise outs : forall fuel inc q order e,
  (forall s t, In t (PyDict.get_default outs s []) -> In t (PyDict.keys inc)) ->
  Server.sort_loop fuel inc outs q order <> Raise e.
Proof.
  induction fuel as [|fuel IH]; intros inc q order e HK.
  - destruct q; simpl; discriminate.
  - destruct q as [|cur q]; simpl; [discriminate|].
    destruct (relax_all_ok (PyDict.get_default outs cur []) inc q)
      as (inc' & q' & Hrun & Hk).
    { intros t Ht. eapply HK; eauto. }
    rewrite Hrun, bind_ok. apply IH. intros s t Ht. rewrite Hk. eauto.
Qed.

(** Whatever the node and edge lists are, both sorts answer with a list or
    a raised [KeyError]: the fuel handed to the loop is never used up. *)
Lemma topo_sorts_end nodes edges :
  Server.topo_sort nodes edges <> Diverge /\ Optimizer._topo nodes edges <> Diverge.
Proof.
  assert (Hpos : forall inc : dict Z, count_pos inc <= List.length inc)
    by (intros inc; apply filter_length_le).
  split.
  - unfold Server.topo_sort.
    destruct (for_each count_edge edges _) as [[inc outs]| |] eqn:C; simpl;
      [|discriminate | exfalso; eapply count_edges_end; eauto].
    match goal with |- context [Server.sort_loop ?f ?i ?o ?q ?r] =>
      pose proof (sort_loop_ends o f i q r) as Hend;
      destruct (Server.sort_loop f i o q r) eqn:L end; simpl.
    + destruct (negb _); discriminate.
    + discriminate.
    + exfalso. apply Hend; auto. specialize (Hpos inc). lia.
  - unfold Optimizer._topo.
    destruct (for_each count_edge edges _) as [[inc outs]| |] eqn:C; simpl;
      [|discriminate | exfalso; eapply count_edges_end; eauto].
    rewrite loops_agree.
    match goal with |- context [Server.sort_loop ?f ?i ?o ?q ?r] =>
      pose proof (sort_loop_ends o f i q r) as Hend;
      destruct (Server.sort_loop f i o q r) eqn:L end; simpl.
    + discriminate.
    + discriminate.
    + exfalso. apply Hend; auto. specialize (Hpos inc). lia.
Qed.

(** ** Topological order: the claims *)

(** C3. On a well-formed acyclic graph both sorts return one order, a
    permutation of the node ids in which the source of every edge stands
    before its target, and which starts with the in-degree-zero nodes in the
    caller's order (the FIFO seed). On a well-formed graph with a cycle both
    return the caller's node order unchanged, and neither raises. The answer
    depends on the nodes only through their id sequence. *)
Theorem topological_order_correct nodes edges :
  graph_wf nodes edges ->
  (acyclic edges ->
     exists order,
       Server.topo_sort nodes edges = Ok order /\
       Optimizer._topo nodes edges = Ok order /\
       Permutation order (ids nodes) /\
       (forall e, In e edges -> before (source e) (target e) order) /\
       (exists rest, order = sources_of (ids nodes) edges ++ rest)) /\
  (has_cycle edges ->
     Server.topo_sort nodes edges = Ok (ids nodes) /\
     Optimizer._topo nodes edges = Ok (ids nodes)) /\
  (forall nodes', ids nodes' = ids nodes ->
     Server.topo_sort nodes' edges = Server.topo_sort nodes edges /\
     Optimizer._topo nodes' edges = Optimizer._topo nodes edges).
Proof.
  intros Hwf. pose proof Hwf as [Hnd Hin].
  destruct (topo_sort_run nodes edges Hwf) as (out & inc & Hinv & Hres).
  destruct (kahn_final_edges _ _ _ Hin _ _ Hinv) as (Hndo & Hsub & Hbef & _ & Hpre).
  split; [|split].
  - intros Hac.
    pose proof (kahn_complete_of_acyclic _ _ _ Hin _ _ Hinv Hac) as Hall.
    assert (Hlen : List.length out = List.length nodes).
    { rewrite <- (length_map id nodes). fold (ids nodes).
      apply Nat.le_antisymm; apply NoDup_incl_length; auto. }
    rewrite Hlen, Nat.eqb_refl in Hres.
    exists out. repeat split; auto.
    + now rewrite topo_agree.
    + apply NoDup_Permutation; auto. intros x. split; auto.
    + intros e He. apply Hbef; auto. apply Hall. now apply Hin.
  - intros Hcyc.
    pose proof (kahn_short_of_cycle _ _ _ Hin _ _ Hinv Hcyc) as Hlen.
    unfold ids in Hlen. rewrite length_map in Hlen.
    apply Nat.eqb_neq in Hlen. rewrite Hlen in Hres.
    split; auto. now rewrite topo_agree.
  - intros nodes' Hids. split.
    + now apply topo_sort_ids.
    + rewrite !topo_agree; [now apply topo_sort_ids | assumption | now rewrite Hids].
Qed.

Lemma line_graph_wf : graph_wf line_nodes line_edges.
Proof.
  split.
  - repeat constructor; simpl; intuition discriminate.
  - intros e He. simpl in He.
    repeat (destruct He as [<-|He]; [simpl; auto 6|]). destruct He.
Defined.

Lemma line_graph_acyclic : acyclic line_edges.
Proof.
  apply (walk_of_rank line_edges line_rank).
  intros e He. simpl in He.
  repeat (destruct He as [<-|He]; [vm_compute; lia|]). destruct He.
Defined.

Lemma topological_order_correct_witness :
  graph_wf line_nodes line_edges /\ acyclic line_edges /\
  exists order,
    Server.topo_sort line_nodes line_edges = Ok order /\
    Optimizer._topo line_nodes line_edges = Ok order /\
    Permutation order (ids line_nodes) /\
    (forall e, In e line_edges -> before (source e) (target e) order) /\
    (exists rest, order = sources_of (ids line_nodes) line_edges ++ rest).
Proof.
  split; [exact line_graph_wf|]. split; [exact line_graph_acyclic|].
  exact (proj1 (topological_order_correct line_nodes line_edges line_graph_wf)
               line_graph_acyclic).
Defined.

Example topo_sort_line :
  Server.topo_sort line_nodes line_edges = Ok ["a"; "b"; "c"].
Proof. reflexivity. Qed.

Example topo_sort_loop :
  Server.topo_sort line_nodes loop_edges = Ok ["c"; "a"; "b"].
Proof. reflexivity. Qed.

(** C10, as the code has it: whenever node ids are pairwise distinct the two
    sorts return the same result, whatever the edges are: the same sequence
    of node ids, or the same raised [KeyError] when an edge starts at an
    unknown node; and both do return. *)
Theorem topo_implementations_agree nodes edges :
  NoDup (ids nodes) ->
  Optimizer._topo nodes edges = Server.topo_sort nodes edges /\
  Server.topo_sort nodes edges <> Diverge /\
  ((forall e, In e edges -> In (source e) (ids nodes)) ->
     exists order, Server.topo_sort nodes edges = Ok order).
Proof.
  intros Hnd. split; [now apply topo_agree|].
  split; [apply topo_sorts_end|].
  intros Hsrc.
  destruct (count_edges_spec edges (dict_of_ids nodes 0%Z) (dict_of_ids nodes []))
    as (inc & outs & Hrun & _ & _).
  { intros e He. apply in_keys_dict_of_ids. now apply Hsrc. }
  pose proof (proj1 (topo_sorts_end nodes edges)) as Hend.
  unfold Server.topo_sort in *. rewrite Hrun, bind_ok in *. cbv zeta in *.
  destruct (Server.sort_loop _ _ _ _ _) as [order| |] eqn:L; simpl in *.
  - destruct (negb _); eauto.
  - exfalso.
    (* the loop itself raises only through [inc[t]], and every [t] it meets
       is the target of a counted edge *)
    eapply (sort_loop_no_raise outs); [|exact L].
    apply (count_edges_targets edges _ _ inc outs Hrun).
    intros s t. rewrite get_default_dict_of_ids. intros [].
  - congruence.
Qed.

Lemma topo_implementations_agree_witness :
  NoDup (ids line_nodes) /\
  Optimizer._topo line_nodes loop_edges = Server.topo_sort line_nodes loop_edges.
Proof.
  assert (H : NoDup (ids line_nodes))
    by (repeat constructor; simpl; intuition discriminate).
  split; [exact H|].
  exact (proj1 (topo_implementations_agree line_nodes loop_edges H)).
Defined.

(** C10 as stated fails: with a repeated id the optimizer seeds its queue
    from the dictionary's keys and falls back to the caller's order, while
    the server seeds it once per node and returns a sorted list. *)
Lemma topo_implementations_differ :
  Optimizer._topo twin_nodes twin_edges = Ok ["b"; "a"; "a"] /\
  Server.topo_sort twin_nodes twin_edges = Ok ["a"; "a"; "b"] /\
  ~ (forall nodes edges,
       Optimizer._topo nodes edges = Server.topo_sort nodes edges).
Proof.
  split; [reflexivity|]. split; [reflexivity|].
  intros H. specialize (H twin_nodes twin_edges). vm_compute in H. discriminate.
Qed.

(** ** Dead-node pruning *)

Lemma mem_str_cons x y xs : mem_str x (y :: xs) = (x =? y) || mem_str x xs.
Proof. reflexivity. Qed.

Lemma preds_of_In E t s : In s (preds_of E t) <-> In (mkEdge s t) E.
Proof.
  unfold preds_of. rewrite in_map_iff. split.
  - intros (e & <- & He). apply filter_In in He. destruct He as [He Ht].
    apply String.eqb_eq in Ht. subst t. now destruct e.
  - intros H. exists (mkEdge s t). split; auto.
    apply filter_In. split; auto. apply String.eqb_refl.
Qed.

Lemma unkept_split E keep cur :
  ~ In cur keep ->
  unkept E keep = unkept E (cur :: keep) + List.length (preds_of E cur).
Proof.
  intros Hn. unfold unkept, preds_of. rewrite length_map.
  induction E as [|e E IH]; simpl; auto.
  rewrite mem_str_cons.
  destruct (String.eqb_spec (target e) cur) as [Ht|Ht].
  - assert (M : mem_str (target e) keep = false)
      by (apply mem_str_false; now rewrite Ht).
    rewrite M. simpl. lia.
  - simpl. destruct (mem_str (target e) keep); simpl; lia.
Qed.

Lemma build_preds_spec : forall E (p : dict (list string)) t,
  PyDict.get_default
    (fold_left (fun p e =>
       PyDict.set p (target e) (PyDict.get_default p (target e) [] ++ [source e]))
       E p) t []
  = PyDict.get_default p t [] ++ preds_of E t.
Proof.
  induction E as [|e E IH]; intros p t; simpl.
  - unfold preds_of. simpl. now rewrite app_nil_r.
  - rewrite IH. unfold preds_of. simpl.
    destruct (String.eqb_spec (target e) t) as [<-|Hne].
    + rewrite get_default_set_same. simpl. now rewrite <- app_assoc.
    + now rewrite get_default_set_other by assumption.
Qed.

Lemma add_preds_spec : forall E (p0 : dict (list string)),
  (forall e, In e E -> In (target e) (PyDict.keys p0)) ->
  exists p, for_each Server.add_pred E p0 = Ok p /\
    forall t, PyDict.get_default p t []
              = PyDict.get_default p0 t [] ++ preds_of E t.
Proof.
  induction E as [|e E IH]; intros p0 Hk.
  - exists p0. split; [reflexivity|]. intros t. unfold preds_of. simpl.
    now rewrite app_nil_r.
  - rewrite for_each_cons. unfold Server.add_pred at 1, PyDict.lookup.
    assert (Hin : In (target e) (PyDict.keys p0)) by (apply Hk; now left).
    rewrite (get_of_default p0 (target e) [] Hin). rewrite !bind_ok.
    set (p1 := PyDict.set p0 (target e) _).
    destruct (IH p1) as (p & Hrun & Hp).
    { intros e' He'. apply in_keys_set. right. apply Hk. now right. }
    exists p. split; [exact Hrun|].
    intros t. rewrite Hp. unfold p1, preds_of. simpl.
    destruct (String.eqb_spec (target e) t) as [<-|Hne].
    + rewrite get_default_set_same. simpl. now rewrite <- app_assoc.
    + now rewrite get_default_set_other by assumption.
Qed.

Section Reach.
Variable E : list Edge.
Variable tid : string.
Variable preds : dict (list string).
Hypothesis preds_spec : forall t, PyDict.get_default preds t [] = preds_of E t.

Lemma ancestor_pred s x :
  ancestor E tid x -> In (mkEdge s x) E -> ancestor E tid s.
Proof.
  intros [->|Hw] He; right.
  - now apply walk_edge.
  - eapply walk_step; eauto.
Qed.

Lemma reach_loop_ok : forall fuel keep stack,
  reach_inv E tid keep stack ->
  List.length stack + unkept E keep <= fuel ->
  exists keep',
    Optimizer.reach_loop fuel preds keep stack = Ok keep' /\
    reach_inv E tid keep' [].
Proof.
  induction fuel as [|fuel IH]; intros keep stack Hinv Hfuel.
  - destruct stack as [|cur st]; [|simpl in Hfuel; lia].
    exists keep. split; [reflexivity | exact Hinv].
  - destruct stack as [|cur st].
    + exists keep. split; [reflexivity | exact Hinv].
    + destruct Hinv as (Hanc & Htid & Hclosed). simpl.
      destruct (mem_str cur keep) eqn:M.
      * apply mem_str_In in M. apply IH; [|simpl in Hfuel; lia].
        repeat split.
        -- intros x Hx. apply Hanc. apply in_app_or in Hx.
           apply in_or_app. destruct Hx; [left|right; right]; assumption.
        -- apply in_app_or in Htid. apply in_or_app.
           destruct Htid as [|[<-|]]; auto.
        -- intros e He Ht. specialize (Hclosed e He Ht).
           apply in_app_or in Hclosed. apply in_or_app.
           destruct Hclosed as [|[<-|]]; auto.
      * apply mem_str_false in M. rewrite preds_spec. apply IH.
        -- assert (Hcur : ancestor E tid cur).
           { apply Hanc. apply in_or_app. right. now left. }
           repeat split.
           ++ intros x Hx. simpl in Hx. destruct Hx as [<-|Hx]; auto.
              apply in_app_or in Hx. destruct Hx as [Hx|Hx].
              ** apply Hanc. apply in_or_app. now left.
              ** apply in_app_or in Hx. destruct Hx as [Hx|Hx].
                 --- apply in_rev, preds_of_In in Hx.
                     now apply (ancestor_pred x cur).
                 --- apply Hanc. apply in_or_app. right. now right.
           ++ simpl. apply in_app_or in Htid. destruct Htid as [|[|]]; auto.
              ** right. apply in_or_app. now left.
              ** right. apply in_or_app. right. apply in_or_app. now right.
           ++ intros e He Ht. simpl in Ht. simpl. destruct Ht as [Ht|Ht].
              ** right. apply in_or_app. right. apply in_or_app. left.
                 apply -> in_rev. apply preds_of_In. rewrite Ht. now destruct e.
              ** specialize (Hclosed e He Ht). apply in_app_or in Hclosed.
                 destruct Hclosed as [|[|]]; auto.
                 --- right. apply in_or_app. now left.
                 --- right. apply in_or_app. right. apply in_or_app. now right.
        -- rewrite length_app, length_rev. simpl in Hfuel.
           rewrite (unkept_split E keep cur M) in Hfuel. lia.
Qed.

Lemma reach_inv_done keep :
  reach_inv E tid keep [] -> forall x, In x keep <-> ancestor E tid x.
Proof.
  intros (Hanc & Htid & Hclosed). rewrite app_nil_r in *.
  intros x. split; [apply Hanc|].
  intros [->|Hw]; auto.
  induction Hw as [s t He | s m t He _ IH].
  - apply (Hclosed _ He Htid).
  - apply (Hclosed _ He). simpl. auto.
Qed.

Lemma reach_from_target :
  exists keep,
    Optimizer.reach_loop (S (List.length E)) preds [] [tid] = Ok keep /\
    forall x, In x keep <-> ancestor E tid x.
Proof.
  destruct (reach_loop_ok (S (List.length E)) [] [tid]) as (keep & Hrun & Hinv).
  - repeat split.
    + intros x [<-|[]]. now left.
    + now left.
    + intros e _ [].
  - simpl. unfold unkept. pose proof (filter_length_le (fun e => negb (mem_str (target e) [])) E). lia.
  - exists keep. split; auto. now apply reach_inv_done.
Qed.

End Reach.

Lemma ancestor_in_nodes nodes edges tid x :
  edges_within nodes edges -> In tid (ids nodes) ->
  ancestor edges tid x -> In x (ids nodes).
Proof.
  intros Hw Ht [->|Hwalk]; auto.
  inversion Hwalk; subst; apply (Hw _ H).
Qed.

Lemma prune_dead_run nodes edges tid :
  nonempty tid = true ->
  exists keep,
    (forall x, In x keep <-> ancestor edges tid x) /\
    Optimizer.prune_dead nodes edges (Some tid)
    = Ok (filter (fun nd => mem_str (id nd) keep) nodes,
          filter (fun e => mem_str (source e) keep && mem_str (target e) keep) edges).
Proof.
  intros Hne.
  destruct (reach_from_target edges tid (Optimizer.build_preds edges))
    as (keep & Hrun & Hkeep).
  { intros t. unfold Optimizer.build_preds. now rewrite build_preds_spec. }
  exists keep. split; auto.
  unfold Optimizer.prune_dead. rewrite Hne. simpl negb. cbv iota.
  now rewrite Hrun, bind_ok.
Qed.

Lemma subgraph_up_to_run nodes edges tid :
  nonempty tid = true ->
  (forall e, In e edges -> In (target e) (ids nodes)) ->
  Server.subgraph_up_to nodes edges (Some tid)
  = Optimizer.prune_dead nodes edges (Some tid).
Proof.
  intros Hne Hw.
  destruct (add_preds_spec edges (dict_of_ids nodes [])) as (preds & Hrun & Hp).
  { intros e He. apply in_keys_dict_of_ids. auto. }
  unfold Server.subgraph_up_to, Optimizer.prune_dead. rewrite Hne. simpl negb. cbv iota.
  rewrite Hrun, bind_ok.
  destruct (reach_from_target edges tid preds) as (keep & Hk & _).
  { intros t. rewrite Hp, get_default_dict_of_ids. reflexivity. }
  destruct (reach_from_target edges tid (Optimizer.build_preds edges))
    as (keep' & Hk' & _).
  { intros t. unfold Optimizer.build_preds. now rewrite build_preds_spec. }
  change (Server.up_loop (S (List.length edges)) preds [] [tid])
    with (Optimizer.reach_loop (S (List.length edges)) preds [] [tid]).
  (* the two dictionaries answer every lookup alike, so the loops coincide *)
  assert (Hsame : forall fuel keep0 stack,
            Optimizer.reach_loop fuel preds keep0 stack
            = Optimizer.reach_loop fuel (Optimizer.build_preds edges) keep0 stack).
  { induction fuel as [|f IHf]; intros keep0 [|cur st]; simpl; auto.
    rewrite !IHf. rewrite Hp, get_default_dict_of_ids.
    unfold Optimizer.build_preds. now rewrite build_preds_spec. }
  now rewrite Hsame.
Qed.

(** C9, as the code has it. An absent target, and an empty one as well, leaves
    the graph unchanged. For a non-empty target naming a node of a graph
    whose edges join its nodes, both pruning functions keep exactly the
    nodes that are ancestors of the target (the target included) and exactly
    the input edges whose source and target both survive. *)
Theorem prune_dead_keeps_ancestors nodes edges tid :
  tid <> EmptyString ->
  edges_within nodes edges ->
  In tid (ids nodes) ->
  Optimizer.prune_dead nodes edges None = Ok (nodes, edges) /\
  Server.subgraph_up_to nodes edges None = Ok (nodes, edges) /\
  Optimizer.prune_dead nodes edges (Some EmptyString) = Ok (nodes, edges) /\
  Server.subgraph_up_to nodes edges (Some EmptyString) = Ok (nodes, edges) /\
  exists n2 e2,
    Optimizer.prune_dead nodes edges (Some tid) = Ok (n2, e2) /\
    Server.subgraph_up_to nodes edges (Some tid) = Ok (n2, e2) /\
    (forall x, In x (ids n2) <-> ancestor edges tid x) /\
    (forall nd, In nd n2 <-> In nd nodes /\ ancestor edges tid (id nd)) /\
    (forall e, In e e2 <->
               In e edges /\ In (source e) (ids n2) /\ In (target e) (ids n2)).
Proof.
  intros Hne Hw Htid.
  repeat (split; [reflexivity|]).
  assert (Hne' : nonempty tid = true) by (destruct tid; [congruence | reflexivity]).
  destruct (prune_dead_run nodes edges tid Hne') as (keep & Hkeep & Hrun).
  set (n2 := filter (fun nd => mem_str (id nd) keep) nodes) in *.
  assert (Hids : forall x, In x (ids n2) <-> ancestor edges tid x).
  { intros x. unfold ids, n2. rewrite in_map_iff. split.
    - intros (nd & <- & Hin). apply filter_In in Hin. destruct Hin as [_ Hm].
      apply Hkeep. now apply mem_str_In.
    - intros Ha. pose proof (ancestor_in_nodes _ _ _ _ Hw Htid Ha) as Hx.
      apply in_map_iff in Hx. destruct Hx as (nd & <- & Hnd).
      exists nd. split; auto. apply filter_In. split; auto.
      apply mem_str_In. now apply Hkeep. }
  exists n2, (filter (fun e => mem_str (source e) keep && mem_str (target e) keep) edges).
  split; [exact Hrun|]. split.
  { rewrite subgraph_up_to_run; auto. intros e He. now apply Hw. }
  split; [exact Hids|]. split.
  - intros nd. unfold n2. rewrite filter_In, mem_str_In, Hkeep. tauto.
  - intros e. rewrite filter_In, andb_true_iff, !mem_str_In, !Hids, !Hkeep. tauto.
Qed.

Lemma prune_dead_keeps_ancestors_witness :
  exists n2 e2,
    Optimizer.prune_dead line_nodes line_edges (Some "b") = Ok (n2, e2) /\
    Server.subgraph_up_to line_nodes line_edges (Some "b") = Ok (n2, e2) /\
    (forall x, In x (ids n2) <-> ancestor line_edges "b" x) /\
    (forall nd, In nd n2 <-> In nd line_nodes /\ ancestor line_edges "b" (id nd)) /\
    (forall e, In e e2 <->
               In e line_edges /\ In (source e) (ids n2) /\ In (target e) (ids n2)).
Proof.
  assert (H1 : "b" <> EmptyString) by discriminate.
  assert (H2 : edges_within line_nodes line_edges) by exact (proj2 line_graph_wf).
  assert (H3 : In "b" (ids line_nodes)) by (simpl; auto).
  exact (proj2 (proj2 (proj2 (proj2
           (prune_dead_keeps_ancestors line_nodes line_edges "b" H1 H2 H3))))).
Defined.

Example prune_dead_line :
  Optimizer.prune_dead line_nodes line_edges (Some "b")
  = Ok ([plain "a"; plain "b"], [mkEdge "a" "b"]).
Proof. reflexivity. Qed.

(** C9 as stated fails for a target that is present but empty: the guard
    [if not target_id] sends it down the identity path, so a node that is no
    ancestor of the target survives. *)
Lemma prune_dead_empty_target :
  Optimizer.prune_dead blank_nodes [] (Some EmptyString) = Ok (blank_nodes, []) /\
  Server.subgraph_up_to blank_nodes [] (Some EmptyString) = Ok (blank_nodes, []) /\
  In "x" (ids blank_nodes) /\
  ~ ancestor [] EmptyString "x".
Proof.
  split; [reflexivity|]. split; [reflexivity|]. split; [simpl; auto|].
  intros [H|H]; [discriminate|]. inversion H; subst; simpl in *; tauto.
Qed.

(** ** Splicing a node out *)

Section PopFacts.
Context {V : Type}.
Implicit Types (d : dict V) (k : string).

Lemma keys_pop_notin d k : ~ In k (PyDict.keys d) -> PyDict.pop d k = d.
Proof.
  induction d as [|[k' v'] r IH]; simpl; auto.
  intros H. destruct (String.eqb_spec k' k) as [->|Hne]; [tauto|].
  f_equal. apply IH. tauto.
Qed.

Lemma in_keys_pop d k k' : In k' (PyDict.keys (PyDict.pop d k)) -> In k' (PyDict.keys d).
Proof.
  induction d as [|[k0 v0] r IH]; simpl; auto.
  destruct (String.eqb_spec k0 k); simpl; tauto.
Qed.

Lemma NoDup_keys_pop d k : NoDup (PyDict.keys d) -> NoDup (PyDict.keys (PyDict.pop d k)).
Proof.
  induction d as [|[k0 v0] r IH]; simpl; auto.
  intros H. apply NoDup_cons_iff in H. destruct H as [Hn Hnd].
  destruct (String.eqb_spec k0 k); simpl; auto.
  constructor; auto. intros Hin. apply Hn. eapply in_keys_pop; eauto.
Qed.

Lemma get_pop_same d k : NoDup (PyDict.keys d) -> PyDict.get (PyDict.pop d k) k = None.
Proof.
  induction d as [|[k0 v0] r IH]; simpl; auto.
  intros H. apply NoDup_cons_iff in H. destruct H as [Hn Hnd].
  destruct (String.eqb_spec k0 k) as [->|Hne]; simpl.
  - now apply get_None_keys.
  - destruct (String.eqb_spec k0 k); [congruence | auto].
Qed.

Lemma get_pop_other d k k' : k <> k' -> PyDict.get (PyDict.pop d k) k' = PyDict.get d k'.
Proof.
  intros Hne. induction d as [|[k0 v0] r IH]; simpl; auto.
  destruct (String.eqb_spec k0 k) as [->|Hne0]; simpl.
  - destruct (String.eqb_spec k k'); [congruence | reflexivity].
  - now rewrite IH.
Qed.

Lemma pop_pop d k : NoDup (PyDict.keys d) -> PyDict.pop (PyDict.pop d k) k = PyDict.pop d k.
Proof.
  intros H. apply keys_pop_notin. apply get_None_keys. now apply get_pop_same.
Qed.
End PopFacts.

Lemma remove_node_noop nodes edges nid :
  ~ (List.length (filter (fun e => target e =? nid) edges) = 1 /\
     List.length (filter (fun e => source e =? nid) edges) = 1) ->
  Optimizer._remove_node nodes edges nid = (nodes, edges).
Proof.
  intros H. unfold Optimizer._remove_node.
  destruct (Nat.eqb_spec (List.length (filter (fun e => target e =? nid) edges)) 1);
    destruct (Nat.eqb_spec (List.length (filter (fun e => source e =? nid) edges)) 1);
    simpl; auto.
  tauto.
Qed.

Lemma remove_node_splice nodes edges nid i o :
  filter (fun e => target e =? nid) edges = [i] ->
  filter (fun e => source e =? nid) edges = [o] ->
  Optimizer._remove_node nodes edges nid
  = (PyDict.pop nodes nid,
     filter (fun e => negb (source e =? nid) && negb (target e =? nid)) edges
       ++ [mkEdge (source i) (target o)]).
Proof.
  intros Hi Ho. unfold Optimizer._remove_node. now rewrite Hi, Ho.
Qed.

Lemma length_one {A : Type} (l : list A) : List.length l = 1 -> exists x, l = [x].
Proof.
  destruct l as [|x [|y l]]; simpl; try discriminate. eauto.
Qed.

Lemma filter_filter_false {A : Type} (p q : A -> bool) l :
  (forall x, p x = true -> q x = false) -> filter q (filter p l) = [].
Proof.
  intros H. induction l as [|x l IH]; simpl; auto.
  destruct (p x) eqn:P; simpl; auto. now rewrite (H x P).
Qed.

Lemma filter_idem {A : Type} (p : A -> bool) l : filter p (filter p l) = filter p l.
Proof.
  induction l as [|x l IH]; simpl; auto.
  destruct (p x) eqn:P; simpl; rewrite ?P, IH; auto.
Qed.

(** Running the splice a second time changes nothing. *)
Lemma remove_node_idem nodes edges nid :
  NoDup (PyDict.keys nodes) ->
  Optimizer._remove_node (fst (Optimizer._remove_node nodes edges nid))
                         (snd (Optimizer._remove_node nodes edges nid)) nid
  = Optimizer._remove_node nodes edges nid.
Proof.
  intros Hnd.
  destruct (Nat.eq_dec (List.length (filter (fun e => target e =? nid) edges)) 1) as [H1|H1];
  [destruct (Nat.eq_dec (List.length (filter (fun e => source e =? nid) edges)) 1) as [H2|H2]|].
  - destruct (length_one _ H1) as [i Hi]. destruct (length_one _ H2) as [o Ho].
    rewrite (remove_node_splice nodes edges nid i o Hi Ho). simpl fst. simpl snd.
    set (F := filter (fun e => negb (source e =? nid) && negb (target e =? nid)) edges).
    assert (HFt : filter (fun e => target e =? nid) F = []).
    { apply filter_filter_false. intros x Hx. apply andb_true_iff in Hx.
      destruct Hx as [_ Hx]. now destruct (target x =? nid). }
    assert (HFs : filter (fun e => source e =? nid) F = []).
    { apply filter_filter_false. intros x Hx. apply andb_true_iff in Hx.
      destruct Hx as [Hx _]. now destruct (source x =? nid). }
    assert (Hio : (source i =? nid) = (target o =? nid)).
    { destruct (String.eqb_spec (source i) nid) as [Hs|Hs].
      - assert (Hin : In i (filter (fun e => source e =? nid) edges)).
        { apply filter_In. split.
          + assert (Hi' : In i (filter (fun e => target e =? nid) edges))
              by (rewrite Hi; now left).
            now apply filter_In in Hi'.
          + now apply String.eqb_eq. }
        rewrite Ho in Hin. destruct Hin as [<-|[]].
        assert (Hi' : In o (filter (fun e => target e =? nid) edges))
          by (rewrite Hi; now left).
        apply filter_In in Hi'. symmetry. tauto.
      - destruct (String.eqb_spec (target o) nid) as [Ht|Ht]; auto.
        exfalso. apply Hs.
        assert (Hin : In o (filter (fun e => target e =? nid) edges)).
        { apply filter_In. split.
          + assert (Ho' : In o (filter (fun e => source e =? nid) edges))
              by (rewrite Ho; now left).
            now apply filter_In in Ho'.
          + now apply String.eqb_eq. }
        rewrite Hi in Hin. destruct Hin as [<-|[]].
        assert (Ho' : In i (filter (fun e => source e =? nid) edges))
          by (rewrite Ho; now left).
        apply filter_In in Ho'. apply String.eqb_eq. tauto. }
    destruct (target o =? nid) eqn:Ht.
    + rewrite (remove_node_splice _ _ nid (mkEdge (source i) (target o))
                 (mkEdge (source i) (target o))).
      * rewrite pop_pop by assumption. f_equal. rewrite filter_app. unfold F.
        rewrite filter_idem. simpl. rewrite Hio, Ht. simpl. now rewrite app_nil_r.
      * rewrite filter_app, HFt. simpl. now rewrite Ht.
      * rewrite filter_app, HFs. simpl. now rewrite Hio.
    + apply remove_node_noop. rewrite filter_app, HFt. simpl. rewrite Ht.
      simpl. lia.
  - rewrite (remove_node_noop nodes edges nid) by tauto. simpl.
    apply remove_node_noop. tauto.
  - rewrite (remove_node_noop nodes edges nid) by tauto. simpl.
    apply remove_node_noop. tauto.
Qed.

(** ** The fusion sweep *)

Lemma select_not_filter nd : Optimizer.is_select nd = true -> Optimizer.is_filter nd = false.
Proof.
  unfold Optimizer.is_select, Optimizer.is_filter. intros H.
  apply String.eqb_eq in H. now rewrite H.
Qed.

Lemma filter_not_select nd : Optimizer.is_filter nd = true -> Optimizer.is_select nd = false.
Proof.
  unfold Optimizer.is_select, Optimizer.is_filter. intros H.
  apply String.eqb_eq in H. now rewrite H.
Qed.

Lemma remove_node_pair nodes edges nid :
  Optimizer._remove_node nodes edges nid
  = (fst (Optimizer._remove_node nodes edges nid),
     snd (Optimizer._remove_node nodes edges nid)).
Proof. now destruct (Optimizer._remove_node nodes edges nid). Qed.

(** Third rule after a splice attempt on the same node: nothing new. *)
Lemma identity_select_after parents children nid nodes edges nd :
  NoDup (PyDict.keys nodes) ->
  Optimizer.rule_identity_select parents children nid
    (fst (Optimizer._remove_node nodes edges nid),
     snd (Optimizer._remove_node nodes edges nid), nd)
  = (fst (Optimizer._remove_node nodes edges nid),
     snd (Optimizer._remove_node nodes edges nid), nd).
Proof.
  intros Hnd. unfold Optimizer.rule_identity_select.
  destruct (Optimizer.is_select nd); auto.
  match goal with |- (if ?c then _ else _) = _ => destruct c end; auto.
  rewrite (remove_node_idem nodes edges nid Hnd).
  now destruct (Optimizer._remove_node nodes edges nid).
Qed.

Lemma fuse_select_select parents children id2 edges nid nd pin pnode :
  NoDup (PyDict.keys id2) ->
  PyDict.get id2 nid = Some nd ->
  Optimizer.is_select nd = true ->
  Optimizer.one_parent parents nid = true ->
  Optimizer.first_parent parents nid = pin ->
  pin <> nid ->
  PyDict.get id2 pin = Some pnode ->
  Optimizer.is_select pnode = true ->
  strip (str_or (columns (data pnode)) "*") <> "*" ->
  strip (str_or (columns (data nd)) "*") <> "*" ->
  Optimizer.fuse_step parents children (id2, edges) nid
  = Optimizer._remove_node
      (PyDict.set id2 pin
         (Optimizer.with_columns pnode
            (Optimizer.composed_text
               (Optimizer.compose_columns
                  (strip (str_or (columns (data pnode)) "*"))
                  (strip (str_or (columns (data nd)) "*"))))))
      edges nid.
Proof.
  intros Hnd Hn Hsel Hone Hpin Hne Hp Hpsel Hc1 Hc2.
  apply String.eqb_neq in Hc1, Hc2, Hne.
  unfold Optimizer.fuse_step. rewrite Hn.
  unfold Optimizer.rule_select_select.
  rewrite Hsel, Hone, Hpin, Hp, Hpsel, Hc1, Hc2, Hne.
  cbv beta iota zeta delta [andb negb].
  set (id2a := PyDict.set id2 pin _).
  rewrite (remove_node_pair id2a edges nid).
  unfold Optimizer.rule_filter_filter.
  rewrite (select_not_filter nd Hsel). cbv beta iota zeta delta [andb].
  rewrite identity_select_after; [reflexivity|].
  unfold id2a. now apply NoDup_keys_set.
Qed.

Lemma fuse_filter_filter parents children id2 edges nid nd pin pnode :
  PyDict.get id2 nid = Some nd ->
  Optimizer.is_filter nd = true ->
  Optimizer.one_parent parents nid = true ->
  Optimizer.first_parent parents nid = pin ->
  pin <> nid ->
  PyDict.get id2 pin = Some pnode ->
  Optimizer.is_filter pnode = true ->
  Optimizer.fuse_step parents children (id2, edges) nid
  = Optimizer._remove_node
      (PyDict.set id2 pin
         (Optimizer.with_expr pnode
            (Optimizer.and_expr
               (strip (str_or (expr (data pnode)) EmptyString))
               (strip (str_or (expr (data nd)) EmptyString)))))
      edges nid.
Proof.
  intros Hn Hfil Hone Hpin Hne Hp Hpfil.
  apply String.eqb_neq in Hne.
  unfold Optimizer.fuse_step. rewrite Hn.
  unfold Optimizer.rule_select_select.
  rewrite (filter_not_select nd Hfil). cbv beta iota zeta delta [andb].
  unfold Optimizer.rule_filter_filter.
  rewrite Hfil, Hone, Hpin, Hp, Hpfil, Hne.
  cbv beta iota zeta delta [andb negb].
  set (id2a := PyDict.set id2 pin _).
  rewrite (remove_node_pair id2a edges nid).
  unfold Optimizer.rule_identity_select.
  now rewrite (filter_not_select nd Hfil).
Qed.

(** C4, as the code has it. [_remove_node] splices a node out exactly when
    it has one incoming and one outgoing edge at that moment, leaving the
    single edge parent -> child; otherwise it changes nothing. The second
    rule, and the first one for two explicit lists, write the merged payload
    to the parent before that test: when the child has two or more outgoing
    edges the step leaves the edges as they were and the child in the graph
    with its own payload untouched, next to the parent that already carries
    the merged payload. *)
Theorem splice_contract id2 edges nid :
  NoDup (PyDict.keys id2) ->
  let ins := filter (fun e => target e =? nid) edges in
  let outs := filter (fun e => source e =? nid) edges in
  (List.length ins = 1 /\ List.length outs = 1 ->
     exists i o, ins = [i] /\ outs = [o] /\
       Optimizer._remove_node id2 edges nid
       = (PyDict.pop id2 nid,
          filter (fun e => negb (source e =? nid) && negb (target e =? nid)) edges
            ++ [mkEdge (source i) (target o)]) /\
       PyDict.get (PyDict.pop id2 nid) nid = None) /\
  (~ (List.length ins = 1 /\ List.length outs = 1) ->
     Optimizer._remove_node id2 edges nid = (id2, edges)) /\
  (forall parents children nd pin pnode,
     PyDict.get id2 nid = Some nd ->
     Optimizer.one_parent parents nid = true ->
     Optimizer.first_parent parents nid = pin ->
     pin <> nid ->
     PyDict.get id2 pin = Some pnode ->
     2 <= List.length outs ->
     (Optimizer.is_filter nd = true -> Optimizer.is_filter pnode = true ->
        let merged := Optimizer.with_expr pnode
              (Optimizer.and_expr (strip (str_or (expr (data pnode)) EmptyString))
                                  (strip (str_or (expr (data nd)) EmptyString))) in
        Optimizer.fuse_step parents children (id2, edges) nid
        = (PyDict.set id2 pin merged, edges) /\
        PyDict.get (PyDict.set id2 pin merged) nid = Some nd /\
        PyDict.get (PyDict.set id2 pin merged) pin = Some merged) /\
     (Optimizer.is_select nd = true -> Optimizer.is_select pnode = true ->
      strip (str_or (columns (data pnode)) "*") <> "*" ->
      strip (str_or (columns (data nd)) "*") <> "*" ->
        let merged := Optimizer.with_columns pnode
              (Optimizer.composed_text
                 (Optimizer.compose_columns
                    (strip (str_or (columns (data pnode)) "*"))
                    (strip (str_or (columns (data nd)) "*")))) in
        Optimizer.fuse_step parents children (id2, edges) nid
        = (PyDict.set id2 pin merged, edges) /\
        PyDict.get (PyDict.set id2 pin merged) nid = Some nd /\
        PyDict.get (PyDict.set id2 pin merged) pin = Some merged)).
Proof.
  intros Hnd ins outs. split; [|split].
  - intros [H1 H2].
    destruct (length_one _ H1) as [i Hi]. destruct (length_one _ H2) as [o Ho].
    exists i, o. repeat split; auto.
    + now apply remove_node_splice.
    + now apply get_pop_same.
  - apply remove_node_noop.
  - intros parents children nd pin pnode Hn Hone Hpin Hne Hp Hfan.
    assert (Hnot : ~ (List.length ins = 1 /\ List.length outs = 1)) by lia.
    split.
    + intros Hf Hpf merged. repeat split.
      * rewrite (fuse_filter_filter parents children id2 edges nid nd pin pnode);
          auto.
        now apply remove_node_noop.
      * rewrite get_set_other; auto.
      * apply get_set_same.
    + intros Hs Hps Hc1 Hc2 merged. repeat split.
      * rewrite (fuse_select_select parents children id2 edges nid nd pin pnode);
          auto.
        now apply remove_node_noop.
      * rewrite get_set_other; auto.
      * apply get_set_same.
Qed.

Lemma splice_contract_witness :
  let id2 := id_map fan_nodes in
  let merged := step "p" "transform.filter" None (Some "(x>1) AND (y<5)") in
  Optimizer.fuse_step (Optimizer._parents fan_edges) (Optimizer._children fan_edges)
    (id2, fan_edges) "q"
  = (PyDict.set id2 "p" merged, fan_edges) /\
  PyDict.get (PyDict.set id2 "p" merged) "q"
  = Some (step "q" "transform.filter" None (Some "y<5")) /\
  PyDict.get (PyDict.set id2 "p" merged) "p" = Some merged.
Proof.
  intros id2 merged.
  assert (Hnd : NoDup (PyDict.keys id2))
    by (repeat constructor; simpl; intuition discriminate).
  refine (proj1 (proj2 (proj2 (splice_contract id2 fan_edges "q" Hnd))
            (Optimizer._parents fan_edges) (Optimizer._children fan_edges)
            (step "q" "transform.filter" None (Some "y<5")) "p"
            (step "p" "transform.filter" None (Some "x>1"))
            _ _ _ _ _ _) _ _);
    try reflexivity; try discriminate; simpl; lia.
Defined.

(** C4 as stated fails on whose payload is overwritten. In the fan-out
    pipeline the second filter stays in the graph with the expression it
    came with; the merged expression sits on its parent. *)
Lemma fanout_child_payload_kept :
  Optimizer.combine_redundant fan_nodes fan_edges
  = Ok ([step "s" "source.csv" None None;
         step "p" "transform.filter" None (Some "(x>1) AND (y<5)");
         step "q" "transform.filter" None (Some "y<5");
         step "k1" "sink.csv" None None;
         step "k2" "sink.csv" None None],
        fan_edges) /\
  expr (data (step "q" "transform.filter" None (Some "y<5")))
  <> Some (Optimizer.and_expr "x>1" "y<5").
Proof. split; [reflexivity | discriminate]. Qed.

(** C5, as the code has it. When a select with an explicit list has, as its
    single parent, another select with an explicit list, the step gives the
    parent its own list filtered to the names that also occur in the child's
    list, in the parent's order, or the wildcard when no name is left. The
    child is dropped exactly when it has one incoming and one outgoing edge
    at that moment; otherwise it stays, unchanged, and so do the edges. *)
Theorem select_select_fusion parents children id2 edges nid nd pin pnode :
  NoDup (PyDict.keys id2) ->
  PyDict.get id2 nid = Some nd ->
  Optimizer.is_select nd = true ->
  Optimizer.one_parent parents nid = true ->
  Optimizer.first_parent parents nid = pin ->
  pin <> nid ->
  PyDict.get id2 pin = Some pnode ->
  Optimizer.is_select pnode = true ->
  strip (str_or (columns (data pnode)) "*") <> "*" ->
  strip (str_or (columns (data nd)) "*") <> "*" ->
  let plist := csv_list (strip (str_or (columns (data pnode)) "*")) in
  let clist := csv_list (strip (str_or (columns (data nd)) "*")) in
  let composed := filter (fun c => mem_str c clist) plist in
  let ins := filter (fun e => target e =? nid) edges in
  let outs := filter (fun e => source e =? nid) edges in
  let after := Optimizer.fuse_step parents children (id2, edges) nid in
  (forall c, In c composed <-> In c plist /\ In c clist) /\
  (exists pnode',
     PyDict.get (fst after) pin = Some pnode' /\
     id pnode' = id pnode /\
     type (data pnode') = type (data pnode) /\
     columns (data pnode')
     = Some (match composed with [] => "*" | _ => join "," composed end)) /\
  (List.length ins = 1 /\ List.length outs = 1 ->
     PyDict.get (fst after) nid = None /\
     exists i o, ins = [i] /\ outs = [o] /\
       snd after
       = filter (fun e => negb (source e =? nid) && negb (target e =? nid)) edges
           ++ [mkEdge (source i) (target o)]) /\
  (~ (List.length ins = 1 /\ List.length outs = 1) ->
     PyDict.get (fst after) nid = Some nd /\ snd after = edges).
Proof.
  intros Hnd Hn Hsel Hone Hpin Hne Hp Hpsel Hc1 Hc2 plist clist composed ins outs after.
  assert (Hafter : after = Optimizer._remove_node
            (PyDict.set id2 pin
               (Optimizer.with_columns pnode (Optimizer.composed_text composed)))
            edges nid).
  { unfold after. now apply fuse_select_select. }
  set (pnode' := Optimizer.with_columns pnode (Optimizer.composed_text composed)) in *.
  assert (Hnd' : NoDup (PyDict.keys (PyDict.set id2 pin pnode')))
    by now apply NoDup_keys_set.
  assert (Hcases : {List.length ins = 1 /\ List.length outs = 1}
                 + {~ (List.length ins = 1 /\ List.length outs = 1)}).
  { destruct (Nat.eq_dec (List.length ins) 1); destruct (Nat.eq_dec (List.length outs) 1);
      auto; right; tauto. }
  split; [|split; [|split]].
  - intros c. unfold composed. rewrite filter_In, mem_str_In. tauto.
  - exists pnode'. repeat split.
    rewrite Hafter. destruct Hcases as [[H1 H2]|Hno].
    + destruct (length_one _ H1) as [i Hi]. destruct (length_one _ H2) as [o Ho].
      rewrite (remove_node_splice _ edges nid i o Hi Ho). simpl fst.
      rewrite get_pop_other by congruence. apply get_set_same.
    + rewrite remove_node_noop by exact Hno. simpl fst. apply get_set_same.
  - intros [H1 H2]. rewrite Hafter.
    destruct (length_one _ H1) as [i Hi]. destruct (length_one _ H2) as [o Ho].
    rewrite (remove_node_splice _ edges nid i o Hi Ho). simpl. split.
    + now apply get_pop_same.
    + exists i, o. auto.
  - intros Hno. rewrite Hafter, remove_node_noop by exact Hno. simpl.
    split; auto. now rewrite get_set_other.
Qed.

Lemma select_select_fusion_witness :
  let after := Optimizer.fuse_step (Optimizer._parents mid_edges)
                 (Optimizer._children mid_edges) (id_map mid_nodes, mid_edges) "q" in
  (exists pnode',
     PyDict.get (fst after) "p" = Some pnode' /\
     id pnode' = "p" /\
     type (data pnode') = "transform.select" /\
     columns (data pnode') = Some "b") /\
  PyDict.get (fst after) "q" = None /\
  snd after = [mkEdge "s" "p"; mkEdge "p" "k"].
Proof.
  intros after.
  assert (Hnd : NoDup (PyDict.keys (id_map mid_nodes)))
    by (repeat constructor; simpl; intuition discriminate).
  assert (Hpq : "p" <> "q") by discriminate.
  assert (Hc1 : strip (str_or (Some "a, b") "*") <> "*") by (vm_compute; discriminate).
  assert (Hc2 : strip (str_or (Some "b,c") "*") <> "*") by (vm_compute; discriminate).
  pose proof (select_select_fusion
                (Optimizer._parents mid_edges) (Optimizer._children mid_edges)
                (id_map mid_nodes) mid_edges "q"
                (step "q" "transform.select" (Some "b,c") None) "p"
                (step "p" "transform.select" (Some "a, b") None)
                Hnd eq_refl eq_refl eq_refl eq_refl Hpq eq_refl eq_refl Hc1 Hc2)
    as (_ & Hparent & Hdrop & _).
  split; [exact Hparent|].
  destruct (Hdrop (conj eq_refl eq_refl)) as [Hgone _].
  split; [exact Hgone | reflexivity].
Defined.

Example fuse_mid_pipeline :
  Optimizer.combine_redundant mid_nodes mid_edges
  = Ok ([step "s" "source.csv" None None;
         step "p" "transform.select" (Some "b") None;
         step "k" "sink.csv" None None],
        [mkEdge "s" "p"; mkEdge "p" "k"]).
Proof. reflexivity. Qed.

(** C5 as stated fails on the drop: a child that ends the pipeline has no
    outgoing edge, so the splice is refused and the child stays. *)
Lemma select_child_not_dropped :
  Optimizer.combine_redundant tail_nodes tail_edges
  = Ok ([step "s" "source.csv" None None;
         step "p" "transform.select" (Some "b") None;
         step "q" "transform.select" (Some "b,c") None],
        tail_edges).
Proof. reflexivity. Qed.

(** ** Stripping *)

Lemma drop_while_split (p : ascii -> bool) : forall l,
  exists a, l = a ++ drop_while p l /\ forallb p a = true.
Proof.
  induction l as [|c l IH]; simpl.
  - exists []. auto.
  - destruct (p c) eqn:P.
    + destruct IH as (a & Ha & Hp). exists (c :: a). simpl.
      rewrite P, Hp. split; [now f_equal | reflexivity].
    + exists []. auto.
Qed.

Lemma drop_while_head (p : ascii -> bool) : forall l c r,
  drop_while p l = c :: r -> p c = false.
Proof.
  induction l as [|x l IH]; simpl; intros c r H; [discriminate|].
  destruct (p x) eqn:P; eauto. inversion H; subst. exact P.
Qed.

Lemma strip_chars_split (p : ascii -> bool) l :
  exists a b, l = a ++ strip_chars p l ++ b /\
              forallb p a = true /\ forallb p b = true.
Proof.
  unfold strip_chars.
  destruct (drop_while_split p l) as (a & Ha & Hpa).
  destruct (drop_while_split p (rev (drop_while p l))) as (b & Hb & Hpb).
  exists a, (rev b). repeat split; auto.
  - rewrite <- rev_app_distr, <- Hb, rev_involutive. exact Ha.
  - rewrite forallb_forall in *. intros x Hx. apply Hpb. now apply in_rev.
Qed.

Lemma strip_chars_last (p : ascii -> bool) l r c :
  strip_chars p l = r ++ [c] -> p c = false.
Proof.
  unfold strip_chars. intros H.
  apply (f_equal (@rev ascii)) in H. rewrite rev_involutive, rev_app_distr in H.
  simpl in H. eapply drop_while_head; eauto.
Qed.

Lemma strip_chars_head (p : ascii -> bool) l c r :
  strip_chars p l = c :: r -> p c = false.
Proof.
  unfold strip_chars. intros H.
  destruct (drop_while_split p (rev (drop_while p l))) as (b & Hb & Hpb).
  apply (f_equal (@rev ascii)) in H. rewrite rev_involutive in H.
  rewrite H in Hb. simpl in Hb.
  apply (f_equal (@rev ascii)) in Hb.
  rewrite rev_involutive, rev_app_distr, rev_app_distr, rev_involutive in Hb.
  simpl in Hb. eapply drop_while_head; eauto.
Qed.

Lemma nonempty_string_of_list l :
  nonempty (string_of_list_ascii l) = match l with [] => false | _ => true end.
Proof. now destruct l. Qed.

Lemma friendly_base_unfold label :
  Server.friendly_base label
  = match strip_chars (Ascii.eqb "_") (underscored label) with
    | [] => "node"
    | l => string_of_list_ascii l
    end.
Proof.
  unfold Server.friendly_base, strip_char, map_string, underscored.
  rewrite list_ascii_of_string_of_list_ascii, nonempty_string_of_list.
  now destruct (strip_chars _ _).
Qed.

Lemma friendly_name_unfold label counts :
  Server.friendly_name label counts
  = (numbered (Server.friendly_base label)
       (PyDict.get_default counts (Server.friendly_base label) 0%Z),
     PyDict.set counts (Server.friendly_base label)
       (PyDict.get_default counts (Server.friendly_base label) 0 + 1)%Z).
Proof. reflexivity. Qed.

(** ** Deduplication across the visiting order *)

Lemma assign_names_from id2 : forall order names0 counts0,
  NoDup order ->
  (forall nid, In nid order -> In nid (PyDict.keys id2)) ->
  exists names counts,
    for_each (fun st nid =>
      let '(names, counts) := st in
      nd <- PyDict.lookup id2 nid ;;
      let '(v, counts') := Server.friendly_name (label (data nd)) counts in
      Ok (PyDict.set names nid v, counts'))
      order (names0, counts0) = Ok (names, counts) /\
    (forall nid, ~ In nid order -> PyDict.get names nid = PyDict.get names0 nid) /\
    (forall pre nid post, order = pre ++ nid :: post ->
       PyDict.get names nid
       = Some (numbered (base_of id2 nid)
                 (PyDict.get_default counts0 (base_of id2 nid) 0
                  + Z.of_nat (same_base id2 (base_of id2 nid) pre))%Z)).
Proof.
  induction order as [|x r IH]; intros names0 counts0 Hnd Hin.
  - exists names0, counts0. repeat split; auto.
    intros [|? ?] ? ? H; discriminate.
  - apply NoDup_cons_iff in Hnd. destruct Hnd as [Hx Hnd].
    rewrite for_each_cons.
    destruct (keys_get id2 x (Hin x (or_introl eq_refl))) as [nd Hg].
    unfold PyDict.lookup at 1. rewrite Hg, bind_ok, friendly_name_unfold, bind_ok.
    set (b := Server.friendly_base (label (data nd))).
    assert (Hb : base_of id2 x = b) by (unfold base_of; now rewrite Hg).
    set (c0 := PyDict.get_default counts0 b 0%Z).
    destruct (IH (PyDict.set names0 x (numbered b c0)) (PyDict.set counts0 b (c0 + 1)%Z) Hnd)
      as (names & counts & Hrun & Hout & Hnames).
    { intros nid Hnid. apply Hin. now right. }
    exists names, counts. split; [exact Hrun|]. split.
    + intros nid Hnid. rewrite Hout by (intros H; apply Hnid; now right).
      apply get_set_other. intros ->. apply Hnid. now left.
    + intros pre nid post Heq. destruct pre as [|y pre]; simpl in Heq.
      * injection Heq as <- <-. rewrite (Hout x Hx), get_set_same, Hb.
        unfold same_base. simpl. now rewrite Z.add_0_r.
      * injection Heq as <- Heq. rewrite (Hnames pre nid post Heq). f_equal. f_equal.
        unfold same_base. simpl. rewrite Hb.
        destruct (String.eqb_spec b (base_of id2 nid)) as [<-|Hne].
        -- rewrite get_default_set_same. simpl List.length. fold c0. lia.
        -- rewrite get_default_set_other by assumption. lia.
Qed.

Lemma length_list_ascii s :
  List.length (list_ascii_of_string s) = String.length s.
Proof. induction s as [|c s IH]; simpl; auto. Qed.

Lemma forallb_underscore l :
  forallb (Ascii.eqb "_") l = true -> Forall (fun c => c = "_"%char) l.
Proof.
  rewrite forallb_forall, Forall_forall. intros H c Hc.
  symmetry. apply Ascii.eqb_eq. auto.
Qed.

Lemma str_of_Z_inj a b : str_of_Z a = str_of_Z b -> a = b.
Proof.
  unfold str_of_Z. intros H.
  apply (f_equal NilZero.int_of_string) in H.
  rewrite !NilZero.isi in H.
  - injection H as H. now apply DecimalZ.to_int_inj.
  - destruct b; simpl; try discriminate.
    intros E. injection E as E. now apply DecimalPos.Unsigned.to_uint_nonnil in E.
  - destruct b; simpl; try discriminate.
    intros E. injection E as E. now apply DecimalPos.Unsigned.to_uint_nonnil in E.
  - destruct a; simpl; try discriminate.
    intros E. injection E as E. now apply DecimalPos.Unsigned.to_uint_nonnil in E.
  - destruct a; simpl; try discriminate.
    intros E. injection E as E. now apply DecimalPos.Unsigned.to_uint_nonnil in E.
Qed.

Lemma append_inj_r (b x y : string) : (b ++ x = b ++ y)%string -> x = y.
Proof.
  induction b as [|c b IH]; simpl; intros H; auto.
  injection H as H. auto.
Qed.

Lemma append_grows (b : string) c s : b <> (b ++ String c s)%string.
Proof.
  induction b as [|a b IH]; simpl; intros H; [discriminate|].
  injection H as H. auto.
Qed.

Lemma numbered_inj b k1 k2 : numbered b k1 = numbered b k2 -> k1 = k2.
Proof.
  unfold numbered.
  destruct (Z.eqb_spec (k1 + 1) 1) as [H1|H1];
    destruct (Z.eqb_spec (k2 + 1) 1) as [H2|H2]; intros H.
  - lia.
  - exfalso. exact (append_grows b _ _ H).
  - exfalso. symmetry in H. exact (append_grows b _ _ H).
  - apply append_inj_r in H. simpl in H. injection H as H.
    apply str_of_Z_inj in H. lia.
Qed.

Lemma same_base_later id2 b pre n1 mid :
  base_of id2 n1 = b ->
  same_base id2 b pre < same_base id2 b (pre ++ n1 :: mid).
Proof.
  intros Hb. unfold same_base. rewrite filter_app, length_app. simpl.
  rewrite Hb, String.eqb_refl. simpl. lia.
Qed.

(** Under the numbering, two nodes of one base never share a name. *)
Lemma numbering_apart id2 order (names : dict string) :
  (forall pre nid post, order = pre ++ nid :: post ->
     PyDict.get names nid
     = Some (numbered (base_of id2 nid)
               (Z.of_nat (same_base id2 (base_of id2 nid) pre)))) ->
  forall n1 n2, In n1 order -> In n2 order -> n1 <> n2 ->
    base_of id2 n1 = base_of id2 n2 ->
    PyDict.get names n1 <> PyDict.get names n2.
Proof.
  intros Hnames.
  assert (Hord : forall pre n1 mid n2 post,
            order = pre ++ n1 :: mid ++ n2 :: post ->
            base_of id2 n1 = base_of id2 n2 ->
            PyDict.get names n1 <> PyDict.get names n2).
  { intros pre n1 mid n2 post Heq Hb.
    rewrite (Hnames pre n1 (mid ++ n2 :: post) Heq).
    assert (Heq2 : order = (pre ++ n1 :: mid) ++ n2 :: post)
      by (rewrite Heq, <- app_assoc; reflexivity).
    rewrite (Hnames _ n2 post Heq2), <- Hb. intros H. injection H as H.
    apply numbered_inj in H.
    pose proof (same_base_later id2 (base_of id2 n1) pre n1 mid eq_refl).
    lia. }
  intros n1 n2 H1 H2 Hne Hb.
  destruct (in_split n1 order H1) as (l1 & l2 & Heq).
  rewrite Heq in H2. apply in_app_or in H2. destruct H2 as [H2|[H2|H2]].
  - destruct (in_split n2 l1 H2) as (a & b & Ha). subst l1.
    rewrite <- app_assoc in Heq. simpl in Heq.
    intros E. symmetry in E. revert E. eapply Hord; eauto.
  - congruence.
  - destruct (in_split n2 l2 H2) as (a & b & Ha). subst l2.
    eapply Hord; eauto.
Qed.

(** C8, as the code has it. The label (or the placeholder [node] when it is
    missing or empty) is lowercased; each character that is not alphanumeric
    becomes one underscore, position by position, so a run of them stays a
    run of underscores; leading and trailing underscores are stripped; an
    empty result becomes [node]. Visiting the nodes in order, the first
    holder of a base name keeps it and the one that follows [k] earlier
    holders gets the suffix [_(k+1)]. The numbering is per base name: two
    nodes of one base never share a name; it does not look at the names
    given to other bases. *)
Theorem friendly_names_spec id2 order :
  NoDup order ->
  (forall nid, In nid order -> In nid (PyDict.keys id2)) ->
  (forall label counts,
     let raw := list_ascii_of_string (lower (str_or label "node")) in
     let base := Server.friendly_base label in
     List.length (underscored label) = List.length raw /\
     (forall k c, nth_error raw k = Some c ->
        nth_error (underscored label) k
        = Some (if isalnum c then c else "_"%char)) /\
     (exists a b,
        underscored label = a ++ strip_chars (Ascii.eqb "_") (underscored label) ++ b /\
        Forall (fun c => c = "_"%char) a /\ Forall (fun c => c = "_"%char) b) /\
     base = match strip_chars (Ascii.eqb "_") (underscored label) with
            | [] => "node"
            | l => string_of_list_ascii l
            end /\
     base <> EmptyString /\
     (forall c r, list_ascii_of_string base = c :: r -> c <> "_"%char) /\
     (forall r c, list_ascii_of_string base = r ++ [c] -> c <> "_"%char) /\
     Server.friendly_name label counts
     = (numbered base (PyDict.get_default counts base 0%Z),
        PyDict.set counts base (PyDict.get_default counts base 0 + 1)%Z)) /\
  exists names counts,
    Server.assign_names id2 order = Ok (names, counts) /\
    (forall pre nid post, order = pre ++ nid :: post ->
       PyDict.get names nid
       = Some (numbered (base_of id2 nid)
                 (Z.of_nat (same_base id2 (base_of id2 nid) pre)))) /\
    (forall n1 n2, In n1 order -> In n2 order -> n1 <> n2 ->
       base_of id2 n1 = base_of id2 n2 ->
       PyDict.get names n1 <> PyDict.get names n2).
Proof.
  intros Hnd Hin. split.
  - intros label counts raw base.
    assert (Hbase : base = match strip_chars (Ascii.eqb "_") (underscored label) with
                           | [] => "node"
                           | l => string_of_list_ascii l
                           end) by apply friendly_base_unfold.
    split; [unfold underscored; apply length_map|].
    split; [intros k c Hk; unfold underscored; fold raw;
            now rewrite nth_error_map, Hk|].
    split.
    { destruct (strip_chars_split (Ascii.eqb "_") (underscored label))
        as (a & b & Heq & Ha & Hb).
      exists a, b. repeat split; auto using forallb_underscore. }
    split; [exact Hbase|].
    assert (Hfn : Server.friendly_name label counts
                  = (numbered base (PyDict.get_default counts base 0%Z),
                     PyDict.set counts base (PyDict.get_default counts base 0 + 1)%Z))
      by apply friendly_name_unfold.
    assert (Hends : base <> EmptyString /\
              (forall c r, list_ascii_of_string base = c :: r -> c <> "_"%char) /\
              (forall r c, list_ascii_of_string base = r ++ [c] -> c <> "_"%char));
      [|tauto].
    clear Hfn. rewrite Hbase. clear Hbase.
    destruct (strip_chars (Ascii.eqb "_") (underscored label)) as [|c0 l0] eqn:S.
    + split; [discriminate|]. split.
      * intros c r H. simpl in H. injection H as <- _. discriminate.
      * intros r c H. simpl in H.
        change ["n"; "o"; "d"; "e"]%char with (["n"; "o"; "d"]%char ++ ["e"%char]) in H.
        apply app_inj_tail in H. destruct H as [_ <-]. discriminate.
    + split; [discriminate|].
      rewrite list_ascii_of_string_of_list_ascii. split.
      * intros c r H. rewrite <- S in H. apply strip_chars_head in H.
        intros ->. now rewrite Ascii.eqb_refl in H.
      * intros r c H. rewrite <- S in H. apply strip_chars_last in H.
        intros ->. now rewrite Ascii.eqb_refl in H.
  - destruct (assign_names_from id2 order PyDict.empty PyDict.empty Hnd Hin)
      as (names & counts & Hrun & _ & Hnames).
    assert (Hnum : forall pre nid post, order = pre ++ nid :: post ->
              PyDict.get names nid
              = Some (numbered (base_of id2 nid)
                        (Z.of_nat (same_base id2 (base_of id2 nid) pre)))).
    { intros pre nid post Heq. rewrite (Hnames pre nid post Heq). reflexivity. }
    exists names, counts. split; [exact Hrun|]. split; [exact Hnum|].
    now apply (numbering_apart id2 order names).
Qed.

Lemma friendly_names_spec_witness :
  exists names counts,
    Server.assign_names (id_map two_filters) ["n1"; "n2"] = Ok (names, counts) /\
    PyDict.get names "n1" = Some "filter" /\
    PyDict.get names "n2" = Some "filter_2".
Proof.
  assert (Hnd : NoDup ["n1"; "n2"])
    by (repeat constructor; simpl; intuition discriminate).
  assert (Hin : forall nid, In nid ["n1"; "n2"] ->
                  In nid (PyDict.keys (id_map two_filters)))
    by (simpl; tauto).
  destruct (proj2 (friendly_names_spec (id_map two_filters) ["n1"; "n2"] Hnd Hin))
    as (names & counts & Hrun & Hnames & _).
  exists names, counts. split; [exact Hrun|]. split.
  - exact (Hnames [] "n1" ["n2"] eq_refl).
  - exact (Hnames ["n1"] "n2" [] eq_refl).
Defined.

Example two_filters_named :
  Server.assign_names (id_map two_filters) ["n1"; "n2"]
  = Ok ([("n1", "filter"); ("n2", "filter_2")], [("filter", 2%Z)]).
Proof. reflexivity. Qed.

(** C8 as stated fails twice. On runs: two blanks in a row give two
    underscores. And across the graph: the second node labelled [a] is
    numbered [a_2], the name that the node labelled [a 2] gets as the first
    of its own base, so two nodes share an identifier. *)
Lemma friendly_name_keeps_runs :
  (Server.friendly_name (Some "a  b") PyDict.empty = ("a__b", [("a__b", 1%Z)]) /\
   "a__b" <> "a_b") /\
  (exists names counts,
     Server.assign_names (id_map clash_nodes) ["n1"; "n2"; "n3"] = Ok (names, counts) /\
     PyDict.get names "n2" = Some "a_2" /\
     PyDict.get names "n3" = Some "a_2").
Proof.
  split; [split; [reflexivity | discriminate]|].
  eexists. eexists. split; [reflexivity|]. split; reflexivity.
Qed.

(** ** Signature comparison *)

Lemma list_eqb_eq xs ys : list_eqb xs ys = true <-> xs = ys.
Proof.
  revert ys. induction xs as [|x xs IH]; intros [|y ys]; simpl;
    try (split; [discriminate | congruence]); try tauto.
  rewrite andb_true_iff, String.eqb_eq, IH. split.
  - intros [-> ->]. reflexivity.
  - intros H. injection H as -> ->. auto.
Qed.

Lemma list_eqb_neq xs ys : list_eqb xs ys = false <-> xs <> ys.
Proof.
  rewrite <- list_eqb_eq. destruct (list_eqb xs ys); split; congruence.
Qed.

(** C2. The comparison answers [true] exactly when column names (in order),
    row counts and sample hashes are equal; the dtype lists play no part;
    and a mismatch is reported on the first dimension that differs, in the
    order columns, rows, sample hash. *)
Theorem compare_signatures_spec (a b : Server.Signature) :
  (fst (Server.compare_signatures a b) = true <->
     Server.sig_columns a = Server.sig_columns b /\
     Server.sig_rows a = Server.sig_rows b /\
     Server.sig_sample_md5 a = Server.sig_sample_md5 b) /\
  (forall da db,
     Server.compare_signatures
       (Server.mkSig (Server.sig_columns a) da (Server.sig_rows a) (Server.sig_sample_md5 a))
       (Server.mkSig (Server.sig_columns b) db (Server.sig_rows b) (Server.sig_sample_md5 b))
     = Server.compare_signatures a b) /\
  (Server.sig_columns a <> Server.sig_columns b ->
     Server.compare_signatures a b
     = (false, ("Columns differ." ++ newline ++ "A: " ++ repr_list (Server.sig_columns a)
                ++ newline ++ "B: " ++ repr_list (Server.sig_columns b))%string)) /\
  (Server.sig_columns a = Server.sig_columns b ->
   Server.sig_rows a <> Server.sig_rows b ->
     Server.compare_signatures a b
     = (false, ("Row count differs. A=" ++ str_of_Z (Server.sig_rows a)
                ++ " B=" ++ str_of_Z (Server.sig_rows b))%string)) /\
  (Server.sig_columns a = Server.sig_columns b ->
   Server.sig_rows a = Server.sig_rows b ->
   Server.sig_sample_md5 a <> Server.sig_sample_md5 b ->
     Server.compare_signatures a b
     = (false, "Sample hash differs (first rows content mismatch).")) /\
  (Server.sig_columns a = Server.sig_columns b ->
   Server.sig_rows a = Server.sig_rows b ->
   Server.sig_sample_md5 a = Server.sig_sample_md5 b ->
     Server.compare_signatures a b = (true, "Match.")).
Proof.
  destruct a as [ca da ra ma], b as [cb db rb mb].
  unfold Server.compare_signatures.
  cbn [Server.sig_columns Server.sig_rows Server.sig_sample_md5].
  split; [|split; [reflexivity|]].
  - destruct (list_eqb ca cb) eqn:Hc;
      [apply list_eqb_eq in Hc | apply list_eqb_neq in Hc];
    destruct (Z.eqb_spec ra rb); destruct (String.eqb_spec ma mb);
    cbn [negb fst]; split; try tauto; try discriminate;
    intros [? [? ?]]; congruence.
  - repeat split.
    + intros Hc. apply list_eqb_neq in Hc. now rewrite Hc.
    + intros Hc Hr. apply list_eqb_eq in Hc. apply Z.eqb_neq in Hr.
      now rewrite Hc, Hr.
    + intros Hc Hr Hm. apply list_eqb_eq in Hc. apply Z.eqb_eq in Hr.
      apply String.eqb_neq in Hm. now rewrite Hc, Hr, Hm.
    + intros Hc Hr Hm. apply list_eqb_eq in Hc. apply Z.eqb_eq in Hr.
      apply String.eqb_eq in Hm. now rewrite Hc, Hr, Hm.
Qed.

Lemma compare_signatures_spec_witness :
  Server.compare_signatures
    (Server.mkSig ["name"; "age"] ["object"; "int64"] 3 "9f2c")
    (Server.mkSig ["name"; "age"] ["string"; "Int64"] 3 "9f2c")
  = (true, "Match.").
Proof.
  exact (proj2 (proj2 (proj2 (proj2 (proj2
    (compare_signatures_spec
       (Server.mkSig ["name"; "age"] ["object"; "int64"] 3 "9f2c")
       (Server.mkSig ["name"; "age"] ["string"; "Int64"] 3 "9f2c"))))))
    eq_refl eq_refl eq_refl).
Defined.

Example compare_reports_columns_first :
  Server.compare_signatures
    (Server.mkSig ["a"; "b"] [] 3 "h1") (Server.mkSig ["a"] [] 4 "h2")
  = (false, ("Columns differ." ++ newline ++ "A: ['a', 'b']" ++ newline ++ "B: ['a']")%string).
Proof. reflexivity. Qed.

Example compare_reports_rows_second :
  Server.compare_signatures
    (Server.mkSig ["a"] [] 3 "h1") (Server.mkSig ["a"] [] 4 "h2")
  = (false, "Row count differs. A=3 B=4").
Proof. reflexivity. Qed.

(** The metadata comparison of [validator.py] is another function: its
    [exact_match] does take the dtype lists into account. *)
Remark compare_meta_counts_dtypes :
  Validator.exact_match
    (Validator.compare_meta
       (Validator.mkMeta (Some 3%Z) (Some ["a"]) (Some ["int64"]))
       (Validator.mkMeta (Some 3%Z) (Some ["a"]) (Some ["Int64"])))
  = false.
Proof. reflexivity. Qed.

(** ** Join keys *)

Lemma item_nth {A : Type} (xs : list A) i d :
  i < List.length xs -> Server.item xs i = inr (nth i xs d).
Proof.
  intros H. unfold Server.item.
  rewrite (nth_error_nth' xs d H). reflexivity.
Qed.

Lemma wrap_index_lt i len_rk : 0 < len_rk -> Server.wrap_index i len_rk < len_rk.
Proof.
  intros H. unfold Server.wrap_index.
  destruct (Nat.ltb_spec i len_rk); lia.
Qed.

(** With a non-empty right list the pairing never fails: pair [i] joins
    [lk[i]] with [rk[i]], or with [rk[0]] once [i] is past the right list. *)
Lemma key_pairs_wrap (f : string -> string -> string) lk rk : forall indices,
  rk <> [] ->
  (forall i, In i indices -> i < List.length lk) ->
  Server.key_pairs (fun l r => inr (f l r)) lk rk indices
  = inr (map (fun i => f (nth i lk EmptyString)
                         (nth (Server.wrap_index i (List.length rk)) rk EmptyString))
             indices).
Proof.
  intros indices Hrk. induction indices as [|i rest IH]; intros Hlt; simpl; auto.
  assert (Hpos : 0 < List.length rk) by (destruct rk; simpl; [congruence | lia]).
  rewrite (item_nth lk i EmptyString) by (apply Hlt; now left). simpl.
  rewrite (item_nth rk _ EmptyString) by now apply wrap_index_lt. simpl.
  rewrite IH by (intros j Hj; apply Hlt; now right). reflexivity.
Qed.

Lemma sql_join_wraps alias p0 p1 d :
  right_keys_nonempty d ->
  Server.gen_sql_join alias [p0; p1] d
  = inr (alias ++ " AS (" ++ newline
         ++ "  SELECT *" ++ newline
         ++ "  FROM " ++ p0 ++ newline
         ++ "  " ++ Server.upper (str_or (how d) "INNER") ++ " JOIN " ++ p1 ++ newline
         ++ "    ON "
         ++ join " AND "
              (map (fun i =>
                      nth i (map Server.quote_ident (Server.left_keys d)) EmptyString
                      ++ " = "
                      ++ nth (Server.wrap_index i (List.length (Server.right_keys d)))
                             (map Server.quote_ident (Server.right_keys d)) EmptyString)
                   (seq 0 (List.length (Server.left_keys d))))
         ++ newline ++ ")")%string.
Proof.
  intros Hrk. unfold Server.gen_sql_join.
  rewrite (key_pairs_wrap (fun l r => (l ++ " = " ++ r)%string)).
  - simpl Server.abind. now rewrite !length_map.
  - intros H. apply Hrk. now apply map_eq_nil in H.
  - intros i Hi. apply in_seq in Hi. lia.
Qed.

(** C6, evaluated on a join with left keys [a, b] and the single right key
    [x]: the SQL and Spark lowerings pair [b] with [x] again, while the
    pandas lowering hands both lists to [merge] as they are, with no second
    pair. With a blank right list the SQL and Spark lowerings raise
    [IndexError]. *)
Theorem join_lowering_on_short_right_keys :
  Server.gen_sql_join "j" ["l"; "r"] short_join
  = inr ("j AS (" ++ newline ++ "  SELECT *" ++ newline ++ "  FROM l" ++ newline
         ++ "  INNER JOIN r" ++ newline ++ "    ON a = x AND b = x" ++ newline
         ++ ")")%string /\
  Server.gen_spark_join "j" ["l"; "r"] short_join
  = inr "j = l.join(r, on=(l.a == r.x & l.b == r.x), how='inner')" /\
  Server.gen_python_join "j" ["l"; "r"] short_join
  = inr [("j = l.merge(r, how=" ++ dq "inner" ++ ", left_on=[" ++ dq "a" ++ ", "
          ++ dq "b" ++ "], right_on=" ++ dq "x" ++ ")")%string;
         EmptyString] /\
  Server.key_arg (Server.left_keys short_join) = inr (Server.KeyList ["a"; "b"]) /\
  Server.key_arg (Server.right_keys short_join) = inr (Server.OneKey "x") /\
  Server.gen_sql_join "j" ["l"; "r"] blank_join = inl IndexError /\
  Server.gen_spark_join "j" ["l"; "r"] blank_join = inl IndexError.
Proof. repeat split; reflexivity. Qed.

(** ** The null column *)







(** ** The interpreter, node by node *)

Lemma lookup_try_found {V : Type} (d : dict V) k v :
  PyDict.get d k = Some v -> Server.lookup_try d k = inr v.
Proof. intros H. unfold Server.lookup_try. now rewrite H. Qed.



Lemma node_body_sample E parents frames errs nid nd pid rest N :
  type (data nd) = "transform.sample" ->
  Server.is_fraction (data nd) = false ->
  PyDict.get parents nid = Some (pid :: rest) ->
  Server.sample_size (data nd) = inr N ->
  Server.node_body E parents (frames, errs) nid nd
  = match Server.sample_n E (PyDict.get_default frames pid Server.empty_frame)
            (Z.min N (Server.nrows (PyDict.get_default frames pid Server.empty_frame))) with
    | inr df => inr (PyDict.set frames nid df, errs)
    | inl e => inl e
    end.
Proof.
  intros Ht Hf Hp HN. unfold Server.node_body.
  rewrite (lookup_try_found _ _ _ Hp), Ht, Hf, HN. reflexivity.
Qed.

(** A count that does not convert ends the body before the parent is read. *)
Lemma node_body_sample_count E parents frames errs nid nd pids e :
  type (data nd) = "transform.sample" ->
  Server.is_fraction (data nd) = false ->
  PyDict.get parents nid = Some pids ->
  Server.sample_size (data nd) = inl e ->
  Server.node_body E parents (frames, errs) nid nd = inl e.
Proof.
  intros Ht Hf Hp HN. unfold Server.node_body.
  rewrite (lookup_try_found _ _ _ Hp), Ht, Hf, HN. reflexivity.
Qed.

Lemma in_keys_set_same {V : Type} (d : dict V) k v : In k (PyDict.keys (PyDict.set d k v)).
Proof. apply in_keys_set. now left. Qed.

(** Whichever branch runs to its end, it has stored a table for the node. *)
Lemma node_body_sets_frame E parents frames errs nid nd st' :
  Server.node_body E parents (frames, errs) nid nd = inr st' ->
  In nid (PyDict.keys (fst st')).
Proof.
  unfold Server.node_body, Server.abind. intros H.
  break_match_hyp H; try discriminate;
    injection H as <-; simpl; apply in_keys_set_same.
Qed.

Lemma exec_node_sets_frame E parents st nid nd :
  In nid (PyDict.keys (fst (Server.exec_node E parents st nid nd))).
Proof.
  unfold Server.exec_node. destruct st as [frames errs].
  destruct (Server.node_body E parents (frames, errs) nid nd) as [e|st'] eqn:B.
  - unfold Server.node_failed. cbn [fst]. apply in_keys_set_same.
  - eapply node_body_sets_frame; eauto.
Qed.

Lemma node_body_keeps_frames E parents frames errs nid nd st' k :
  Server.node_body E parents (frames, errs) nid nd = inr st' ->
  In k (PyDict.keys frames) -> In k (PyDict.keys (fst st')).
Proof.
  unfold Server.node_body, Server.abind. intros H Hk.
  break_match_hyp H; try discriminate;
    injection H as <-; simpl; apply in_keys_set; now right.
Qed.

Lemma exec_node_keeps_frames E parents st nid nd k :
  In k (PyDict.keys (fst st)) ->
  In k (PyDict.keys (fst (Server.exec_node E parents st nid nd))).
Proof.
  destruct st as [frames errs]. cbn [fst]. intros Hk. unfold Server.exec_node.
  destruct (Server.node_body E parents (frames, errs) nid nd) as [e|st'] eqn:B.
  - unfold Server.node_failed. cbn [fst]. apply in_keys_set. now right.
  - eapply node_body_keeps_frames; eauto.
Qed.

(** The loop attempts every node of the order and never stops early. *)
Lemma exec_nodes_total E id2 parents : forall order st,
  (forall k, In k order -> In k (PyDict.keys id2)) ->
  exists st',
    Server.exec_nodes E id2 parents order st = Ok st' /\
    (forall k, In k order -> In k (PyDict.keys (fst st'))) /\
    (forall k, In k (PyDict.keys (fst st)) -> In k (PyDict.keys (fst st'))).
Proof.
  unfold Server.exec_nodes.
  induction order as [|nid order IH]; intros st Hin.
  - exists st. simpl. repeat split; auto. intros k [].
  - destruct (keys_get id2 nid (Hin nid (or_introl eq_refl))) as [nd Hnd].
    rewrite for_each_cons. unfold PyDict.lookup at 1. rewrite Hnd, !bind_ok.
    destruct (IH (Server.exec_node E parents st nid nd)) as (st' & Hrun & Hall & Hkeep).
    { intros k Hk. apply Hin. now right. }
    exists st'. split; [exact Hrun|]. split.
    + intros k [<-|Hk]; auto. apply Hkeep. apply exec_node_sets_frame.
    + intros k Hk. apply Hkeep. now apply exec_node_keeps_frames.
Qed.

(** A filter without any parent: the fallback [ps[0].copy()] raises in its
    turn, so the outer handler applies and the table is the empty one. *)
Example filter_without_parent :
  Server.exec_node bench_engine [("x", [])] (PyDict.empty, PyDict.empty) "x"
    (job "x" "transform.filter" (Some "age >") None None)
  = ([("x", Server.empty_frame)], [("x", "IndexError: list index out of range")]).
Proof. reflexivity. Qed.

(** ** Sampling rows *)

Lemma bench_engine_samples : sample_contract bench_engine.
Proof.
  intros df k Hk. simpl.
  destruct (Z.ltb_spec k 0); [lia|]. destruct (Z.leb_spec k (Server.nrows df)); [|lia].
  simpl. eexists. split; [reflexivity|].
  unfold Server.nrows in *. simpl. rewrite length_firstn. lia.
Defined.

(** C7. The rows a rows-mode sample node yields. The count every path
    uses is [N = int(n or 100)]. The interpreter bounds it: for every engine
    that keeps the contract of [sample] and for [N >= 0], the node's table
    has exactly [min(N, r)] rows and no error is recorded; a count that does
    not convert is the node's error. The Spark lowering emits the same
    bound, [limit(min(N, __cnt))], and the SQL lowering [USING SAMPLE N
    ROWS]; the pandas lowering emits [sample(n=N)] without the bound. On a
    table of three rows and [n = 5] the interpreter keeps the three rows,
    while the unbounded request for five raises in the engine. And [n = 0]
    reads [100]: the three rows come back whole where [min(n, r)] is zero. *)
Theorem sample_rows_spec :
  (forall E parents frames errs nid nd pid rest N,
     sample_contract E ->
     type (data nd) = "transform.sample" ->
     Server.is_fraction (data nd) = false ->
     PyDict.get parents nid = Some (pid :: rest) ->
     Server.sample_size (data nd) = inr N ->
     (0 <= N)%Z ->
     exists df,
       Server.exec_node E parents (frames, errs) nid nd
       = (PyDict.set frames nid df, errs) /\
       Server.nrows df
       = Z.min N (Server.nrows (PyDict.get_default frames pid Server.empty_frame))) /\
  (forall E parents frames errs nid nd pids e,
     type (data nd) = "transform.sample" ->
     Server.is_fraction (data nd) = false ->
     PyDict.get parents nid = Some pids ->
     Server.sample_size (data nd) = inl e ->
     Server.exec_node E parents (frames, errs) nid nd
     = (PyDict.set frames nid Server.empty_frame,
        PyDict.set errs nid (Server.exn_name e ++ ": " ++ Server.exn_str e)%string)) /\
  (forall float_text v p d N,
     Server.is_fraction d = false ->
     Server.sample_size d = inr N ->
     Server.gen_spark_sample float_text v [p] d
     = inr [("__cnt = " ++ p ++ ".count()")%string;
            (v ++ " = " ++ p ++ ".limit(min(" ++ str_of_Z N ++ ", __cnt))")%string] /\
     Server.gen_sql_sample float_text v [p] d
     = inr (v ++ " AS (SELECT * FROM " ++ p ++ " USING SAMPLE "
            ++ str_of_Z N ++ " ROWS)")%string /\
     Server.gen_python_sample float_text v [p] d
     = inr [(v ++ " = " ++ p ++ ".sample(n=" ++ str_of_Z N
             ++ ", random_state=None)")%string;
            EmptyString]) /\
  (Server.nrows people = 3%Z /\
   Server.exec_node bench_engine bench_parents (bench_frames, PyDict.empty) "x"
     (job "x" "transform.sample" None None (Some (AnyInt 5)))
   = ([("src", people); ("x", people)], PyDict.empty) /\
   Server.gen_python_sample (fun _ => unsupported) "x" ["src"]
     (data (job "x" "transform.sample" None None (Some (AnyInt 5))))
   = inr ["x = src.sample(n=5, random_state=None)"; EmptyString] /\
   Server.sample_n bench_engine people 5
   = inl (PyExc "ValueError"
            "Cannot take a larger sample than population when 'replace=False'")) /\
  (Server.exec_node bench_engine bench_parents (bench_frames, PyDict.empty) "x"
     (job "x" "transform.sample" None None (Some (AnyInt 0)))
   = ([("src", people); ("x", people)], PyDict.empty) /\
   Z.min 0 (Server.nrows people) = 0%Z).
Proof.
  split; [|split; [|split; [|split]]].
  - intros E parents frames errs nid nd pid rest N Hc Ht Hf Hp HN Hpos.
    set (p0 := PyDict.get_default frames pid Server.empty_frame).
    destruct (Hc p0 (Z.min N (Server.nrows p0))) as (df & Hs & Hrows).
    { unfold Server.nrows. lia. }
    exists df. split; [|exact Hrows].
    unfold Server.exec_node.
    rewrite (node_body_sample E parents frames errs nid nd pid rest N Ht Hf Hp HN).
    fold p0. now rewrite Hs.
  - intros E parents frames errs nid nd pids e Ht Hf Hp HN.
    unfold Server.exec_node.
    now rewrite (node_body_sample_count E parents frames errs nid nd pids e Ht Hf Hp HN).
  - intros ft v p d N Hf HN.
    unfold Server.gen_spark_sample, Server.gen_sql_sample, Server.gen_python_sample.
    rewrite Hf, HN. repeat split.
  - repeat split.
  - repeat split.
Qed.

Lemma sample_rows_spec_witness :
  exists df,
    Server.exec_node bench_engine bench_parents (bench_frames, PyDict.empty) "x"
      (job "x" "transform.sample" None None (Some (AnyStr " 2 ")))
    = (PyDict.set bench_frames "x" df, PyDict.empty) /\
    Server.nrows df = Z.min 2 (Server.nrows (PyDict.get_default bench_frames "src"
                                               Server.empty_frame)).
Proof.
  refine (proj1 sample_rows_spec bench_engine bench_parents bench_frames
            PyDict.empty "x"
            (job "x" "transform.sample" None None (Some (AnyStr " 2 "))) "src" [] 2%Z
            bench_engine_samples eq_refl eq_refl eq_refl eq_refl _).
  lia.
Defined.

(** How the count is read: a text is parsed as [int()] does, and only the
    falsy values fall back to 100. *)
Example counts_read :
  Server.int_or_100 None = inr 100%Z /\
  Server.int_or_100 (Some (AnyInt 0)) = inr 100%Z /\
  Server.int_or_100 (Some (AnyStr EmptyString)) = inr 100%Z /\
  Server.int_or_100 (Some (AnyStr "0")) = inr 0%Z /\
  Server.int_or_100 (Some (AnyStr " -1_000 ")) = inr (-1000)%Z /\
  Server.int_or_100 (Some (AnyStr "abc"))
  = inl (PyExc "ValueError" "invalid literal for int() with base 10: 'abc'") /\
  Server.int_or_100 (Some (AnyStr "1__0"))
  = inl (PyExc "ValueError" "invalid literal for int() with base 10: '1__0'").
Proof. repeat split. Qed.

(** A count that does not convert: the interpreter records it, the
    generators raise it. *)
Example count_does_not_convert :
  Server.exec_node bench_engine bench_parents (bench_frames, PyDict.empty) "x"
    (job "x" "transform.sample" None None (Some (AnyStr "abc")))
  = ([("src", people); ("x", Server.empty_frame)],
     [("x", "ValueError: invalid literal for int() with base 10: 'abc'")]) /\
  Server.gen_sql_sample (fun _ => unsupported) "x" ["src"]
    (data (job "x" "transform.sample" None None (Some (AnyStr "abc"))))
  = inl (PyExc "ValueError" "invalid literal for int() with base 10: 'abc'").
Proof. split; reflexivity. Qed.

(* ================================================================== *)
(** * Further properties of the code                                    *)
(* ================================================================== *)

(** ** Edges that name unknown nodes *)

Lemma count_edges_keys : forall edges inc0 outs0 inc outs,
  for_each count_edge edges (inc0, outs0) = Ok (inc, outs) ->
  PyDict.keys outs = PyDict.keys outs0.
Proof.
  induction edges as [|e edges IH]; intros inc0 outs0 inc outs H; simpl in H.
  - now injection H as <- <-.
  - unfold count_edge at 1, PyDict.lookup in H.
    destruct (PyDict.get outs0 (source e)) as [l|] eqn:G; simpl in H; [|discriminate].
    apply IH in H. rewrite H. apply keys_set_present. eapply get_Some_keys; eauto.
Qed.

Lemma count_edges_raise : forall pre e post inc0 outs0,
  (forall e', In e' pre -> In (source e') (PyDict.keys outs0)) ->
  ~ In (source e) (PyDict.keys outs0) ->
  for_each count_edge (pre ++ e :: post) (inc0, outs0) = Raise (KeyError (source e)).
Proof.
  intros pre e post inc0 outs0 Hpre He. rewrite for_each_app.
  destruct (count_edges_spec pre inc0 outs0 Hpre) as (inc & outs & Hrun & _ & _).
  rewrite Hrun, bind_ok, for_each_cons.
  unfold count_edge at 1, PyDict.lookup.
  assert (G : PyDict.get outs (source e) = None).
  { apply get_None_keys. now rewrite (count_edges_keys _ _ _ _ _ Hrun). }
  now rewrite G.
Qed.

Lemma topo_sort_returns nodes edges :
  (forall e, In e edges -> In (source e) (ids nodes)) ->
  exists order, Server.topo_sort nodes edges = Ok order /\
                List.length order = List.length nodes.
Proof.
  intros Hsrc.
  destruct (count_edges_spec edges (dict_of_ids nodes 0%Z) (dict_of_ids nodes []))
    as (inc & outs & Hrun & _ & _).
  { intros e He. apply in_keys_dict_of_ids. now apply Hsrc. }
  pose proof (proj1 (topo_sorts_end nodes edges)) as Hend.
  unfold Server.topo_sort in *. rewrite Hrun, bind_ok in *. cbv zeta in *.
  destruct (Server.sort_loop _ _ _ _ _) as [order| |] eqn:L; simpl in *.
  - destruct (Nat.eqb_spec (List.length order) (List.length nodes)); simpl.
    + eauto.
    + exists (ids nodes). split; auto. apply length_map.
  - exfalso. eapply (sort_loop_no_raise outs); [|exact L].
    apply (count_edges_targets edges _ _ inc outs Hrun).
    intros s t. rewrite get_default_dict_of_ids. intros [].
  - congruence.
Qed.

Lemma topo_returns nodes edges :
  (forall e, In e edges -> In (source e) (ids nodes)) ->
  exists order, Optimizer._topo nodes edges = Ok order /\
                List.length order = List.length nodes.
Proof.
  intros Hsrc.
  destruct (count_edges_spec edges (dict_of_ids nodes 0%Z) (dict_of_ids nodes []))
    as (inc & outs & Hrun & _ & _).
  { intros e He. apply in_keys_dict_of_ids. now apply Hsrc. }
  pose proof (proj2 (topo_sorts_end nodes edges)) as Hend.
  unfold Optimizer._topo in *. rewrite Hrun, bind_ok in *. cbv zeta in *.
  rewrite loops_agree in *.
  destruct (Server.sort_loop _ _ _ _ _) as [order| |] eqn:L; simpl in *.
  - destruct (Nat.eqb_spec (List.length order) (List.length nodes)); simpl.
    + eauto.
    + exists (ids nodes). split; auto. apply length_map.
  - exfalso. eapply (sort_loop_no_raise outs); [|exact L].
    apply (count_edges_targets edges _ _ inc outs Hrun).
    intros s t. rewrite get_default_dict_of_ids. intros [].
  - congruence.
Qed.

(** X1. Both sorts fail on exactly one kind of input: an edge whose source
    is not a node id. They raise [KeyError] for the first such edge in edge
    order; when there is none they return, whatever the targets and however
    often an id is repeated, and the list they return is as long as the
    node list. (Its entries need not be the node ids: see
    [topo_lists_a_stranger].) *)
Theorem topo_unknown_source nodes edges :
  ((forall e, In e edges -> In (source e) (ids nodes)) ->
     (exists order, Server.topo_sort nodes edges = Ok order /\
                    List.length order = List.length nodes) /\
     (exists order, Optimizer._topo nodes edges = Ok order /\
                    List.length order = List.length nodes)) /\
  (forall pre e post,
     edges = pre ++ e :: post ->
     (forall e', In e' pre -> In (source e') (ids nodes)) ->
     ~ In (source e) (ids nodes) ->
     Server.topo_sort nodes edges = Raise (KeyError (source e)) /\
     Optimizer._topo nodes edges = Raise (KeyError (source e))).
Proof.
  split.
  - intros Hsrc. split; [now apply topo_sort_returns | now apply topo_returns].
  - intros pre e post -> Hpre He.
    assert (Hrun : for_each count_edge (pre ++ e :: post)
                     (dict_of_ids nodes 0%Z, dict_of_ids nodes [])
                   = Raise (KeyError (source e))).
    { apply count_edges_raise.
      - intros e' He'. apply in_keys_dict_of_ids. auto.
      - intros H. apply He. now apply in_keys_dict_of_ids in H. }
    unfold Server.topo_sort, Optimizer._topo. now rewrite Hrun.
Qed.

(** With an edge target that is no node, the list can name that target in
    the place of a node: [z] is queued when its counter falls to zero,
    while [c], held back by its own loop, never is; the two lengths agree
    and the fallback to the caller's order is not taken. *)
Example topo_lists_a_stranger :
  Server.topo_sort [plain "a"; plain "c"] [mkEdge "a" "z"; mkEdge "c" "c"]
  = Ok ["a"; "z"] /\
  Optimizer._topo [plain "a"; plain "c"] [mkEdge "a" "z"; mkEdge "c" "c"]
  = Ok ["a"; "z"].
Proof. split; reflexivity. Qed.

Lemma topo_unknown_source_witness :
  Server.topo_sort line_nodes stray_edges = Raise (KeyError "z") /\
  Optimizer._topo line_nodes stray_edges = Raise (KeyError "z").
Proof.
  refine (proj2 (topo_unknown_source line_nodes stray_edges)
            [mkEdge "a" "b"] (mkEdge "z" "c") [mkEdge "b" "c"] eq_refl _ _).
  - intros e' [<-|[]]. simpl. auto.
  - simpl. intuition discriminate.
Defined.

Lemma add_preds_keys : forall edges (p0 p : dict (list string)),
  for_each Server.add_pred edges p0 = Ok p -> PyDict.keys p = PyDict.keys p0.
Proof.
  induction edges as [|e edges IH]; intros p0 p H; simpl in H.
  - now injection H as <-.
  - unfold Server.add_pred at 1, PyDict.lookup in H.
    destruct (PyDict.get p0 (target e)) as [l|] eqn:G; simpl in H; [|discriminate].
    apply IH in H. rewrite H. apply keys_set_present. eapply get_Some_keys; eauto.
Qed.

Lemma add_preds_raise : forall pre e post (p0 : dict (list string)),
  (forall e', In e' pre -> In (target e') (PyDict.keys p0)) ->
  ~ In (target e) (PyDict.keys p0) ->
  for_each Server.add_pred (pre ++ e :: post) p0 = Raise (KeyError (target e)).
Proof.
  intros pre e post p0 Hpre He. rewrite for_each_app.
  destruct (add_preds_spec pre p0 Hpre) as (p & Hrun & _).
  rewrite Hrun, bind_ok, for_each_cons.
  unfold Server.add_pred at 1, PyDict.lookup.
  assert (G : PyDict.get p (target e) = None).
  { apply get_None_keys. now rewrite (add_preds_keys _ _ _ Hrun). }
  now rewrite G.
Qed.

(** X2. For a non-empty target the optimizer's pruning always returns, and
    the server's [subgraph_up_to] returns the same pair as long as every
    edge ends at a node id; on the first edge that ends elsewhere the
    server's version raises [KeyError] for that id, where the optimizer's
    version still prunes. *)
Theorem subgraph_unknown_target nodes edges tid :
  tid <> EmptyString ->
  (exists n2 e2, Optimizer.prune_dead nodes edges (Some tid) = Ok (n2, e2)) /\
  ((forall e, In e edges -> In (target e) (ids nodes)) ->
     Server.subgraph_up_to nodes edges (Some tid)
     = Optimizer.prune_dead nodes edges (Some tid)) /\
  (forall pre e post,
     edges = pre ++ e :: post ->
     (forall e', In e' pre -> In (target e') (ids nodes)) ->
     ~ In (target e) (ids nodes) ->
     Server.subgraph_up_to nodes edges (Some tid) = Raise (KeyError (target e))).
Proof.
  intros Hne.
  assert (Hne' : nonempty tid = true) by (destruct tid; [congruence | reflexivity]).
  split; [|split].
  - destruct (prune_dead_run nodes edges tid Hne') as (keep & _ & Hrun). eauto.
  - intros Ht. now apply subgraph_up_to_run.
  - intros pre e post -> Hpre He.
    unfold Server.subgraph_up_to. rewrite Hne'. simpl negb. cbv iota.
    rewrite add_preds_raise; auto.
    + intros e' He'. apply in_keys_dict_of_ids. auto.
    + intros H. apply He. now apply in_keys_dict_of_ids in H.
Qed.

Lemma subgraph_unknown_target_witness :
  (exists n2 e2, Optimizer.prune_dead line_nodes dangling_edges (Some "b") = Ok (n2, e2)) /\
  Server.subgraph_up_to line_nodes dangling_edges (Some "b") = Raise (KeyError "y").
Proof.
  assert (H : "b" <> EmptyString) by discriminate.
  destruct (subgraph_unknown_target line_nodes dangling_edges "b" H) as (H1 & _ & H3).
  split; [exact H1|].
  refine (H3 [mkEdge "a" "b"] (mkEdge "b" "y") [] eq_refl _ _).
  - intros e' [<-|[]]. simpl. auto.
  - simpl. intuition discriminate.
Defined.

(** ** Pruning twice *)

Lemma filter_all {A : Type} (p : A -> bool) (l : list A) :
  (forall x, In x l -> p x = true) -> filter p l = l.
Proof.
  induction l as [|x l IH]; simpl; intros H; auto.
  rewrite (H x (or_introl eq_refl)). f_equal. apply IH. auto.
Qed.

Lemma walk_in_subgraph E E' t :
  (forall a b, In (mkEdge a b) E -> ancestor E t a -> ancestor E t b ->
               In (mkEdge a b) E') ->
  forall s, walk E s t -> walk E' s t.
Proof.
  intros Hsub s Hw. induction Hw as [s t He | s m t He Hw IH].
  - apply walk_edge. apply Hsub; auto.
    + right. now apply walk_edge.
    + now left.
  - apply walk_step with (m := m).
    + apply Hsub; auto.
      * right. eapply walk_step; eauto.
      * now right.
    + apply IH. exact Hsub.
Qed.

(** X3. Pruning is idempotent: pruning the pruned graph towards the same
    target gives the pruned graph back, for every node list, edge list and
    target (well formed or not). *)
Theorem prune_dead_idempotent nodes edges target_id n2 e2 :
  Optimizer.prune_dead nodes edges target_id = Ok (n2, e2) ->
  Optimizer.prune_dead n2 e2 target_id = Ok (n2, e2).
Proof.
  intros H. destruct target_id as [tid|]; [|simpl in *; congruence].
  destruct (nonempty tid) eqn:Hne.
  2:{ unfold Optimizer.prune_dead in *. rewrite Hne in *. simpl in *. congruence. }
  destruct (prune_dead_run nodes edges tid Hne) as (keep & Hkeep & Hrun).
  rewrite Hrun in H. injection H as <- <-.
  set (n2 := filter (fun nd => mem_str (id nd) keep) nodes).
  set (e2 := filter (fun e => mem_str (source e) keep && mem_str (target e) keep) edges).
  destruct (prune_dead_run n2 e2 tid Hne) as (keep2 & Hkeep2 & Hrun2).
  rewrite Hrun2.
  assert (Hup : forall x, In x keep -> In x keep2).
  { intros x Hx. apply Hkeep2. apply Hkeep in Hx.
    destruct Hx as [->|Hw]; [now left | right].
    apply (walk_in_subgraph edges e2 tid); auto.
    intros a b Hab Ha Hb. unfold e2. apply filter_In. split; auto. simpl.
    apply andb_true_iff. split; apply mem_str_In; now apply Hkeep. }
  f_equal. f_equal.
  - apply filter_all. intros nd Hnd. unfold n2 in Hnd. apply filter_In in Hnd.
    apply mem_str_In. apply Hup. apply mem_str_In. tauto.
  - apply filter_all. intros e He. unfold e2 in He. apply filter_In in He.
    destruct He as [_ He]. apply andb_true_iff in He.
    apply andb_true_iff. split; apply mem_str_In; apply Hup; apply mem_str_In; tauto.
Qed.

Lemma prune_dead_idempotent_witness :
  Optimizer.prune_dead [plain "a"; plain "b"] [mkEdge "a" "b"] (Some "b")
  = Ok ([plain "a"; plain "b"], [mkEdge "a" "b"]).
Proof.
  exact (prune_dead_idempotent line_nodes line_edges (Some "b")
           [plain "a"; plain "b"] [mkEdge "a" "b"] eq_refl).
Defined.

(** ** The id map *)

Lemma find_snoc {A : Type} (p : A -> bool) l x :
  find p (l ++ [x])
  = match find p l with
    | Some y => Some y
    | None => if p x then Some x else None
    end.
Proof.
  induction l as [|y l IH]; simpl; auto.
  destruct (p y); auto.
Qed.

Lemma id_map_fold : forall nodes (d : dict Node) k,
  PyDict.get (fold_left (fun d nd => PyDict.set d (id nd) nd) nodes d) k
  = match find (fun nd => id nd =? k) (rev nodes) with
    | Some nd => Some nd
    | None => PyDict.get d k
    end.
Proof.
  induction nodes as [|x r IH]; intros d k; simpl; auto.
  rewrite IH, find_snoc.
  destruct (find (fun nd => id nd =? k) (rev r)); auto.
  destruct (String.eqb_spec (id x) k) as [<-|Hne].
  - apply get_set_same.
  - now apply get_set_other.
Qed.

(** X4. Looking an id up in [id_map nodes] gives the last node of the list
    that carries this id, and nothing for an id that no node carries; the
    node found has the id it is stored under. With pairwise distinct ids
    every node is found under its own id. *)
Theorem id_map_lookup nodes k :
  PyDict.get (id_map nodes) k = find (fun nd => id nd =? k) (rev nodes) /\
  (forall nd, PyDict.get (id_map nodes) k = Some nd -> id nd = k /\ In nd nodes) /\
  (PyDict.get (id_map nodes) k = None <-> ~ In k (ids nodes)) /\
  (NoDup (ids nodes) ->
   forall nd, In nd nodes -> PyDict.get (id_map nodes) (id nd) = Some nd).
Proof.
  assert (Hget : forall k', PyDict.get (id_map nodes) k'
                            = find (fun nd => id nd =? k') (rev nodes)).
  { intros k'. unfold id_map. rewrite id_map_fold.
    now destruct (find _ (rev nodes)). }
  split; [apply Hget|]. split; [|split].
  - intros nd H. rewrite Hget in H. apply find_some in H.
    destruct H as [Hin Hid]. split; [now apply String.eqb_eq | now apply in_rev].
  - rewrite Hget. split.
    + intros Hnone Hin. unfold ids in Hin. apply in_map_iff in Hin.
      destruct Hin as (nd & Hid & Hnd).
      pose proof (find_none _ _ Hnone nd (proj1 (in_rev _ _) Hnd)) as Hf.
      simpl in Hf. apply String.eqb_neq in Hf. congruence.
    + intros Hn. destruct (find _ (rev nodes)) as [nd|] eqn:F; auto.
      exfalso. apply find_some in F. destruct F as [Hin Hid].
      apply Hn. apply String.eqb_eq in Hid. subst k.
      apply in_map. now apply in_rev.
  - intros Hnd nd Hin. rewrite Hget.
    destruct (find _ (rev nodes)) as [nd'|] eqn:F.
    + apply find_some in F. destruct F as [Hin' Hid].
      apply String.eqb_eq in Hid. apply in_rev in Hin'. f_equal.
      clear Hget. induction nodes as [|x r IH]; [destruct Hin|].
      simpl in Hnd. apply NoDup_cons_iff in Hnd. destruct Hnd as [Hx Hr].
      destruct Hin as [->|Hin]; destruct Hin' as [->|Hin']; auto.
      * exfalso. apply Hx. rewrite <- Hid. now apply in_map.
      * exfalso. apply Hx. rewrite Hid. now apply in_map.
    + exfalso. pose proof (find_none _ _ F nd (proj1 (in_rev _ _) Hin)) as Hf.
      simpl in Hf. now rewrite String.eqb_refl in Hf.
Qed.

Lemma id_map_lookup_witness :
  PyDict.get (id_map line_nodes) (id (plain "a")) = Some (plain "a").
Proof.
  assert (H : NoDup (ids line_nodes))
    by (repeat constructor; simpl; intuition discriminate).
  refine (proj2 (proj2 (proj2 (id_map_lookup line_nodes "a"))) H (plain "a") _).
  simpl. auto.
Defined.

(** ** Parents and children *)

Lemma get_default_setdefault (p : dict (list string)) k t :
  PyDict.get_default (Optimizer.setdefault p k []) t [] = PyDict.get_default p t [].
Proof.
  unfold Optimizer.setdefault.
  destruct (PyDict.get p k) eqn:G; auto.
  destruct (string_dec k t) as [<-|Hne].
  - rewrite get_default_set_same. unfold PyDict.get_default. now rewrite G.
  - now apply get_default_set_other.
Qed.

Lemma in_keys_setdefault {V : Type} (p : dict V) k v x :
  In x (PyDict.keys (Optimizer.setdefault p k v)) <-> x = k \/ In x (PyDict.keys p).
Proof.
  unfold Optimizer.setdefault. destruct (PyDict.get p k) eqn:G.
  - split; auto. intros [->|]; auto. eapply get_Some_keys; eauto.
  - apply in_keys_set.
Qed.

Lemma parents_fold : forall E (p : dict (list string)) t,
  PyDict.get_default
    (fold_left (fun p e =>
       Optimizer.setdefault
         (PyDict.set p (target e) (PyDict.get_default p (target e) [] ++ [source e]))
         (source e) []) E p) t []
  = PyDict.get_default p t [] ++ preds_of E t.
Proof.
  induction E as [|e E IH]; intros p t; simpl.
  - unfold preds_of. simpl. now rewrite app_nil_r.
  - rewrite IH, get_default_setdefault. unfold preds_of. simpl.
    destruct (String.eqb_spec (target e) t) as [<-|Hne].
    + rewrite get_default_set_same. simpl. now rewrite <- app_assoc.
    + now rewrite get_default_set_other by assumption.
Qed.

Lemma children_fold : forall E (c : dict (list string)) s,
  PyDict.get_default
    (fold_left (fun c e =>
       Optimizer.setdefault
         (PyDict.set c (source e) (PyDict.get_default c (source e) [] ++ [target e]))
         (target e) []) E c) s []
  = PyDict.get_default c s [] ++ succs E s.
Proof.
  induction E as [|e E IH]; intros c s; simpl.
  - unfold succs. simpl. now rewrite app_nil_r.
  - rewrite IH, get_default_setdefault. unfold succs. simpl.
    destruct (String.eqb_spec (source e) s) as [<-|Hne].
    + rewrite get_default_set_same. simpl. now rewrite <- app_assoc.
    + now rewrite get_default_set_other by assumption.
Qed.

Lemma succs_In E s t : In t (succs E s) <-> In (mkEdge s t) E.
Proof.
  unfold succs. rewrite in_map_iff. split.
  - intros (e & <- & He). apply filter_In in He. destruct He as [He Hs].
    apply String.eqb_eq in Hs. subst s. now destruct e.
  - intros H. exists (mkEdge s t). split; auto.
    apply filter_In. split; auto. apply String.eqb_refl.
Qed.

(** X5. [_parents] lists, for every node, the sources of its incoming edges
    in edge order, and [_children] the targets of its outgoing edges in edge
    order, a repeated edge being listed once per occurrence; the two are
    dual: [s] is among the parents of [t] exactly when [t] is among the
    children of [s], exactly when the edge [s -> t] is in the list. *)
Theorem parents_children_dual edges s t :
  PyDict.get_default (Optimizer._parents edges) t [] = preds_of edges t /\
  PyDict.get_default (Optimizer._children edges) s [] = succs edges s /\
  List.length (PyDict.get_default (Optimizer._parents edges) t []) = indeg edges t /\
  (In s (PyDict.get_default (Optimizer._parents edges) t [])
   <-> In (mkEdge s t) edges) /\
  (In t (PyDict.get_default (Optimizer._children edges) s [])
   <-> In (mkEdge s t) edges).
Proof.
  assert (Hp : forall t', PyDict.get_default (Optimizer._parents edges) t' []
                          = preds_of edges t').
  { intros t'. unfold Optimizer._parents. now rewrite parents_fold. }
  assert (Hc : forall s', PyDict.get_default (Optimizer._children edges) s' []
                          = succs edges s').
  { intros s'. unfold Optimizer._children. now rewrite children_fold. }
  rewrite Hp, Hc. repeat split; try (apply preds_of_In); try (apply succs_In).
  unfold preds_of, indeg. apply length_map.
Qed.

(** ** The closing loop over the edges *)

Lemma edge_key_eqb_eq a b : Optimizer.edge_key_eqb a b = true <-> a = b.
Proof.
  unfold Optimizer.edge_key_eqb. rewrite andb_true_iff, !String.eqb_eq.
  destruct a, b; simpl. split.
  - intros [-> ->]. reflexivity.
  - intros H. injection H as -> ->. auto.
Qed.

Lemma seen_In e seen : existsb (Optimizer.edge_key_eqb e) seen = true <-> In e seen.
Proof.
  rewrite existsb_exists. split.
  - intros (x & Hx & He). apply edge_key_eqb_eq in He. now subst.
  - intros H. exists e. split; auto. now apply edge_key_eqb_eq.
Qed.

Lemma uniq_edges_from keep : forall edges seen,
  NoDup (Optimizer.uniq_edges keep seen edges) /\
  forall e, In e (Optimizer.uniq_edges keep seen edges) <->
            In e edges /\ ~ In e seen /\ In (source e) keep /\ In (target e) keep.
Proof.
  induction edges as [|x edges IH]; intros seen; simpl.
  - split; [constructor | intros e; tauto].
  - destruct (existsb (Optimizer.edge_key_eqb x) seen) eqn:S; simpl.
    + apply seen_In in S. destruct (IH seen) as [Hnd Hin]. split; auto.
      intros e. rewrite Hin. split; [tauto|].
      intros [[<-|He] H]; tauto.
    + assert (Hs : ~ In x seen)
        by (intros H; apply seen_In in H; congruence).
      destruct (mem_str (source x) keep) eqn:Ms; simpl.
      * destruct (mem_str (target x) keep) eqn:Mt; simpl.
        -- apply mem_str_In in Ms, Mt.
           destruct (IH (x :: seen)) as [Hnd Hin]. split.
           ++ constructor; auto. intros H. apply Hin in H. simpl in H. tauto.
           ++ intros e. simpl. rewrite Hin. simpl. split.
              ** intros [<-|H]; tauto.
              ** intros [[<-|He] H]; auto.
                 destruct (edge_key_eqb_eq x e) as [_ _].
                 destruct (Optimizer.edge_key_eqb x e) eqn:K.
                 --- apply edge_key_eqb_eq in K. auto.
                 --- right. repeat split; try tauto.
                     intros [Heq|Hse]; [|tauto].
                     subst. rewrite (proj2 (edge_key_eqb_eq e e) eq_refl) in K.
                     discriminate.
        -- apply mem_str_false in Mt. destruct (IH seen) as [Hnd Hin]. split; auto.
           intros e. rewrite Hin. split; [tauto|].
           intros [[<-|He] H]; tauto.
      * apply mem_str_false in Ms. destruct (IH seen) as [Hnd Hin]. split; auto.
        intros e. rewrite Hin. split; [tauto|].
        intros [[<-|He] H]; tauto.
Qed.

(** X6. The closing loop of [combine_redundant] keeps an edge exactly when
    both its ends are surviving ids, and keeps it once: the result has no
    repeated (source, target) pair. *)
Theorem uniq_edges_spec keep_ids edges :
  NoDup (Optimizer.uniq_edges keep_ids [] edges) /\
  forall e, In e (Optimizer.uniq_edges keep_ids [] edges) <->
            In e edges /\ In (source e) keep_ids /\ In (target e) keep_ids.
Proof.
  destruct (uniq_edges_from keep_ids edges []) as [Hnd Hin].
  split; auto. intros e. rewrite Hin. simpl. tauto.
Qed.

(** ** The other fusion rules *)

Lemma and_expr_cases e1 e2 :
  (e1 = EmptyString -> Optimizer.and_expr e1 e2 = e2) /\
  (e1 <> EmptyString -> e2 = EmptyString -> Optimizer.and_expr e1 e2 = e1) /\
  (e1 <> EmptyString -> e2 <> EmptyString ->
     Optimizer.and_expr e1 e2 = ("(" ++ e1 ++ ") AND (" ++ e2 ++ ")")%string).
Proof.
  unfold Optimizer.and_expr. destruct e1, e2; simpl; repeat split; congruence.
Qed.

(** X7. Second rule. When a filter has, as its single parent, another
    filter, the step writes to the parent the conjunction of the two
    stripped predicates: the other one when one of them is empty, and
    [(P) AND (N)] when both are not. The child is dropped, with its two
    edges spliced into one, exactly when it has one incoming and one
    outgoing edge at that moment; otherwise it stays and so do the edges. *)
Theorem filter_filter_fusion parents children id2 edges nid nd pin pnode :
  NoDup (PyDict.keys id2) ->
  PyDict.get id2 nid = Some nd ->
  Optimizer.is_filter nd = true ->
  Optimizer.one_parent parents nid = true ->
  Optimizer.first_parent parents nid = pin ->
  pin <> nid ->
  PyDict.get id2 pin = Some pnode ->
  Optimizer.is_filter pnode = true ->
  let e1 := strip (str_or (expr (data pnode)) EmptyString) in
  let e2 := strip (str_or (expr (data nd)) EmptyString) in
  let ins := filter (fun e => target e =? nid) edges in
  let outs := filter (fun e => source e =? nid) edges in
  let after := Optimizer.fuse_step parents children (id2, edges) nid in
  (exists pnode',
     PyDict.get (fst after) pin = Some pnode' /\
     id pnode' = id pnode /\
     type (data pnode') = type (data pnode) /\
     columns (data pnode') = columns (data pnode) /\
     (e1 = EmptyString -> expr (data pnode') = Some e2) /\
     (e1 <> EmptyString -> e2 = EmptyString -> expr (data pnode') = Some e1) /\
     (e1 <> EmptyString -> e2 <> EmptyString ->
        expr (data pnode') = Some ("(" ++ e1 ++ ") AND (" ++ e2 ++ ")")%string)) /\
  (List.length ins = 1 /\ List.length outs = 1 ->
     PyDict.get (fst after) nid = None /\
     exists i o, ins = [i] /\ outs = [o] /\
       snd after
       = filter (fun e => negb (source e =? nid) && negb (target e =? nid)) edges
           ++ [mkEdge (source i) (target o)]) /\
  (~ (List.length ins = 1 /\ List.length outs = 1) ->
     PyDict.get (fst after) nid = Some nd /\ snd after = edges).
Proof.
  intros Hnd Hn Hf Hone Hpin Hne Hp Hpf e1 e2 ins outs after.
  assert (Hafter : after = Optimizer._remove_node
            (PyDict.set id2 pin (Optimizer.with_expr pnode (Optimizer.and_expr e1 e2)))
            edges nid).
  { unfold after. now apply fuse_filter_filter. }
  set (pnode' := Optimizer.with_expr pnode (Optimizer.and_expr e1 e2)) in *.
  assert (Hcases : {List.length ins = 1 /\ List.length outs = 1}
                 + {~ (List.length ins = 1 /\ List.length outs = 1)}).
  { destruct (Nat.eq_dec (List.length ins) 1); destruct (Nat.eq_dec (List.length outs) 1);
      auto; right; tauto. }
  destruct (and_expr_cases e1 e2) as (Ha & Hb & Hc).
  split; [|split].
  - exists pnode'. split.
    + rewrite Hafter. destruct Hcases as [[H1 H2]|Hno].
      * destruct (length_one _ H1) as [i Hi]. destruct (length_one _ H2) as [o Ho].
        rewrite (remove_node_splice _ edges nid i o Hi Ho). simpl fst.
        rewrite get_pop_other by congruence. apply get_set_same.
      * rewrite remove_node_noop by exact Hno. simpl fst. apply get_set_same.
    + simpl. repeat split; intros; f_equal; auto.
  - intros [H1 H2]. rewrite Hafter.
    destruct (length_one _ H1) as [i Hi]. destruct (length_one _ H2) as [o Ho].
    rewrite (remove_node_splice _ edges nid i o Hi Ho). simpl. split.
    + apply get_pop_same. now apply NoDup_keys_set.
    + exists i, o. auto.
  - intros Hno. rewrite Hafter, remove_node_noop by exact Hno. simpl.
    split; auto. now rewrite get_set_other.
Qed.

Lemma filter_filter_fusion_witness :
  let after := Optimizer.fuse_step (Optimizer._parents sieve_edges)
                 (Optimizer._children sieve_edges) (id_map sieve_nodes, sieve_edges) "q" in
  (exists pnode',
     PyDict.get (fst after) "p" = Some pnode' /\
     expr (data pnode') = Some "(x>1) AND (y<5)") /\
  PyDict.get (fst after) "q" = None /\
  snd after = [mkEdge "s" "p"; mkEdge "p" "k"].
Proof.
  intros after.
  assert (Hnd : NoDup (PyDict.keys (id_map sieve_nodes)))
    by (repeat constructor; simpl; intuition discriminate).
  assert (Hpq : "p" <> "q") by discriminate.
  pose proof (filter_filter_fusion
                (Optimizer._parents sieve_edges) (Optimizer._children sieve_edges)
                (id_map sieve_nodes) sieve_edges "q"
                (step "q" "transform.filter" None (Some "y<5")) "p"
                (step "p" "transform.filter" None (Some "x>1"))
                Hnd eq_refl eq_refl eq_refl eq_refl Hpq eq_refl eq_refl)
    as (Hparent & Hdrop & _).
  split.
  - destruct Hparent as (pnode' & Hg & _ & _ & _ & _ & _ & Hboth).
    exists pnode'. split; [exact Hg|].
    apply Hboth; vm_compute; discriminate.
  - destruct (Hdrop (conj eq_refl eq_refl)) as [Hgone _].
    split; [exact Hgone | reflexivity].
Defined.

(** X8. A turn of the fusion sweep changes nothing unless the node is a
    select or a filter whose recorded parent list has length one and whose
    parent is still in the dictionary with the same type. In particular a
    select that keeps every column is left in place when its parent is not a
    select: the [continue] of the first rule skips the third rule. *)
Theorem fuse_step_leaves_alone parents children id2 edges nid :
  (PyDict.get id2 nid = None \/
   exists nd, PyDict.get id2 nid = Some nd /\
     ((Optimizer.is_select nd = false /\ Optimizer.is_filter nd = false) \/
      Optimizer.one_parent parents nid = false \/
      PyDict.get id2 (Optimizer.first_parent parents nid) = None \/
      exists pnode,
        PyDict.get id2 (Optimizer.first_parent parents nid) = Some pnode /\
        ((Optimizer.is_select nd = true /\ Optimizer.is_select pnode = false) \/
         (Optimizer.is_filter nd = true /\ Optimizer.is_filter pnode = false)))) ->
  Optimizer.fuse_step parents children (id2, edges) nid = (id2, edges).
Proof.
  intros [Hn | (nd & Hn & H)]; unfold Optimizer.fuse_step; rewrite Hn; auto.
  unfold Optimizer.rule_select_select.
  destruct H as [[Hs Hf] | [Hone | [Hp | (pnode & Hp & [[Hs Hps] | [Hf Hpf]])]]].
  - rewrite Hs. cbv beta iota zeta delta [andb].
    unfold Optimizer.rule_filter_filter. rewrite Hf.
    cbv beta iota zeta delta [andb].
    unfold Optimizer.rule_identity_select. now rewrite Hs.
  - rewrite Hone, andb_false_r. cbv beta iota zeta.
    unfold Optimizer.rule_filter_filter. rewrite Hone, andb_false_r.
    cbv beta iota zeta.
    unfold Optimizer.rule_identity_select. rewrite Hone.
    destruct (Optimizer.is_select nd); [|reflexivity].
    now rewrite andb_false_r.
  - rewrite Hp.
    destruct (Optimizer.is_select nd) eqn:Hs;
      destruct (Optimizer.one_parent parents nid) eqn:Hone;
      cbv beta iota zeta delta [andb]; auto;
      unfold Optimizer.rule_filter_filter; rewrite Hone, ?Hp;
      try rewrite (select_not_filter nd Hs);
      cbv beta iota zeta delta [andb];
      unfold Optimizer.rule_identity_select; rewrite ?Hs, ?Hone, ?andb_false_r;
      cbv beta iota zeta; auto.
    + destruct (Optimizer.is_filter nd); cbv beta iota zeta delta [andb]; auto.
      now rewrite Hs.
    + destruct (Optimizer.is_filter nd); cbv beta iota zeta delta [andb]; auto;
        now rewrite Hs.
  - rewrite Hs, Hp, Hps.
    destruct (Optimizer.one_parent parents nid) eqn:Hone;
      cbv beta iota zeta delta [andb negb]; auto.
    unfold Optimizer.rule_filter_filter. rewrite (select_not_filter nd Hs).
    cbv beta iota zeta delta [andb].
    unfold Optimizer.rule_identity_select. now rewrite Hs, Hone, andb_false_r.
  - rewrite (filter_not_select nd Hf). cbv beta iota zeta delta [andb].
    unfold Optimizer.rule_filter_filter. rewrite Hf, Hp, Hpf.
    destruct (Optimizer.one_parent parents nid);
      cbv beta iota zeta delta [andb negb]; auto.
    unfold Optimizer.rule_identity_select. now rewrite (filter_not_select nd Hf).
Qed.

Lemma fuse_step_leaves_alone_witness :
  Optimizer.fuse_step (Optimizer._parents pass_edges) (Optimizer._children pass_edges)
    (id_map pass_nodes, pass_edges) "w"
  = (id_map pass_nodes, pass_edges).
Proof.
  apply fuse_step_leaves_alone. right.
  exists (step "w" "transform.select" None None). split; [reflexivity|].
  right. right. right.
  exists (step "s" "source.csv" None None). split; [reflexivity|].
  left. split; reflexivity.
Defined.

Example identity_select_kept :
  Optimizer.combine_redundant pass_nodes pass_edges = Ok (pass_nodes, pass_edges).
Proof. reflexivity. Qed.

Lemma get_pop_Some {V : Type} (d : dict V) k k' v :
  NoDup (PyDict.keys d) ->
  PyDict.get (PyDict.pop d k) k' = Some v -> PyDict.get d k' = Some v.
Proof.
  intros Hnd H. destruct (string_dec k k') as [<-|Hne].
  - rewrite get_pop_same in H by assumption. discriminate.
  - now rewrite get_pop_other in H.
Qed.

Lemma remove_node_keeps_payloads nodes edges nid k nd :
  NoDup (PyDict.keys nodes) ->
  PyDict.get (fst (Optimizer._remove_node nodes edges nid)) k = Some nd ->
  PyDict.get nodes k = Some nd.
Proof.
  intros Hnd. unfold Optimizer._remove_node.
  destruct ((_ =? 1)%nat && (_ =? 1)%nat); auto.
  destruct (filter (fun e => target e =? nid) edges); auto.
  destruct (filter (fun e => source e =? nid) edges); auto.
  simpl. now apply get_pop_Some.
Qed.

Lemma fuse_wild_parent parents children id2 edges nid nd pin pnode :
  PyDict.get id2 nid = Some nd ->
  Optimizer.is_select nd = true ->
  Optimizer.one_parent parents nid = true ->
  Optimizer.first_parent parents nid = pin ->
  PyDict.get id2 pin = Some pnode ->
  Optimizer.is_select pnode = true ->
  strip (str_or (columns (data pnode)) "*") = "*" ->
  strip (str_or (columns (data nd)) "*") <> "*" ->
  nonempty (strip (str_or (columns (data nd)) "*")) = true ->
  Optimizer.fuse_step parents children (id2, edges) nid
  = Optimizer._remove_node id2 edges pin.
Proof.
  intros Hn Hsel Hone Hpin Hp Hpsel Hc1 Hc2 Hc2'.
  apply String.eqb_eq in Hc1. apply String.eqb_neq in Hc2.
  unfold Optimizer.fuse_step. rewrite Hn.
  unfold Optimizer.rule_select_select.
  rewrite Hsel, Hone, Hpin, Hp, Hpsel, Hc1, Hc2.
  cbv beta iota zeta delta [andb negb].
  rewrite (remove_node_pair id2 edges pin).
  unfold Optimizer.rule_filter_filter.
  rewrite (select_not_filter nd Hsel). cbv beta iota zeta delta [andb].
  unfold Optimizer.rule_identity_select.
  rewrite Hsel, Hc2', Hc2. reflexivity.
Qed.

Lemma fuse_wild_child parents children id2 edges nid nd pin pnode :
  NoDup (PyDict.keys id2) ->
  PyDict.get id2 nid = Some nd ->
  Optimizer.is_select nd = true ->
  Optimizer.one_parent parents nid = true ->
  Optimizer.first_parent parents nid = pin ->
  PyDict.get id2 pin = Some pnode ->
  Optimizer.is_select pnode = true ->
  strip (str_or (columns (data pnode)) "*") <> "*" ->
  strip (str_or (columns (data nd)) "*") = "*" ->
  Optimizer.fuse_step parents children (id2, edges) nid
  = Optimizer._remove_node id2 edges nid.
Proof.
  intros Hnd Hn Hsel Hone Hpin Hp Hpsel Hc1 Hc2.
  apply String.eqb_neq in Hc1. apply String.eqb_eq in Hc2.
  unfold Optimizer.fuse_step. rewrite Hn.
  unfold Optimizer.rule_select_select.
  rewrite Hsel, Hone, Hpin, Hp, Hpsel, Hc1, Hc2.
  cbv beta iota zeta delta [andb negb].
  rewrite (remove_node_pair id2 edges nid).
  unfold Optimizer.rule_filter_filter.
  rewrite (select_not_filter nd Hsel). cbv beta iota zeta delta [andb].
  now rewrite identity_select_after.
Qed.

Lemma fuse_wild_both parents children id2 edges nid nd pin pnode :
  PyDict.get id2 nid = Some nd ->
  Optimizer.is_select nd = true ->
  Optimizer.one_parent parents nid = true ->
  Optimizer.first_parent parents nid = pin ->
  PyDict.get id2 pin = Some pnode ->
  Optimizer.is_select pnode = true ->
  strip (str_or (columns (data pnode)) "*") = "*" ->
  strip (str_or (columns (data nd)) "*") = "*" ->
  Optimizer.fuse_step parents children (id2, edges) nid
  = if Optimizer.one_parent children nid
    then Optimizer._remove_node id2 edges nid
    else (id2, edges).
Proof.
  intros Hn Hsel Hone Hpin Hp Hpsel Hc1 Hc2.
  pose proof Hc2 as Hc2s.
  apply String.eqb_eq in Hc1, Hc2.
  unfold Optimizer.fuse_step. rewrite Hn.
  unfold Optimizer.rule_select_select.
  rewrite Hsel, Hone, Hpin, Hp, Hpsel, Hc1, Hc2.
  cbv beta iota zeta delta [andb negb].
  unfold Optimizer.rule_filter_filter.
  rewrite (select_not_filter nd Hsel). cbv beta iota zeta delta [andb].
  unfold Optimizer.rule_identity_select.
  rewrite Hsel, Hone, Hc2, Hc2s. simpl.
  destruct (Optimizer.one_parent children nid); auto.
  now destruct (Optimizer._remove_node id2 edges nid).
Qed.

(** X9. First rule with a wildcard. For a select whose single parent is a
    select: when only the parent keeps every column, the parent is the one
    spliced out; when only the child does, the child is; when both do, the
    child is spliced out if its recorded child list has length one. Each
    splice is subject to the one-in, one-out test of [_remove_node], and no
    payload is rewritten: every node that is left is as it was. *)
Theorem wildcard_select_fusion parents children id2 edges nid nd pin pnode :
  NoDup (PyDict.keys id2) ->
  PyDict.get id2 nid = Some nd ->
  Optimizer.is_select nd = true ->
  Optimizer.one_parent parents nid = true ->
  Optimizer.first_parent parents nid = pin ->
  PyDict.get id2 pin = Some pnode ->
  Optimizer.is_select pnode = true ->
  let cols1 := strip (str_or (columns (data pnode)) "*") in
  let cols2 := strip (str_or (columns (data nd)) "*") in
  let after := Optimizer.fuse_step parents children (id2, edges) nid in
  (cols1 = "*" -> cols2 <> "*" -> cols2 <> EmptyString ->
     after = Optimizer._remove_node id2 edges pin) /\
  (cols1 <> "*" -> cols2 = "*" ->
     after = Optimizer._remove_node id2 edges nid) /\
  (cols1 = "*" -> cols2 = "*" ->
     after = if Optimizer.one_parent children nid
             then Optimizer._remove_node id2 edges nid
             else (id2, edges)) /\
  (cols1 = "*" \/ cols2 = "*" -> cols2 <> EmptyString ->
     forall k nd', PyDict.get (fst after) k = Some nd' -> PyDict.get id2 k = Some nd').
Proof.
  intros Hnd Hn Hsel Hone Hpin Hp Hpsel cols1 cols2 after.
  assert (H1 : cols1 = "*" -> cols2 <> "*" -> cols2 <> EmptyString ->
               after = Optimizer._remove_node id2 edges pin).
  { intros Hc1 Hc2 Hc2'. unfold after.
    eapply fuse_wild_parent; eauto. fold cols2. now destruct cols2. }
  assert (H2 : cols1 <> "*" -> cols2 = "*" ->
               after = Optimizer._remove_node id2 edges nid).
  { intros Hc1 Hc2. unfold after. eapply fuse_wild_child; eauto. }
  assert (H3 : cols1 = "*" -> cols2 = "*" ->
               after = if Optimizer.one_parent children nid
                       then Optimizer._remove_node id2 edges nid
                       else (id2, edges)).
  { intros Hc1 Hc2. unfold after. eapply fuse_wild_both; eauto. }
  repeat split; auto.
  intros Hwild Hne k nd' Hg.
  destruct (string_dec cols1 "*") as [Hc1|Hc1];
    destruct (string_dec cols2 "*") as [Hc2|Hc2].
  - rewrite (H3 Hc1 Hc2) in Hg.
    destruct (Optimizer.one_parent children nid); auto.
    eapply remove_node_keeps_payloads; eauto.
  - rewrite (H1 Hc1 Hc2 Hne) in Hg. eapply remove_node_keeps_payloads; eauto.
  - rewrite (H2 Hc1 Hc2) in Hg. eapply remove_node_keeps_payloads; eauto.
  - tauto.
Qed.

Lemma wildcard_select_fusion_witness :
  Optimizer.fuse_step (Optimizer._parents narrow_edges) (Optimizer._children narrow_edges)
    (id_map narrow_nodes, narrow_edges) "w"
  = Optimizer._remove_node (id_map narrow_nodes) narrow_edges "w".
Proof.
  assert (Hnd : NoDup (PyDict.keys (id_map narrow_nodes)))
    by (repeat constructor; simpl; intuition discriminate).
  refine (proj1 (proj2 (wildcard_select_fusion
            (Optimizer._parents narrow_edges) (Optimizer._children narrow_edges)
            (id_map narrow_nodes) narrow_edges "w"
            (step "w" "transform.select" (Some "*") None) "p"
            (step "p" "transform.select" (Some "a,b") None)
            Hnd eq_refl eq_refl eq_refl eq_refl eq_refl eq_refl)) _ _).
  - vm_compute. discriminate.
  - reflexivity.
Defined.

Example fuse_narrow_pipeline :
  Optimizer.combine_redundant narrow_nodes narrow_edges
  = Ok ([step "s" "source.csv" None None;
         step "p" "transform.select" (Some "a,b") None;
         step "k" "sink.csv" None None],
        [mkEdge "s" "p"; mkEdge "p" "k"]).
Proof. reflexivity. Qed.

(** ** What the sweep keeps true of the node dictionary *)

Lemma id_map_keys_NoDup : forall nodes (d : dict Node),
  NoDup (PyDict.keys d) ->
  NoDup (PyDict.keys (fold_left (fun d nd => PyDict.set d (id nd) nd) nodes d)).
Proof.
  induction nodes as [|x r IH]; simpl; intros d H; auto.
  apply IH. now apply NoDup_keys_set.
Qed.

Lemma tracks_id_map nodes : tracks nodes (id_map nodes).
Proof.
  split.
  - unfold id_map. apply id_map_keys_NoDup. constructor.
  - intros k nd' H. unfold id_map in H. rewrite id_map_fold in H.
    destruct (find (fun nd => id nd =? k) (rev nodes)) as [nd|] eqn:F;
      [|discriminate].
    injection H as <-. apply find_some in F. destruct F as [Hin Hid].
    apply String.eqb_eq in Hid. apply in_rev in Hin. eauto.
Qed.

Lemma tracks_set_payload nodes d pin pnode nd' :
  tracks nodes d ->
  PyDict.get d pin = Some pnode ->
  id nd' = id pnode ->
  type (data nd') = type (data pnode) ->
  tracks nodes (PyDict.set d pin nd').
Proof.
  intros [Hnd Hall] Hp Hid Hty. split; [now apply NoDup_keys_set|].
  intros k x Hg. destruct (string_dec pin k) as [<-|Hne].
  - rewrite get_set_same in Hg. injection Hg as <-.
    destruct (Hall pin pnode Hp) as (Hpid & nd & Hin & Hnid & Hnty).
    split; [congruence|]. exists nd. repeat split; auto. congruence.
  - rewrite get_set_other in Hg by assumption. auto.
Qed.

Lemma tracks_set_columns nodes d pin pnode c :
  tracks nodes d -> PyDict.get d pin = Some pnode ->
  tracks nodes (PyDict.set d pin (Optimizer.with_columns pnode c)).
Proof. intros. eapply tracks_set_payload; eauto. Qed.

Lemma tracks_set_expr nodes d pin pnode e :
  tracks nodes d -> PyDict.get d pin = Some pnode ->
  tracks nodes (PyDict.set d pin (Optimizer.with_expr pnode e)).
Proof. intros. eapply tracks_set_payload; eauto. Qed.

Lemma tracks_pop nodes d k : tracks nodes d -> tracks nodes (PyDict.pop d k).
Proof.
  intros [Hnd Hall]. split; [now apply NoDup_keys_pop|].
  intros k' x Hg. apply Hall. eapply get_pop_Some; eauto.
Qed.

Lemma tracks_remove_node nodes d edges k d' e' :
  tracks nodes d -> Optimizer._remove_node d edges k = (d', e') -> tracks nodes d'.
Proof.
  intros Ht. unfold Optimizer._remove_node.
  destruct ((_ =? 1)%nat && (_ =? 1)%nat); [|congruence].
  destruct (filter (fun e => target e =? k) edges); [congruence|].
  destruct (filter (fun e => source e =? k) edges); [congruence|].
  intros H. injection H as <- _. now apply tracks_pop.
Qed.

Lemma rule_select_select_tracks nodes parents nid d edges nd :
  tracks nodes d ->
  tracks nodes (flow_dict (Optimizer.rule_select_select parents nid (d, edges, nd))).
Proof.
  intros Ht. unfold Optimizer.rule_select_select.
  break_goal; simpl;
    eauto using tracks_remove_node, tracks_set_columns.
Qed.

Lemma rule_filter_filter_tracks nodes parents nid d edges nd :
  tracks nodes d ->
  tracks nodes (flow_dict (Optimizer.rule_filter_filter parents nid (d, edges, nd))).
Proof.
  intros Ht. unfold Optimizer.rule_filter_filter.
  break_goal; simpl;
    eauto using tracks_remove_node, tracks_set_expr.
Qed.

Lemma rule_identity_select_tracks nodes parents children nid d edges nd :
  tracks nodes d ->
  tracks nodes
    (fst (fst (Optimizer.rule_identity_select parents children nid (d, edges, nd)))).
Proof.
  intros Ht. unfold Optimizer.rule_identity_select.
  break_goal; simpl; eauto using tracks_remove_node.
Qed.

Lemma fuse_step_tracks nodes parents children st nid :
  tracks nodes (fst st) ->
  tracks nodes (fst (Optimizer.fuse_step parents children st nid)).
Proof.
  destruct st as [d edges]. cbn [fst]. intros Ht. unfold Optimizer.fuse_step.
  destruct (PyDict.get d nid) as [nd|]; [|exact Ht].
  pose proof (rule_select_select_tracks nodes parents nid d edges nd Ht) as H1.
  destruct (Optimizer.rule_select_select parents nid (d, edges, nd))
    as [[[d1 e1] n1]|[[d1 e1] n1]]; simpl in H1; [|exact H1].
  pose proof (rule_filter_filter_tracks nodes parents nid d1 e1 n1 H1) as H2.
  destruct (Optimizer.rule_filter_filter parents nid (d1, e1, n1))
    as [[[d2 e2] n2]|[[d2 e2] n2]]; simpl in H2; [|exact H2].
  pose proof (rule_identity_select_tracks nodes parents children nid d2 e2 n2 H2) as H3.
  destruct (Optimizer.rule_identity_select parents children nid (d2, e2, n2))
    as [[d3 e3] n3]. exact H3.
Qed.

Lemma fuse_sweep_tracks nodes parents children : forall order st,
  tracks nodes (fst st) ->
  tracks nodes (fst (fold_left (Optimizer.fuse_step parents children) order st)).
Proof.
  induction order as [|nid order IH]; intros st Ht; simpl; auto.
  apply IH. now apply fuse_step_tracks.
Qed.

(** ** The optimizer maps graphs to graphs *)

Lemma nodes_out_survivors (id2 : dict Node) : forall order acc,
  for_each (fun acc i =>
              if mem_str i (PyDict.keys id2)
              then nd <- PyDict.lookup id2 i ;; Ok (acc ++ [nd])
              else Ok acc) order acc
  = Ok (acc ++ survivors id2 order).
Proof.
  induction order as [|i order IH]; intros acc; simpl.
  - now rewrite app_nil_r.
  - destruct (mem_str i (PyDict.keys id2)) eqn:M.
    + apply mem_str_In in M. destruct (keys_get id2 i M) as [nd Hnd].
      unfold PyDict.lookup. rewrite Hnd. simpl. rewrite IH.
      now rewrite <- app_assoc.
    + apply mem_str_false in M. apply get_None_keys in M. rewrite M.
      simpl. apply IH.
Qed.

Lemma survivors_ids nodes (id2 : dict Node) : forall order,
  tracks nodes id2 ->
  ids (survivors id2 order) = filter (fun i => mem_str i (PyDict.keys id2)) order.
Proof.
  intros order [_ Hall]. induction order as [|i order IH]; simpl; auto.
  destruct (PyDict.get id2 i) as [nd|] eqn:G.
  - assert (M : mem_str i (PyDict.keys id2) = true)
      by (apply mem_str_In; eapply get_Some_keys; eauto).
    rewrite M. simpl. rewrite IH. f_equal. now apply Hall.
  - assert (M : mem_str i (PyDict.keys id2) = false)
      by (apply mem_str_false; now apply get_None_keys).
    now rewrite M.
Qed.

Lemma survivors_In (id2 : dict Node) order nd :
  In nd (survivors id2 order) -> exists i, In i order /\ PyDict.get id2 i = Some nd.
Proof.
  unfold survivors. rewrite in_flat_map. intros (i & Hi & H).
  exists i. split; auto. destruct (PyDict.get id2 i); simpl in H; [|tauto].
  destruct H as [<-|[]]. reflexivity.
Qed.

Lemma survivors_length (id2 : dict Node) order :
  List.length (survivors id2 order) <= List.length order.
Proof.
  induction order as [|i order IH]; simpl; auto.
  destruct (PyDict.get id2 i); simpl; lia.
Qed.

(** On a well-formed graph the optimizer's order holds every node id once. *)
Lemma topo_covers nodes edges :
  graph_wf nodes edges ->
  exists order,
    Optimizer._topo nodes edges = Ok order /\
    NoDup order /\ incl (ids nodes) order /\ List.length order = List.length nodes.
Proof.
  intros Hwf. pose proof Hwf as [Hnd Hin].
  destruct (topo_sort_run nodes edges Hwf) as (out & inc & Hinv & Hres).
  destruct (kahn_final_edges _ _ _ Hin _ _ Hinv) as (Hndo & Hsub & _).
  rewrite (topo_agree nodes edges Hnd), Hres.
  destruct (Nat.eqb_spec (List.length out) (List.length nodes)) as [Hlen|Hlen].
  - exists out. repeat split; auto.
    apply (@NoDup_length_incl _ out (ids nodes) Hndo); auto.
    unfold ids. rewrite length_map. lia.
  - exists (ids nodes). repeat split; auto.
    + apply incl_refl.
    + apply length_map.
Qed.

Lemma combine_redundant_run nodes edges :
  graph_wf nodes edges ->
  exists nodes' edges',
    Optimizer.combine_redundant nodes edges = Ok (nodes', edges') /\
    graph_wf nodes' edges' /\
    NoDup edges' /\
    (forall nd', In nd' nodes' ->
       exists nd, In nd nodes /\ id nd = id nd' /\ type (data nd) = type (data nd')) /\
    List.length nodes' <= List.length nodes.
Proof.
  intros Hwf.
  destruct (topo_covers nodes edges Hwf) as (order & Htopo & Hndo & Hcov & Hlen).
  unfold Optimizer.combine_redundant. rewrite Htopo, bind_ok.
  pose proof (fuse_sweep_tracks nodes (Optimizer._parents edges)
                (Optimizer._children edges) order (id_map nodes, edges)
                (tracks_id_map nodes)) as Htr.
  destruct (fold_left _ order (id_map nodes, edges)) as [id2' edges'].
  simpl in Htr. rewrite nodes_out_survivors, bind_ok. simpl app.
  exists (survivors id2' order), (Optimizer.uniq_edges (PyDict.keys id2') [] edges').
  destruct (uniq_edges_from (PyDict.keys id2') edges' []) as [Hnde Hine].
  assert (Hids : ids (survivors id2' order)
                 = filter (fun i => mem_str i (PyDict.keys id2')) order)
    by now apply (survivors_ids nodes).
  assert (Hkey : forall k, In k (PyDict.keys id2') -> In k (ids (survivors id2' order))).
  { intros k Hk. rewrite Hids. apply filter_In. split.
    - destruct (keys_get id2' k Hk) as [nd' Hg].
      destruct (proj2 Htr k nd' Hg) as (_ & nd & Hin & Hid & _).
      apply Hcov. rewrite <- Hid. now apply in_map.
    - now apply mem_str_In. }
  split; [reflexivity|]. split; [|split; [|split]].
  - split.
    + rewrite Hids. now apply NoDup_filter.
    + intros e He. apply Hine in He. split; apply Hkey; tauto.
  - exact Hnde.
  - intros nd' Hin. apply survivors_In in Hin. destruct Hin as (i & _ & Hg).
    destruct (proj2 Htr i nd' Hg) as (Hid & nd & Hnd & Hnid & Hty).
    exists nd. repeat split; auto. congruence.
  - rewrite <- Hlen. apply survivors_length.
Qed.

(** X10. Fusion maps a well-formed graph to a well-formed graph: it
    returns, the ids of its output nodes are pairwise distinct, no output
    edge is repeated, and every output edge joins two output nodes. It never
    invents a node: each output node has the id and the type of an input
    node, so the output has at most as many nodes as the input. *)
Theorem combine_redundant_wf nodes edges :
  graph_wf nodes edges ->
  exists nodes' edges',
    Optimizer.combine_redundant nodes edges = Ok (nodes', edges') /\
    graph_wf nodes' edges' /\
    NoDup edges' /\
    (forall nd', In nd' nodes' ->
       exists nd, In nd nodes /\ id nd = id nd' /\ type (data nd) = type (data nd')) /\
    List.length nodes' <= List.length nodes.
Proof. apply combine_redundant_run. Qed.

Lemma combine_redundant_wf_witness :
  exists nodes' edges',
    Optimizer.combine_redundant line_nodes line_edges = Ok (nodes', edges') /\
    graph_wf nodes' edges' /\
    NoDup edges' /\
    (forall nd', In nd' nodes' ->
       exists nd, In nd line_nodes /\ id nd = id nd' /\ type (data nd) = type (data nd')) /\
    List.length nodes' <= List.length line_nodes.
Proof. exact (combine_redundant_wf line_nodes line_edges line_graph_wf). Defined.

Lemma prune_dead_wf nodes edges target_id :
  graph_wf nodes edges ->
  exists n2 e2,
    Optimizer.prune_dead nodes edges target_id = Ok (n2, e2) /\
    graph_wf n2 e2 /\ incl n2 nodes.
Proof.
  intros Hwf. pose proof Hwf as [Hnd Hin].
  destruct target_id as [tid|];
    [|exists nodes, edges; split; [reflexivity|split; [exact Hwf|apply incl_refl]]].
  destruct (nonempty tid) eqn:Hne.
  2:{ exists nodes, edges. unfold Optimizer.prune_dead. rewrite Hne.
      split; [reflexivity|split; [exact Hwf|apply incl_refl]]. }
  destruct (prune_dead_run nodes edges tid Hne) as (keep & Hkeep & Hrun).
  rewrite Hrun. eexists. eexists. split; [reflexivity|]. split; [split|].
  - rewrite <- (filter_map_ids (fun k => mem_str k keep)). now apply NoDup_filter.
  - intros e He. apply filter_In in He. destruct He as [He Hk].
    apply andb_true_iff in Hk.
    rewrite <- (filter_map_ids (fun k => mem_str k keep)).
    split; apply filter_In; split; try tauto; now apply Hin.
  - apply incl_filter.
Qed.

(** X11. [optimize] composes the two passes and keeps graphs well formed:
    on a well-formed graph, for every target (absent, empty, a node or not),
    it returns a well-formed graph without repeated edges, each of whose
    nodes has the id and the type of an input node. *)
Theorem optimize_wf nodes edges target_id :
  graph_wf nodes edges ->
  exists nodes' edges',
    Optimizer.optimize nodes edges target_id = Ok (nodes', edges') /\
    graph_wf nodes' edges' /\
    NoDup edges' /\
    (forall nd', In nd' nodes' ->
       exists nd, In nd nodes /\ id nd = id nd' /\ type (data nd) = type (data nd')) /\
    List.length nodes' <= List.length nodes.
Proof.
  intros Hwf.
  destruct (prune_dead_wf nodes edges target_id Hwf) as (n2 & e2 & Hp & Hwf2 & Hsub).
  destruct (combine_redundant_run n2 e2 Hwf2) as (n3 & e3 & Hc & Hwf3 & Hnd & Hfrom & Hlen).
  exists n3, e3. unfold Optimizer.optimize. rewrite Hp, bind_ok.
  split; [exact Hc|]. split; [exact Hwf3|]. split; [exact Hnd|]. split.
  - intros nd' Hin. destruct (Hfrom nd' Hin) as (nd & Hnd2 & Hid & Hty).
    exists nd. repeat split; auto.
  - assert (List.length n2 <= List.length nodes); [|lia].
    apply NoDup_incl_length; auto.
    destruct Hwf2 as [Hnd2 _]. now apply NoDup_map_inv in Hnd2.
Qed.

Lemma optimize_wf_witness :
  exists nodes' edges',
    Optimizer.optimize line_nodes line_edges (Some "b") = Ok (nodes', edges') /\
    graph_wf nodes' edges' /\
    NoDup edges' /\
    (forall nd', In nd' nodes' ->
       exists nd, In nd line_nodes /\ id nd = id nd' /\ type (data nd) = type (data nd')) /\
    List.length nodes' <= List.length line_nodes.
Proof. exact (optimize_wf line_nodes line_edges (Some "b") line_graph_wf). Defined.

(** ** The interpreter as a whole *)

Lemma id_map_in_keys nodes k : In k (ids nodes) -> In k (PyDict.keys (id_map nodes)).
Proof.
  intros Hin. unfold ids in Hin. apply in_map_iff in Hin.
  destruct Hin as (nd & Hid & Hnd).
  destruct (PyDict.get (id_map nodes) k) as [nd'|] eqn:G.
  - eapply get_Some_keys; eauto.
  - exfalso. unfold id_map in G. rewrite id_map_fold in G.
    destruct (find (fun nd => id nd =? k) (rev nodes)) eqn:F; [discriminate|].
    pose proof (find_none _ _ F nd (proj1 (in_rev _ _) Hnd)) as Hf.
    simpl in Hf. apply String.eqb_neq in Hf. congruence.
Qed.

Lemma subgraph_up_to_wf nodes edges preview_id :
  graph_wf nodes edges ->
  exists n2 e2,
    Server.subgraph_up_to nodes edges preview_id = Ok (n2, e2) /\
    graph_wf n2 e2 /\ incl n2 nodes.
Proof.
  intros Hwf. pose proof Hwf as [Hnd Hin].
  destruct preview_id as [tid|]; [|exact (prune_dead_wf nodes edges None Hwf)].
  destruct (nonempty tid) eqn:Hne.
  - rewrite subgraph_up_to_run; [|exact Hne|intros e He; now apply Hin].
    exact (prune_dead_wf nodes edges (Some tid) Hwf).
  - exists nodes, edges. unfold Server.subgraph_up_to. rewrite Hne.
    split; [reflexivity|split; [exact Hwf|apply incl_refl]].
Qed.

Lemma topo_sort_within nodes edges :
  graph_wf nodes edges ->
  exists order, Server.topo_sort nodes edges = Ok order /\ incl order (ids nodes).
Proof.
  intros Hwf. pose proof Hwf as [Hnd Hin].
  destruct (topo_sort_run nodes edges Hwf) as (out & inc & Hinv & Hres).
  destruct (kahn_final_edges _ _ _ Hin _ _ Hinv) as (_ & Hsub & _).
  rewrite Hres. destruct (_ =? _)%nat; eexists; split; eauto using incl_refl.
Qed.

Lemma node_body_error_keys E parents frames errs nid nd st' k :
  Server.node_body E parents (frames, errs) nid nd = inr st' ->
  In k (PyDict.keys (snd st')) -> k = nid \/ In k (PyDict.keys errs).
Proof.
  unfold Server.node_body, Server.abind. intros H Hk.
  break_match_hyp H; try discriminate;
    injection H as <-; simpl in Hk; auto;
    apply in_keys_set in Hk; destruct Hk; auto.
Qed.

Lemma exec_node_error_keys E parents st nid nd k :
  In k (PyDict.keys (snd (Server.exec_node E parents st nid nd))) ->
  k = nid \/ In k (PyDict.keys (snd st)).
Proof.
  destruct st as [frames errs]. unfold Server.exec_node.
  destruct (Server.node_body E parents (frames, errs) nid nd) as [e|st'] eqn:B.
  - unfold Server.node_failed. cbn [fst snd]. intros Hk.
    apply in_keys_set in Hk. destruct Hk; auto.
  - cbn [snd]. eapply node_body_error_keys; eauto.
Qed.

Lemma exec_nodes_error_keys E id2 parents : forall order st st' k,
  Server.exec_nodes E id2 parents order st = Ok st' ->
  In k (PyDict.keys (snd st')) -> In k order \/ In k (PyDict.keys (snd st)).
Proof.
  unfold Server.exec_nodes.
  induction order as [|nid order IH]; intros st st' k Hrun Hk.
  - simpl in Hrun. injection Hrun as <-. now right.
  - rewrite for_each_cons in Hrun.
    destruct (PyDict.lookup id2 nid) as [nd| |]; try discriminate.
    rewrite !bind_ok in Hrun.
    destruct (IH _ _ k Hrun Hk) as [H|H].
    + left. now right.
    + apply exec_node_error_keys in H. destruct H as [->|H]; [left; now left|now right].
Qed.

(** The part of [exec_workflow_pandas] that follows the cut to the
    previewed node. *)
Lemma exec_after_cut E n2 e2 :
  graph_wf n2 e2 ->
  exists order parents frames errs,
    Server.topo_sort n2 e2 = Ok order /\
    incl order (ids n2) /\
    for_each Server.add_pred e2 (dict_of_ids n2 []) = Ok parents /\
    Server.exec_nodes E (id_map n2) parents order (PyDict.empty, PyDict.empty)
    = Ok (frames, errs) /\
    (forall k, In k order -> In k (PyDict.keys frames)) /\
    incl (PyDict.keys errs) order.
Proof.
  intros Hwf. pose proof Hwf as [Hnd Hin].
  destruct (topo_sort_within n2 e2 Hwf) as (order & Htopo & Hsub).
  destruct (add_preds_spec e2 (dict_of_ids n2 [])) as (parents & Hpar & _).
  { intros e He. apply in_keys_dict_of_ids. now apply Hin. }
  destruct (exec_nodes_total E (id_map n2) parents order (PyDict.empty, PyDict.empty))
    as ([frames errs] & Hrun & Hall & _).
  { intros k Hk. apply id_map_in_keys. now apply Hsub. }
  exists order, parents, frames, errs. repeat split; auto.
  intros k Hk. destruct (exec_nodes_error_keys _ _ _ _ _ _ k Hrun Hk) as [H|[]].
  exact H.
Qed.

Lemma last_frame (frames : dict Server.DataFrame) order :
  (forall k, In k order -> In k (PyDict.keys frames)) ->
  exists df,
    match rev order with
    | [] => Ok Server.empty_frame
    | last :: _ => PyDict.lookup frames last
    end = Ok df.
Proof.
  intros Hall. destruct (rev order) as [|l r] eqn:R; [eauto|].
  assert (Hl : In l order) by (apply in_rev; rewrite R; now left).
  destruct (keys_get frames l (Hall l Hl)) as [df Hdf].
  exists df. unfold PyDict.lookup. now rewrite Hdf.
Qed.

(** X12. On a well-formed graph the interpreter returns, whatever the
    engine does and whatever the preview id is (absent, empty, a node or
    not): no exception leaves [exec_workflow_pandas]. Every key of the error
    map it returns is the id of an input node. *)
Theorem exec_workflow_pandas_returns E nodes edges preview_id :
  graph_wf nodes edges ->
  exists df errs,
    Server.exec_workflow_pandas E nodes edges preview_id = Ok (df, errs) /\
    incl (PyDict.keys errs) (ids nodes).
Proof.
  intros Hwf.
  destruct (subgraph_up_to_wf nodes edges preview_id Hwf) as (n2 & e2 & Hcut & Hwf2 & Hsub).
  destruct (exec_after_cut E n2 e2 Hwf2)
    as (order & parents & frames & errs & Htopo & Hord & Hpar & Hrun & Hall & Herr).
  destruct (last_frame frames order Hall) as [df Hdf].
  exists df, errs. split.
  - unfold Server.exec_workflow_pandas.
    rewrite Hcut, bind_ok, Htopo, bind_ok, Hpar, bind_ok, Hrun, bind_ok, Hdf.
    reflexivity.
  - intros k Hk. apply Herr, Hord in Hk. unfold ids in *.
    apply in_map_iff in Hk. destruct Hk as (nd & <- & Hnd).
    apply in_map. now apply Hsub.
Qed.

Lemma exec_workflow_pandas_returns_witness :
  exists df errs,
    Server.exec_workflow_pandas bench_engine line_nodes line_edges (Some "b")
    = Ok (df, errs) /\
    incl (PyDict.keys errs) (ids line_nodes).
Proof.
  exact (exec_workflow_pandas_returns bench_engine line_nodes line_edges (Some "b")
           line_graph_wf).
Defined.

Lemma walk_incl E E' :
  incl E' E -> forall s t, walk E' s t -> walk E s t.
Proof.
  intros Hsub s t Hw. induction Hw as [s t He | s m t He _ IH].
  - apply walk_edge. now apply Hsub.
  - eapply walk_step; eauto.
Qed.

(** In an acyclic graph all of whose nodes reach [tid], the order ends with
    [tid]. *)
Lemma topo_sort_ends_with nodes edges tid :
  graph_wf nodes edges -> acyclic edges ->
  In tid (ids nodes) ->
  (forall x, In x (ids nodes) -> ancestor edges tid x) ->
  exists pre, Server.topo_sort nodes edges = Ok (pre ++ [tid]).
Proof.
  intros Hwf Hac Htid Hanc. pose proof Hwf as [Hnd Hin].
  destruct (topo_sort_run nodes edges Hwf) as (out & inc & Hinv & Hres).
  destruct (kahn_final_edges _ _ _ Hin _ _ Hinv) as (Hndo & Hsub & Hbef & _ & _).
  pose proof (kahn_complete_of_acyclic _ _ _ Hin _ _ Hinv Hac) as Hall.
  assert (Hlen : List.length out = List.length nodes).
  { rewrite <- (length_map id nodes). fold (ids nodes).
    apply Nat.le_antisymm; apply NoDup_incl_length; auto. }
  rewrite Hlen, Nat.eqb_refl in Hres. rewrite Hres.
  destruct (exists_last (l := out)) as (pre & l & Hout).
  { intros ->. destruct (Hall tid Htid). }
  exists pre. rewrite Hout.
  assert (Hl : In l (ids nodes))
    by (apply Hsub; rewrite Hout; apply in_or_app; right; now left).
  destruct (Hanc l Hl) as [Heq|Hw]; [now rewrite Heq|exfalso].
  assert (Hb : before l tid out)
    by (apply (walk_before edges out Hndo Hbef l tid Hw); now apply Hall).
  destruct Hb as (l1 & l2 & l3 & Hsplit).
  rewrite Hout in Hndo.
  assert (Heq : pre ++ l :: [] = l1 ++ l :: (l2 ++ tid :: l3)) by congruence.
  destruct (NoDup_split_unique l pre [] l1 (l2 ++ tid :: l3) Hndo Heq) as [_ Hnil].
  destruct l2; discriminate.
Qed.

(** The cut towards a node of the graph keeps a well-formed graph of
    ancestors of the node, the node among them. *)
Lemma subgraph_of_target nodes edges tid :
  graph_wf nodes edges -> nonempty tid = true -> In tid (ids nodes) ->
  exists n2 e2,
    Server.subgraph_up_to nodes edges (Some tid) = Ok (n2, e2) /\
    graph_wf n2 e2 /\ incl e2 edges /\ In tid (ids n2) /\
    (forall x, In x (ids n2) -> ancestor e2 tid x).
Proof.
  intros Hwf Hne Htid. pose proof Hwf as [Hnd Hin].
  destruct (prune_dead_wf nodes edges (Some tid) Hwf) as (n2 & e2 & Hp & Hwf2 & _).
  rewrite subgraph_up_to_run; [|exact Hne|intros e He; now apply Hin].
  destruct (prune_dead_run nodes edges tid Hne) as (keep & Hkeep & Hrun).
  rewrite Hrun in Hp. injection Hp as <- <-.
  eexists. eexists. split; [exact Hrun|]. split; [exact Hwf2|].
  split; [apply incl_filter|]. split.
  - rewrite <- (filter_map_ids (fun k => mem_str k keep)). apply filter_In.
    split; auto. apply mem_str_In, Hkeep. now left.
  - intros x Hx. rewrite <- (filter_map_ids (fun k => mem_str k keep)) in Hx.
    apply filter_In in Hx. destruct Hx as [_ Hx].
    apply mem_str_In, Hkeep in Hx. destruct Hx as [->|Hw]; [now left|right].
    revert x Hw. apply walk_in_subgraph. intros a b He Ha Hb.
    apply filter_In. split; auto.
    apply andb_true_iff. split; apply mem_str_In, Hkeep; assumption.
Qed.

(** X13. Previewing a node of a well-formed acyclic graph shows that node:
    the cut keeps the node, the order of the cut ends with it, and the table
    [exec_workflow_pandas] returns is the one the loop stored under the
    node's id. *)
Theorem preview_returns_target E nodes edges tid :
  graph_wf nodes edges -> acyclic edges ->
  nonempty tid = true -> In tid (ids nodes) ->
  exists n2 e2 pre parents frames errs df,
    Server.subgraph_up_to nodes edges (Some tid) = Ok (n2, e2) /\
    Server.topo_sort n2 e2 = Ok (pre ++ [tid]) /\
    for_each Server.add_pred e2 (dict_of_ids n2 []) = Ok parents /\
    Server.exec_nodes E (id_map n2) parents (pre ++ [tid]) (PyDict.empty, PyDict.empty)
    = Ok (frames, errs) /\
    PyDict.get frames tid = Some df /\
    Server.exec_workflow_pandas E nodes edges (Some tid) = Ok (df, errs).
Proof.
  intros Hwf Hac Hne Htid.
  destruct (subgraph_of_target nodes edges tid Hwf Hne Htid)
    as (n2 & e2 & Hcut & Hwf2 & Hsub & Htid2 & Hanc).
  assert (Hac2 : acyclic e2).
  { intros x Hx. apply (Hac x). eapply walk_incl; eauto. }
  destruct (topo_sort_ends_with n2 e2 tid Hwf2 Hac2 Htid2 Hanc) as [pre Htopo].
  destruct (exec_after_cut E n2 e2 Hwf2)
    as (order & parents & frames & errs & Htopo' & _ & Hpar & Hrun & Hall & _).
  rewrite Htopo in Htopo'. injection Htopo' as <-.
  destruct (keys_get frames tid) as [df Hdf].
  { apply Hall. apply in_or_app. right. now left. }
  exists n2, e2, pre, parents, frames, errs, df.
  repeat (split; [assumption|]).
  unfold Server.exec_workflow_pandas.
  rewrite Hcut, bind_ok, Htopo, bind_ok, Hpar, bind_ok, Hrun, bind_ok.
  rewrite rev_app_distr. simpl rev. simpl app. unfold PyDict.lookup. rewrite Hdf.
  reflexivity.
Qed.

Lemma preview_returns_target_witness :
  exists n2 e2 pre parents frames errs df,
    Server.subgraph_up_to line_nodes line_edges (Some "b") = Ok (n2, e2) /\
    Server.topo_sort n2 e2 = Ok (pre ++ ["b"]) /\
    for_each Server.add_pred e2 (dict_of_ids n2 []) = Ok parents /\
    Server.exec_nodes bench_engine (id_map n2) parents (pre ++ ["b"])
      (PyDict.empty, PyDict.empty) = Ok (frames, errs) /\
    PyDict.get frames "b" = Some df /\
    Server.exec_workflow_pandas bench_engine line_nodes line_edges (Some "b")
    = Ok (df, errs).
Proof.
  refine (preview_returns_target bench_engine line_nodes line_edges "b"
            line_graph_wf line_graph_acyclic eq_refl _).
  simpl. auto.
Defined.

(** With a cycle the order falls back to the caller's, and the preview of
    [b] shows the table of the node listed last, here [c]. *)
Example preview_in_a_cycle :
  Server.subgraph_up_to [plain "a"; plain "b"; plain "c"] loop_edges (Some "b")
  = Ok ([plain "a"; plain "b"; plain "c"], loop_edges) /\
  Server.topo_sort [plain "a"; plain "b"; plain "c"] loop_edges = Ok ["a"; "b"; "c"].
Proof. repeat split; reflexivity. Qed.

Lemma filter_nothing {A : Type} (p : A -> bool) (l : list A) :
  (forall x, In x l -> p x = false) -> filter p l = [].
Proof.
  induction l as [|x l IH]; simpl; intros H; auto.
  rewrite (H x (or_introl eq_refl)). apply IH. auto.
Qed.

(** X14. Previewing an id that no node carries is no error: on a
    well-formed graph the cut is empty, nothing runs, and the interpreter
    returns the empty table with an empty error map. *)
Theorem preview_unknown_node E nodes edges tid :
  graph_wf nodes edges -> nonempty tid = true -> ~ In tid (ids nodes) ->
  Server.subgraph_up_to nodes edges (Some tid) = Ok ([], []) /\
  Server.exec_workflow_pandas E nodes edges (Some tid)
  = Ok (Server.empty_frame, PyDict.empty).
Proof.
  intros Hwf Hne Hno. pose proof Hwf as [Hnd Hin].
  assert (Hcut : Server.subgraph_up_to nodes edges (Some tid) = Ok ([], [])).
  { rewrite subgraph_up_to_run; [|exact Hne|intros e He; now apply Hin].
    destruct (prune_dead_run nodes edges tid Hne) as (keep & Hkeep & Hrun).
    rewrite Hrun.
    assert (Hk : forall x, In x keep -> x = tid).
    { intros x Hx. apply Hkeep in Hx. destruct Hx as [->|Hw]; auto.
      exfalso. apply Hno.
      assert (Ht : forall s t, walk edges s t -> In t (ids nodes)).
      { intros s t W. induction W as [s t He|]; auto. exact (proj2 (Hin _ He)). }
      exact (Ht _ _ Hw). }
    f_equal. f_equal.
    - apply filter_nothing. intros nd Hnd'. apply mem_str_false. intros Hx.
      apply Hk in Hx. apply Hno. rewrite <- Hx. now apply in_map.
    - apply filter_nothing. intros e He. apply andb_false_iff. right.
      apply mem_str_false. intros Hx. apply Hk in Hx. apply Hno.
      rewrite <- Hx. now apply Hin. }
  split; [exact Hcut|].
  unfold Server.exec_workflow_pandas. rewrite Hcut. reflexivity.
Qed.

Lemma preview_unknown_node_witness :
  Server.subgraph_up_to line_nodes line_edges (Some "z") = Ok ([], []) /\
  Server.exec_workflow_pandas bench_engine line_nodes line_edges (Some "z")
  = Ok (Server.empty_frame, PyDict.empty).
Proof.
  refine (preview_unknown_node bench_engine line_nodes line_edges "z"
            line_graph_wf eq_refl _).
  simpl. intuition discriminate.
Defined.

(** ** Quoting of identifiers *)

Lemma list_ascii_app (a b : string) :
  list_ascii_of_string (a ++ b)%string
  = list_ascii_of_string a ++ list_ascii_of_string b.
Proof. induction a as [|c a IH]; simpl; [reflexivity | now rewrite IH]. Qed.

Lemma list_ascii_inj (a b : string) : list_ascii_of_string a = list_ascii_of_string b -> a = b.
Proof.
  intros H. rewrite <- (string_of_list_ascii_of_string a),
                    <- (string_of_list_ascii_of_string b).
  now rewrite H.
Qed.

Lemma list_ascii_concat : forall l,
  list_ascii_of_string (String.concat EmptyString l)
  = flat_map list_ascii_of_string l.
Proof.
  induction l as [|h t IH]; [reflexivity|].
  change (flat_map list_ascii_of_string (h :: t))
    with (list_ascii_of_string h ++ flat_map list_ascii_of_string t).
  rewrite <- IH. destruct t as [|x t]; simpl String.concat.
  - simpl. now rewrite app_nil_r.
  - now rewrite list_ascii_app.
Qed.

Lemma double_dquotes_chars c :
  list_ascii_of_string (Server.double_dquotes c)
  = flat_map (fun x => if Ascii.eqb x dquote then [dquote; dquote] else [x])
             (list_ascii_of_string c).
Proof.
  unfold Server.double_dquotes. rewrite list_ascii_concat, flat_map_concat_map, map_map.
  rewrite <- flat_map_concat_map. apply flat_map_ext. intros x.
  now destruct (Ascii.eqb x dquote).
Qed.

Lemma doubling_injective : forall l1 l2,
  flat_map (fun x => if Ascii.eqb x dquote then [dquote; dquote] else [x]) l1
  = flat_map (fun x => if Ascii.eqb x dquote then [dquote; dquote] else [x]) l2 ->
  l1 = l2.
Proof.
  induction l1 as [|a l1 IH]; intros [|b l2] H; simpl in H; auto.
  - destruct (Ascii.eqb b dquote); discriminate.
  - destruct (Ascii.eqb a dquote); discriminate.
  - destruct (Ascii.eqb_spec a dquote) as [->|Ha];
      destruct (Ascii.eqb_spec b dquote) as [->|Hb]; simpl in H.
    + injection H as H. f_equal. auto.
    + injection H as H1 H2. congruence.
    + injection H as H1 H2. congruence.
    + injection H as -> H. f_equal. auto.
Qed.

(** An identifier that is left as it is does not start with a double quote. *)
Lemma plain_ident_head (r : string) :
  Server.str_isalnum (Server.remove_char "_" (char_str dquote ++ r)%string) = false.
Proof.
  unfold Server.str_isalnum, Server.remove_char. reflexivity.
Qed.

(** X15. [quote_ident] never maps two columns to one text: different column
    names have different quoted forms, whether the names are left as they
    are or put between double quotes. *)
Theorem quote_ident_injective c1 c2 :
  c1 <> c2 -> Server.quote_ident c1 <> Server.quote_ident c2.
Proof.
  intros Hne Heq. apply Hne. unfold Server.quote_ident in Heq.
  destruct (Server.str_isalnum (Server.remove_char "_" c1)
            && negb match c1 with String x _ => isdigit x | EmptyString => false end)
    eqn:B1;
  destruct (Server.str_isalnum (Server.remove_char "_" c2)
            && negb match c2 with String x _ => isdigit x | EmptyString => false end)
    eqn:B2.
  - exact Heq.
  - subst c1. rewrite plain_ident_head in B1. discriminate.
  - subst c2. rewrite plain_ident_head in B2. discriminate.
  - apply list_ascii_inj, doubling_injective.
    rewrite <- !double_dquotes_chars.
    apply (f_equal list_ascii_of_string) in Heq.
    simpl in Heq. injection Heq as Heq.
    rewrite !list_ascii_app in Heq. now apply app_inj_tail in Heq.
Qed.

Lemma quote_ident_injective_witness :
  Server.quote_ident "a b" <> Server.quote_ident "a_b".
Proof. apply quote_ident_injective. discriminate. Defined.

(** ** Comma-separated lists *)

Lemma strip_chars_In (p : ascii -> bool) l c :
  In c (strip_chars p l) -> In c l.
Proof.
  intros H. destruct (strip_chars_split p l) as (a & b & Heq & _).
  rewrite Heq. apply in_or_app. right. apply in_or_app. now left.
Qed.

Lemma drop_while_keeps (p : ascii -> bool) c r :
  p c = false -> drop_while p (c :: r) = c :: r.
Proof. intros H. simpl. now rewrite H. Qed.

Lemma strip_chars_idem (p : ascii -> bool) l :
  strip_chars p (strip_chars p l) = strip_chars p l.
Proof.
  destruct (strip_chars p l) as [|c r] eqn:S; [reflexivity|].
  pose proof (strip_chars_head p l c r S) as Hc.
  unfold strip_chars at 1. rewrite (drop_while_keeps p c r Hc).
  destruct (exists_last (l := c :: r)) as (m & z & Hm); [discriminate|].
  rewrite Hm in *. pose proof (strip_chars_last p l m z S) as Hz.
  rewrite rev_app_distr. simpl rev. simpl app. simpl drop_while.
  rewrite Hz. simpl. now rewrite rev_involutive.
Qed.

Lemma strip_idem s : strip (strip s) = strip s.
Proof.
  unfold strip. now rewrite list_ascii_of_string_of_list_ascii, strip_chars_idem.
Qed.

Lemma split_aux_free sep : forall l cur x,
  ~ In sep cur -> In x (split_aux sep cur l) -> ~ In sep (list_ascii_of_string x).
Proof.
  induction l as [|c r IH]; intros cur x Hcur Hx; simpl in Hx.
  - destruct Hx as [<-|[]]. rewrite list_ascii_of_string_of_list_ascii.
    intros H. apply Hcur. now apply in_rev.
  - destruct (Ascii.eqb_spec c sep) as [->|Hne].
    + destruct Hx as [<-|Hx].
      * rewrite list_ascii_of_string_of_list_ascii.
        intros H. apply Hcur. now apply in_rev.
      * apply (IH [] x); auto.
    + apply (IH (c :: cur) x); auto. intros [H|H]; auto.
Qed.

Lemma split_aux_whole sep : forall lx cur,
  ~ In sep lx ->
  split_aux sep cur lx = [string_of_list_ascii (rev cur ++ lx)].
Proof.
  induction lx as [|c lx IH]; intros cur Hfree; simpl.
  - now rewrite app_nil_r.
  - destruct (Ascii.eqb_spec c sep) as [->|Hne]; [exfalso; apply Hfree; now left|].
    rewrite IH by (intros H; apply Hfree; now right).
    simpl. now rewrite <- app_assoc.
Qed.

Lemma split_aux_prefix sep : forall lx cur rest,
  ~ In sep lx ->
  split_aux sep cur (lx ++ sep :: rest)
  = string_of_list_ascii (rev cur ++ lx) :: split_aux sep [] rest.
Proof.
  induction lx as [|c lx IH]; intros cur rest Hfree; simpl.
  - now rewrite Ascii.eqb_refl, app_nil_r.
  - destruct (Ascii.eqb_spec c sep) as [->|Hne]; [exfalso; apply Hfree; now left|].
    rewrite IH by (intros H; apply Hfree; now right).
    simpl. now rewrite <- app_assoc.
Qed.

(** Splitting undoes joining when no piece holds the separator. *)
Lemma split_join : forall l,
  l <> [] ->
  (forall x, In x l -> ~ In ","%char (list_ascii_of_string x)) ->
  split "," (join "," l) = l.
Proof.
  induction l as [|x r IH]; intros Hne Hfree; [congruence|].
  destruct r as [|y r].
  - simpl. unfold split. rewrite split_aux_whole by (apply Hfree; now left).
    simpl. now rewrite string_of_list_ascii_of_string.
  - change (join "," (x :: y :: r)) with (x ++ "," ++ join "," (y :: r))%string.
    unfold split. rewrite list_ascii_app.
    change (list_ascii_of_string ("," ++ join "," (y :: r))%string)
      with (","%char :: list_ascii_of_string (join "," (y :: r))).
    rewrite split_aux_prefix by (apply Hfree; now left).
    simpl rev. simpl app at 1. rewrite string_of_list_ascii_of_string. f_equal.
    apply IH; [discriminate|]. intros z Hz. apply Hfree. now right.
Qed.

Lemma csv_list_of_clean l :
  (forall x, In x l ->
     x <> EmptyString /\ strip x = x /\ ~ In ","%char (list_ascii_of_string x)) ->
  csv_list (join "," l) = l.
Proof.
  intros H. destruct l as [|x r]; [reflexivity|].
  unfold csv_list. rewrite split_join; [|discriminate|intros y Hy; now apply H].
  rewrite (map_ext_in strip (fun y => y)) by (intros y Hy; now apply H).
  rewrite map_id. apply filter_all. intros y Hy.
  destruct (H y Hy) as (Hn & _). now destruct y.
Qed.

Lemma csv_list_pieces s x :
  In x (csv_list s) ->
  x <> EmptyString /\ strip x = x /\ ~ In ","%char (list_ascii_of_string x).
Proof.
  unfold csv_list. intros H. apply filter_In in H. destruct H as [H Hn].
  apply in_map_iff in H. destruct H as (y & <- & Hy). split; [|split].
  - intros E. now rewrite E in Hn.
  - apply strip_idem.
  - intros Hc. unfold strip in Hc. rewrite list_ascii_of_string_of_list_ascii in Hc.
    apply strip_chars_In in Hc. revert Hc.
    apply (split_aux_free ","%char (list_ascii_of_string s) [] y); auto.
Qed.

(** X16. Every piece that the comma-separated reading
    [[c.strip() for c in s.split(",") if c.strip()]] returns is non-empty,
    has no white space at either end (stripping it again changes nothing)
    and holds no comma. *)
Theorem csv_list_clean s x :
  In x (csv_list s) ->
  x <> EmptyString /\ strip x = x /\ ~ In ","%char (list_ascii_of_string x).
Proof. apply csv_list_pieces. Qed.

Lemma csv_list_clean_witness :
  "b c" <> EmptyString /\ strip "b c" = "b c" /\
  ~ In ","%char (list_ascii_of_string "b c").
Proof.
  apply (csv_list_clean " a , b c,, "). simpl. auto.
Defined.

(** X17. Writing a column list back with [",".join] and reading it again
    gives the same list: the text that select fusion stores in the parent
    is read by every later consumer as the list that was composed. *)
Theorem csv_list_round_trip s :
  csv_list (join "," (csv_list s)) = csv_list s.
Proof. apply csv_list_of_clean. intros x. apply csv_list_pieces. Qed.

(** ** Metadata comparison *)

Lemma list_eqb_sym xs ys : list_eqb xs ys = list_eqb ys xs.
Proof.
  destruct (list_eqb xs ys) eqn:A; destruct (list_eqb ys xs) eqn:B; auto.
  - apply list_eqb_eq in A. apply list_eqb_neq in B. congruence.
  - apply list_eqb_neq in A. apply list_eqb_eq in B. congruence.
Qed.

Lemma opt_eqb_eq {A : Type} (eqb : A -> A -> bool) :
  (forall x y, eqb x y = true <-> x = y) ->
  forall x y, Validator.opt_eqb eqb x y = true <-> x = y.
Proof.
  intros H [x|] [y|]; simpl; try (split; congruence).
  rewrite H. split; congruence.
Qed.

(** X18. [compare_meta] reports an exact match exactly when the two
    snapshots are the same on all three keys, a missing key being equal to a
    missing key only; and the comparison does not depend on the order of
    its arguments. *)
Theorem compare_meta_exact a b :
  (Validator.exact_match (Validator.compare_meta a b) = true <-> a = b) /\
  Validator.compare_meta a b = Validator.compare_meta b a.
Proof.
  destruct a as [r1 c1 d1], b as [r2 c2 d2]. split.
  - unfold Validator.compare_meta. simpl. rewrite !andb_true_iff.
    rewrite (opt_eqb_eq Z.eqb Z.eqb_eq), !(opt_eqb_eq list_eqb list_eqb_eq).
    split.
    + intros [[-> ->] ->]. reflexivity.
    + intros H. injection H as -> -> ->. auto.
  - unfold Validator.compare_meta. simpl.
    assert (Hr : Validator.opt_eqb Z.eqb r1 r2 = Validator.opt_eqb Z.eqb r2 r1)
      by (destruct r1, r2; simpl; auto using Z.eqb_sym).
    assert (Hl : forall x y : option (list string),
              Validator.opt_eqb list_eqb x y = Validator.opt_eqb list_eqb y x)
      by (intros [x|] [y|]; simpl; auto using list_eqb_sym).
    now rewrite Hr, (Hl c1 c2), (Hl d1 d2).
Qed.

(** ** In-memory sources *)

Lemma gather_fold p : forall nodes (out : dict string),
  PyDict.get (fold_left Server.gather_step nodes out) p
  = match find (files_under p) (rev nodes) with
    | Some nd => _fileText (data nd)
    | None => PyDict.get out p
    end.
Proof.
  induction nodes as [|x r IH]; intros out; simpl; auto.
  rewrite IH, find_snoc.
  destruct (find (files_under p) (rev r)); auto.
  unfold files_under, Server.gather_step.
  destruct (type (data x) =? "source.csv"); simpl; auto.
  destruct (Server.has_text (data x)) eqn:T; simpl; auto.
  destruct (String.eqb_spec (Server.source_key (data x)) p) as [<-|Hne].
  - rewrite get_set_same. unfold Server.has_text in T.
    destruct (_fileText (data x)) as [txt|]; [|discriminate].
    simpl. apply andb_true_iff in T. destruct T as [T _]. now rewrite T.
  - now apply get_set_other.
Qed.

(** X19. [_gather_source_csv_text] files each in-memory text under the
    stripped path of its source node, or under [uploaded.csv] when the path
    is missing or blank; when several source nodes share this key the text
    of the last one is the one kept. Nodes of another type, and sources
    whose text is missing or blank, leave no entry. *)
Theorem gather_source_last_wins nodes p :
  PyDict.get (Server._gather_source_csv_text nodes) p
  = match find (files_under p) (rev nodes) with
    | Some nd => _fileText (data nd)
    | None => None
    end.
Proof. unfold Server._gather_source_csv_text. now rewrite gather_fold. Qed.

(** Two uploads without a path: one entry, holding the second text. *)
Example uploads_collide :
  Server._gather_source_csv_text
    [upload "s1" None (Some "a,b"); upload "s2" (Some "  ") (Some "c,d")]
  = [("uploaded.csv", "c,d")].
Proof. reflexivity. Qed.

(** ** Names within one base *)

(** X20. The numbering keeps the names of one base apart: visiting the
    nodes in order, two different nodes whose labels give the same base name
    never get the same name. *)
Theorem friendly_names_distinct id2 order :
  NoDup order ->
  (forall nid, In nid order -> In nid (PyDict.keys id2)) ->
  exists names counts,
    Server.assign_names id2 order = Ok (names, counts) /\
    forall n1 n2, In n1 order -> In n2 order -> n1 <> n2 ->
      base_of id2 n1 = base_of id2 n2 ->
      PyDict.get names n1 <> PyDict.get names n2.
Proof.
  intros Hnd Hin.
  destruct (assign_names_from id2 order PyDict.empty PyDict.empty Hnd Hin)
    as (names & counts & Hrun & _ & Hnames).
  exists names, counts. split; [exact Hrun|].
  assert (Hord : forall pre n1 mid n2 post,
            order = pre ++ n1 :: mid ++ n2 :: post ->
            base_of id2 n1 = base_of id2 n2 ->
            PyDict.get names n1 <> PyDict.get names n2).
  { intros pre n1 mid n2 post Heq Hb.
    rewrite (Hnames pre n1 (mid ++ n2 :: post) Heq).
    assert (Heq2 : order = (pre ++ n1 :: mid) ++ n2 :: post)
      by (rewrite Heq, <- app_assoc; reflexivity).
    rewrite (Hnames _ n2 post Heq2), <- Hb. intros H. injection H as H.
    apply numbered_inj in H.
    pose proof (same_base_later id2 (base_of id2 n1) pre n1 mid eq_refl).
    simpl in H. lia. }
  intros n1 n2 H1 H2 Hne Hb.
  destruct (in_split n1 order H1) as (l1 & l2 & Heq).
  rewrite Heq in H2. apply in_app_or in H2. destruct H2 as [H2|[H2|H2]].
  - destruct (in_split n2 l1 H2) as (a & b & Ha). subst l1.
    rewrite <- app_assoc in Heq. simpl in Heq.
    intros E. symmetry in E. revert E. eapply Hord; eauto.
  - congruence.
  - destruct (in_split n2 l2 H2) as (a & b & Ha). subst l2.
    eapply Hord; eauto.
Qed.

Lemma friendly_names_distinct_witness :
  exists names counts,
    Server.assign_names (id_map two_filters) ["n1"; "n2"] = Ok (names, counts) /\
    forall n1 n2, In n1 ["n1"; "n2"] -> In n2 ["n1"; "n2"] -> n1 <> n2 ->
      base_of (id_map two_filters) n1 = base_of (id_map two_filters) n2 ->
      PyDict.get names n1 <> PyDict.get names n2.
Proof.
  apply (friendly_names_distinct (id_map two_filters) ["n1"; "n2"]).
  - repeat constructor; simpl; intuition discriminate.
  - simpl. tauto.
Defined.

(** Across bases the names can meet: the second [a] is numbered [a_2], and
    so is the first node whose own base is [a_2]. *)
Example friendly_names_clash :
  Server.assign_names (id_map clash_nodes) ["n1"; "n2"; "n3"]
  = Ok ([("n1", "a"); ("n2", "a_2"); ("n3", "a_2")], [("a", 2%Z); ("a_2", 1%Z)]).
Proof. reflexivity. Qed.

(** ** One node at a time *)

Lemma node_body_local E parents frames errs nid nd st' k :
  Server.node_body E parents (frames, errs) nid nd = inr st' ->
  k <> nid ->
  PyDict.get (fst st') k = PyDict.get frames k /\
  PyDict.get (snd st') k = PyDict.get errs k.
Proof.
  unfold Server.node_body, Server.abind. intros H Hk.
  assert (Hne : nid <> k) by congruence.
  break_match_hyp H; try discriminate;
    injection H as <-; simpl; rewrite ?get_set_other by assumption; auto.
Qed.

(** X21. Running a node changes no other node's entries: whatever the
    engine does, the table and the error message stored for every other
    node are after the turn what they were before it. *)
Theorem exec_node_local E parents st nid nd k :
  k <> nid ->
  PyDict.get (fst (Server.exec_node E parents st nid nd)) k = PyDict.get (fst st) k /\
  PyDict.get (snd (Server.exec_node E parents st nid nd)) k = PyDict.get (snd st) k.
Proof.
  intros Hk. destruct st as [frames errs]. unfold Server.exec_node.
  destruct (Server.node_body E parents (frames, errs) nid nd) as [e|st'] eqn:B.
  - unfold Server.node_failed. cbn [fst snd].
    rewrite !get_set_other by congruence. auto.
  - cbn [fst snd]. eapply node_body_local; eauto.
Qed.

Lemma exec_node_local_witness :
  PyDict.get (fst (Server.exec_node bench_engine bench_parents
                     (bench_frames, PyDict.empty) "x"
                     (job "x" "transform.filter" (Some "age >") None None))) "src"
  = PyDict.get (fst (bench_frames, @PyDict.empty string)) "src" /\
  PyDict.get (snd (Server.exec_node bench_engine bench_parents
                     (bench_frames, PyDict.empty) "x"
                     (job "x" "transform.filter" (Some "age >") None None))) "src"
  = PyDict.get (snd (bench_frames, @PyDict.empty string)) "src".
Proof.
  apply (exec_node_local bench_engine bench_parents (bench_frames, PyDict.empty)
           "x" (job "x" "transform.filter" (Some "age >") None None) "src").
  discriminate.
Defined.

(** ** Join keys, position by position *)

Lemma pairs_by_position (f : string -> string -> string) : forall lk rk,
  List.length lk <= List.length rk ->
  map (fun i => f (nth i lk EmptyString)
                  (nth (Server.wrap_index i (List.length rk)) rk EmptyString))
      (seq 0 (List.length lk))
  = map (fun lr => f (fst lr) (snd lr)) (combine lk rk).
Proof.
  induction lk as [|a lk IH]; intros [|b rk] Hlen; simpl in Hlen; try lia; auto.
  cbn [List.length seq map combine]. f_equal.
  rewrite <- seq_shift, map_map, <- (IH rk) by lia.
  apply map_ext_in. intros i Hi. apply in_seq in Hi.
  unfold Server.wrap_index.
  destruct (Nat.ltb_spec (S i) (S (List.length rk))); [|lia].
  destruct (Nat.ltb_spec i (List.length rk)); [|lia].
  reflexivity.
Qed.

Lemma key_pairs_combine (f : string -> string -> string) lk rk :
  List.length lk <= List.length rk ->
  Server.key_pairs (fun l r => inr (f l r)) lk rk (seq 0 (List.length lk))
  = inr (map (fun lr => f (fst lr) (snd lr)) (combine lk rk)).
Proof.
  intros Hlen. destruct lk as [|a lk]; [reflexivity|].
  rewrite key_pairs_wrap.
  - now rewrite pairs_by_position.
  - destruct rk; [simpl in Hlen; lia | discriminate].
  - intros i Hi. apply in_seq in Hi. lia.
Qed.

(** X22. When the right key list is at least as long as the left one, the
    SQL and the Spark lowering of a join pair the keys position by position,
    [left[i]] with [right[i]], one condition per left key; right keys past
    the left list take no part. *)
Theorem join_pairs_by_position v p0 p1 d :
  List.length (Server.left_keys d) <= List.length (Server.right_keys d) ->
  Server.gen_sql_join v [p0; p1] d
  = inr (v ++ " AS (" ++ newline
         ++ "  SELECT *" ++ newline
         ++ "  FROM " ++ p0 ++ newline
         ++ "  " ++ Server.upper (str_or (how d) "INNER") ++ " JOIN " ++ p1 ++ newline
         ++ "    ON "
         ++ join " AND "
              (map (fun lr => fst lr ++ " = " ++ snd lr)
                   (combine (map Server.quote_ident (Server.left_keys d))
                            (map Server.quote_ident (Server.right_keys d))))
         ++ newline ++ ")")%string /\
  Server.gen_spark_join v [p0; p1] d
  = inr (v ++ " = " ++ p0 ++ ".join(" ++ p1 ++ ", on=("
         ++ join " & "
              (map (fun lr => p0 ++ "." ++ fst lr ++ " == " ++ p1 ++ "." ++ snd lr)
                   (combine (Server.left_keys d) (Server.right_keys d)))
         ++ "), how='" ++ str_or (how d) "inner" ++ "')")%string.
Proof.
  intros Hlen. split.
  - unfold Server.gen_sql_join.
    rewrite (key_pairs_combine (fun l r => (l ++ " = " ++ r)%string))
      by now rewrite !length_map.
    reflexivity.
  - unfold Server.gen_spark_join.
    change (Server.key_pairs _ (Server.left_keys d) (Server.right_keys d)
              (seq 0 (List.length (Server.left_keys d))))
      with (Server.key_pairs
              (fun l r => inr (p0 ++ "." ++ l ++ " == " ++ p1 ++ "." ++ r)%string)
              (Server.left_keys d) (Server.right_keys d)
              (seq 0 (List.length (Server.left_keys d)))).
    rewrite (key_pairs_combine
               (fun l r => (p0 ++ "." ++ l ++ " == " ++ p1 ++ "." ++ r)%string))
      by assumption.
    reflexivity.
Qed.

Lemma join_pairs_by_position_witness :
  Server.gen_sql_join "j" ["l"; "r"] long_join
  = inr ("j AS (" ++ newline
         ++ "  SELECT *" ++ newline
         ++ "  FROM l" ++ newline
         ++ "  LEFT JOIN r" ++ newline
         ++ "    ON a = x AND b = y" ++ newline ++ ")")%string /\
  Server.gen_spark_join "j" ["l"; "r"] long_join
  = inr "j = l.join(r, on=(l.a == r.x & l.b == r.y), how='left')".
Proof.
  apply (join_pairs_by_position "j" "l" "r" long_join). simpl. lia.
Defined.

Lemma key_arg_error ks e : Server.key_arg ks = inl e -> e = IndexError.
Proof.
  unfold Server.key_arg, Server.item.
  destruct (1 <? List.length ks)%nat; [discriminate|].
  destruct (nth_error ks 0); simpl; [discriminate|]. congruence.
Qed.

(** X23. A join with a blank key list is an error for the interpreter but
    not for the SQL generator. With two parents and a key list that reads
    as empty on either side, the node's turn ends in the handler: the empty
    table and [IndexError: list index out of range], the engine's [merge]
    never being called; and the pandas generator raises [IndexError]. With a
    blank left list, however, the SQL generator returns a join whose [ON]
    condition is empty. *)
Theorem join_blank_keys E parents frames errs nid nd p0 p1 rest v a b :
  type (data nd) = "transform.join" ->
  PyDict.get parents nid = Some (p0 :: p1 :: rest) ->
  Server.left_keys (data nd) = [] \/ Server.right_keys (data nd) = [] ->
  Server.exec_node E parents (frames, errs) nid nd
  = (PyDict.set frames nid Server.empty_frame,
     PyDict.set errs nid "IndexError: list index out of range") /\
  Server.gen_python_join v [a; b] (data nd) = inl IndexError /\
  (Server.left_keys (data nd) = [] ->
   Server.gen_sql_join v [a; b] (data nd)
   = inr (v ++ " AS (" ++ newline
          ++ "  SELECT *" ++ newline
          ++ "  FROM " ++ a ++ newline
          ++ "  " ++ Server.upper (str_or (how (data nd)) "INNER")
          ++ " JOIN " ++ b ++ newline
          ++ "    ON " ++ newline ++ ")")%string).
Proof.
  intros Ht Hp Hblank.
  split; [|split].
  - unfold Server.exec_node, Server.node_body.
    rewrite (lookup_try_found _ _ _ Hp), Ht.
    destruct Hblank as [H|H]; rewrite H; [reflexivity|].
    destruct (Server.key_arg (Server.left_keys (data nd))) as [e|lk] eqn:L;
      [apply key_arg_error in L; subst e|]; reflexivity.
  - unfold Server.gen_python_join, Server.key_arg_text.
    destruct Hblank as [H|H]; rewrite H; [reflexivity|].
    simpl. destruct (1 <? List.length (Server.left_keys (data nd)))%nat; simpl.
    + reflexivity.
    + unfold Server.item.
      destruct (nth_error (Server.left_keys (data nd)) 0); reflexivity.
  - intros H. unfold Server.gen_sql_join. rewrite H. reflexivity.
Qed.

Lemma join_blank_keys_witness :
  Server.exec_node bench_engine join_parents (PyDict.empty, PyDict.empty) "j"
    (mkNode "j" blank_left_join)
  = (PyDict.set PyDict.empty "j" Server.empty_frame,
     PyDict.set PyDict.empty "j" "IndexError: list index out of range") /\
  Server.gen_python_join "j" ["l"; "r"] blank_left_join = inl IndexError /\
  (Server.left_keys blank_left_join = [] ->
   Server.gen_sql_join "j" ["l"; "r"] blank_left_join
   = inr ("j AS (" ++ newline
          ++ "  SELECT *" ++ newline
          ++ "  FROM l" ++ newline
          ++ "  " ++ Server.upper (str_or (how blank_left_join) "INNER")
          ++ " JOIN r" ++ newline
          ++ "    ON " ++ newline ++ ")")%string).
Proof.
  apply (join_blank_keys bench_engine join_parents PyDict.empty PyDict.empty "j"
           (mkNode "j" blank_left_join) "l" "r" [] "j" "l" "r");
    [reflexivity | reflexivity | left; reflexivity].
Defined.

(** ** The SQL generator *)

Lemma key_pairs_blank_right (f : string -> string -> string) a lk :
  Server.key_pairs (fun l r => inr (f l r)) (a :: lk) []
    (seq 0 (List.length (a :: lk)))
  = inl IndexError.
Proof. reflexivity. Qed.

Lemma sql_join_ready alias p d :
  match Server.gen_sql_join alias p d with inr _ => true | inl _ => false end
  = match Server.left_keys d, Server.right_keys d with
    | _ :: _, [] => false
    | _, _ => (2 <=? List.length p)%nat
    end.
Proof.
  unfold Server.gen_sql_join.
  destruct (Server.left_keys d) as [|a lk] eqn:L.
  - simpl. destruct p as [|x [|y p]]; reflexivity.
  - destruct (Server.right_keys d) as [|b rk] eqn:R.
    + reflexivity.
    + rewrite (key_pairs_wrap (fun l r => (l ++ " = " ++ r)%string)).
      * destruct p as [|x [|y p]]; reflexivity.
      * discriminate.
      * intros i Hi. apply in_seq in Hi. lia.
Qed.

Lemma sql_sample_ready float_text alias p d :
  match Server.gen_sql_sample float_text alias p d with inr _ => true | inl _ => false end
  = sample_ok float_text d && (1 <=? List.length p)%nat.
Proof.
  unfold Server.gen_sql_sample, sample_ok.
  destruct (Server.is_fraction d).
  - destruct (float_text (frac d)); simpl; [reflexivity|].
    destruct p; reflexivity.
  - destruct (Server.sample_size d); simpl; [reflexivity|].
    destruct p; reflexivity.
Qed.

(** Each generator writes the lines of a node exactly when the node is
    ready for it. *)
Lemma sql_cte_ready float_text alias p d :
  match Server.sql_cte float_text alias p d with inr _ => true | inl _ => false end
  = sql_ready float_text (List.length p) d.
Proof.
  pose proof (sql_join_ready alias p d) as Hj.
  pose proof (sql_sample_ready float_text alias p d) as Hs.
  unfold Server.sql_cte, sql_ready, sample_ok, Server.sql_passthrough.
  generalize dependent (Server.gen_sql_join alias p d).
  generalize dependent (Server.gen_sql_sample float_text alias p d).
  intros gs Hs gj Hj.
  remember (type d) as t eqn:Ht. clear Ht.
  destruct (String.eqb_spec t "source.csv") as [->|H1]; [reflexivity|].
  destruct (String.eqb_spec t "transform.select") as [->|H2];
    [destruct p; reflexivity|].
  destruct (String.eqb_spec t "transform.filter") as [->|H3];
    [destruct p; reflexivity|].
  destruct (String.eqb_spec t "transform.summarize") as [->|H4];
    [destruct p; reflexivity|].
  destruct (String.eqb_spec t "transform.formula") as [->|H5];
    [destruct p; reflexivity|].
  destruct (String.eqb_spec t "transform.sort") as [->|H6].
  { simpl. destruct (negb _); destruct p; reflexivity. }
  destruct (String.eqb_spec t "transform.sample") as [->|H7]; [exact Hs|].
  destruct (String.eqb_spec t "transform.join") as [->|H8]; [exact Hj|].
  destruct p; reflexivity.
Qed.

Lemma python_sample_ready float_text v ps d :
  match Server.gen_python_sample float_text v ps d with inr _ => true | inl _ => false end
  = sample_ok float_text d && (1 <=? List.length ps)%nat.
Proof.
  unfold Server.gen_python_sample, sample_ok.
  destruct (Server.is_fraction d).
  - destruct (float_text (frac d)); simpl; [reflexivity|].
    destruct ps; reflexivity.
  - destruct (Server.sample_size d); simpl; [reflexivity|].
    destruct ps; reflexivity.
Qed.

Lemma spark_sample_ready float_text v ps d :
  match Server.gen_spark_sample float_text v ps d with inr _ => true | inl _ => false end
  = sample_ok float_text d && (1 <=? List.length ps)%nat.
Proof.
  unfold Server.gen_spark_sample, sample_ok.
  destruct (Server.is_fraction d).
  - destruct (float_text (frac d)); simpl; [reflexivity|].
    destruct ps; reflexivity.
  - destruct (Server.sample_size d); simpl; [reflexivity|].
    destruct ps; reflexivity.
Qed.

Lemma key_arg_text_ready ks :
  match Server.key_arg_text ks with inr _ => true | inl _ => false end
  = match ks with [] => false | _ => true end.
Proof.
  unfold Server.key_arg_text. destruct ks as [|a [|b ks]]; reflexivity.
Qed.

Lemma python_join_ready v ps d :
  match Server.gen_python_join v ps d with inr _ => true | inl _ => false end
  = match Server.left_keys d, Server.right_keys d with
    | _ :: _, _ :: _ => (2 <=? List.length ps)%nat
    | _, _ => false
    end.
Proof.
  unfold Server.gen_python_join.
  pose proof (key_arg_text_ready (Server.left_keys d)) as Hl.
  pose proof (key_arg_text_ready (Server.right_keys d)) as Hr.
  destruct (Server.key_arg_text (Server.left_keys d)) as [e|la];
    destruct (Server.left_keys d) as [|a lk]; try discriminate; [reflexivity|].
  destruct (Server.key_arg_text (Server.right_keys d)) as [e|ra];
    destruct (Server.right_keys d) as [|b rk]; try discriminate; [reflexivity|].
  destruct ps as [|x [|y ps]]; reflexivity.
Qed.

Lemma spark_join_ready v ps d :
  match Server.gen_spark_join v ps d with inr _ => true | inl _ => false end
  = match Server.left_keys d, Server.right_keys d with
    | _ :: _, [] => false
    | _, _ => (2 <=? List.length ps)%nat
    end.
Proof.
  unfold Server.gen_spark_join.
  destruct (Server.left_keys d) as [|a lk] eqn:L.
  - simpl. destruct ps as [|x [|y ps]]; reflexivity.
  - destruct (Server.right_keys d) as [|b rk] eqn:R; [reflexivity|].
    destruct ps as [|x [|y ps]]; [reflexivity | reflexivity |].
    change (Server.key_pairs _ (a :: lk) (b :: rk) (seq 0 (List.length (a :: lk))))
      with (Server.key_pairs
              (fun l r => inr (x ++ "." ++ l ++ " == " ++ y ++ "." ++ r)%string)
              (a :: lk) (b :: rk) (seq 0 (List.length (a :: lk)))).
    rewrite (key_pairs_wrap
               (fun l r => (x ++ "." ++ l ++ " == " ++ y ++ "." ++ r)%string)).
    + reflexivity.
    + discriminate.
    + intros i Hi. apply in_seq in Hi. lia.
Qed.

Lemma python_lines_ready float_text v ps d :
  match Server.python_lines float_text v ps d with inr _ => true | inl _ => false end
  = py_ready float_text (List.length ps) d.
Proof.
  pose proof (python_join_ready v ps d) as Hj.
  pose proof (python_sample_ready float_text v ps d) as Hs.
  unfold Server.python_lines, py_ready.
  generalize dependent (Server.gen_python_join v ps d).
  generalize dependent (Server.gen_python_sample float_text v ps d).
  intros gs Hs gj Hj.
  remember (type d) as t eqn:Ht. clear Ht.
  destruct (String.eqb_spec t "source.csv") as [->|H1]; [reflexivity|].
  destruct (String.eqb_spec t "transform.select") as [->|H2].
  { simpl. destruct (negb _ || _); destruct ps; reflexivity. }
  destruct (String.eqb_spec t "transform.filter") as [->|H3];
    [destruct ps; reflexivity|].
  destruct (String.eqb_spec t "transform.summarize") as [->|H4].
  { simpl. destruct (fold_left Server.add_measure _ _). destruct ps; reflexivity. }
  destruct (String.eqb_spec t "transform.formula") as [->|H5];
    [destruct ps; reflexivity|].
  destruct (String.eqb_spec t "transform.sort") as [->|H6].
  { simpl. destruct (negb _); destruct ps; reflexivity. }
  destruct (String.eqb_spec t "transform.sample") as [->|H7]; [exact Hs|].
  destruct (String.eqb_spec t "transform.join") as [->|H8]; [exact Hj|].
  destruct (String.eqb_spec t "sink.csv") as [->|H9];
    [destruct ps; reflexivity|].
  reflexivity.
Qed.

Lemma spark_lines_ready float_text v ps d :
  match Server.spark_lines float_text v ps d with inr _ => true | inl _ => false end
  = spark_ready float_text (List.length ps) d.
Proof.
  pose proof (spark_join_ready v ps d) as Hj.
  pose proof (spark_sample_ready float_text v ps d) as Hs.
  unfold Server.spark_lines, spark_ready.
  generalize dependent (Server.gen_spark_join v ps d).
  generalize dependent (Server.gen_spark_sample float_text v ps d).
  intros gs Hs gj Hj.
  remember (type d) as t eqn:Ht. clear Ht.
  destruct (String.eqb_spec t "source.csv") as [->|H1]; [reflexivity|].
  destruct (String.eqb_spec t "transform.select") as [->|H2].
  { simpl. destruct (negb _ || _); destruct ps; reflexivity. }
  destruct (String.eqb_spec t "transform.filter") as [->|H3];
    [destruct ps; reflexivity|].
  destruct (String.eqb_spec t "transform.summarize") as [->|H4];
    [destruct ps; reflexivity|].
  destruct (String.eqb_spec t "transform.formula") as [->|H5];
    [destruct ps; reflexivity|].
  destruct (String.eqb_spec t "transform.sort") as [->|H6].
  { simpl. destruct (negb _); destruct ps; reflexivity. }
  destruct (String.eqb_spec t "transform.sample") as [->|H7]; [exact Hs|].
  destruct (String.eqb_spec t "transform.join") as [->|H8].
  { rewrite <- Hj. destruct gj; reflexivity. }
  destruct (String.eqb_spec t "sink.csv") as [->|H9];
    [destruct ps; reflexivity|].
  reflexivity.
Qed.

Lemma topo_sort_covers nodes edges :
  graph_wf nodes edges ->
  exists order,
    Server.topo_sort nodes edges = Ok order /\
    NoDup order /\ incl order (ids nodes) /\ incl (ids nodes) order /\
    List.length order = List.length nodes.
Proof.
  intros Hwf. pose proof Hwf as [Hnd Hin].
  destruct (topo_sort_run nodes edges Hwf) as (out & inc & Hinv & Hres).
  destruct (kahn_final_edges _ _ _ Hin _ _ Hinv) as (Hndo & Hsub & _).
  rewrite Hres.
  destruct (Nat.eqb_spec (List.length out) (List.length nodes)) as [Hlen|Hlen].
  - exists out. repeat split; auto.
    apply (@NoDup_length_incl _ out (ids nodes) Hndo); auto.
    unfold ids. rewrite length_map. lia.
  - exists (ids nodes). repeat split; auto using incl_refl.
    apply length_map.
Qed.

Lemma id_map_get nodes nd :
  NoDup (ids nodes) -> In nd nodes -> PyDict.get (id_map nodes) (id nd) = Some nd.
Proof.
  intros Hnd Hin.
  destruct (keys_get (id_map nodes) (id nd)) as [nd' Hg].
  { apply id_map_in_keys. now apply in_map. }
  rewrite Hg. f_equal.
  destruct (proj2 (tracks_id_map nodes) _ _ Hg) as (Hid & x & Hx & Hxid & _).
  unfold id_map in Hg. rewrite id_map_fold in Hg.
  destruct (find (fun n0 => id n0 =? id nd) (rev nodes)) as [y|] eqn:F; [|discriminate].
  injection Hg as ->. apply find_some in F. destruct F as [Hy _].
  apply in_rev in Hy. clear x Hx Hxid.
  induction nodes as [|z r IH]; [destruct Hin|].
  simpl in Hnd. apply NoDup_cons_iff in Hnd. destruct Hnd as [Hz Hr].
  destruct Hin as [->|Hin]; destruct Hy as [->|Hy]; auto.
  - exfalso. apply Hz. rewrite <- Hid. now apply in_map.
  - exfalso. apply Hz. rewrite Hid. now apply in_map.
Qed.

Lemma parents_of_graph nodes edges :
  (forall e, In e edges -> In (target e) (ids nodes)) ->
  exists parents,
    for_each Server.add_pred edges (dict_of_ids nodes []) = Ok parents /\
    forall nid, In nid (ids nodes) ->
      PyDict.get parents nid = Some (preds_of edges nid).
Proof.
  intros Hin.
  destruct (add_preds_spec edges (dict_of_ids nodes [])) as (parents & Hrun & Hp).
  { intros e He. apply in_keys_dict_of_ids. now apply Hin. }
  exists parents. split; [exact Hrun|]. intros nid Hnid.
  rewrite (get_of_default parents nid []).
  - now rewrite Hp, get_default_dict_of_ids.
  - rewrite (add_preds_keys _ _ _ Hrun). now apply in_keys_dict_of_ids.
Qed.

Lemma preds_of_sources nodes edges nid :
  graph_wf nodes edges -> incl (preds_of edges nid) (ids nodes).
Proof.
  intros [_ Hin] s Hs. apply preds_of_In in Hs. exact (proj1 (Hin _ Hs)).
Qed.

Lemma lookup_found {V : Type} (d : dict V) k v :
  PyDict.get d k = Some v -> PyDict.lookup d k = Ok v.
Proof. unfold PyDict.lookup. now intros ->. Qed.

Lemma names_of_parents (cte : dict string) : forall pids acc,
  (forall pid, In pid pids -> In pid (PyDict.keys cte)) ->
  exists p,
    for_each (fun acc pid => v <- PyDict.lookup cte pid ;; Ok (acc ++ [v])) pids acc
    = Ok (acc ++ p) /\
    List.length p = List.length pids.
Proof.
  induction pids as [|pid pids IH]; intros acc Hk.
  - exists []. split; [simpl; now rewrite app_nil_r | reflexivity].
  - destruct (keys_get cte pid (Hk pid (or_introl eq_refl))) as [v Hv].
    destruct (IH (acc ++ [v])) as (p & Hrun & Hlen).
    { intros x Hx. apply Hk. now right. }
    exists (v :: p). rewrite for_each_cons. unfold PyDict.lookup at 1.
    rewrite Hv, !bind_ok, Hrun, <- app_assoc. split; [reflexivity|].
    simpl. now rewrite Hlen.
Qed.

(** A loop over the order whose turn appends when the node is ready and
    raises when it is not: it returns exactly when every node is ready. *)
Section GenLoop.
Variable nodes : list Node.
Variable turn : list string -> string -> result (list string).
Variable ready : string -> bool.
Variable width : list string -> Prop.
Hypothesis Hturn : forall st nid, In nid (ids nodes) ->
  if ready nid
  then exists out, turn st nid = Ok (st ++ out) /\ width out
  else exists e, turn st nid = Raise e.

Lemma gen_loop_ready : forall order st,
  incl order (ids nodes) ->
  if forallb ready order
  then exists chunks,
         for_each turn order st = Ok (st ++ List.concat chunks) /\
         List.length chunks = List.length order /\ Forall width chunks
  else exists e, for_each turn order st = Raise e.
Proof.
  induction order as [|nid order IH]; intros st Hsub.
  - simpl. exists []. simpl. now rewrite app_nil_r.
  - pose proof (Hturn st nid (Hsub nid (or_introl eq_refl))) as Ht.
    rewrite for_each_cons. cbn [forallb].
    destruct (ready nid).
    + destruct Ht as (out & Hc & Hw). rewrite Hc, bind_ok. cbn [andb].
      specialize (IH (st ++ out) (fun x Hx => Hsub x (or_intror Hx))).
      destruct (forallb ready order).
      * destruct IH as (chunks & Hrun & Hlen & Hall). exists (out :: chunks).
        rewrite Hrun. simpl List.concat. rewrite <- app_assoc.
        split; [reflexivity|]. split; [simpl; now rewrite Hlen | now constructor].
      * exact IH.
    + destruct Ht as [e He]. rewrite He. simpl. eauto.
Qed.

End GenLoop.

Section Turns.
Variable float_text : option string -> Server.attempt string.
Variable nodes : list Node.
Variable edges : list Edge.
Variable parents : dict (list string).
Variable names : dict string.
Hypothesis Hwf : graph_wf nodes edges.
Hypothesis Hparents : forall nid, In nid (ids nodes) ->
  PyDict.get parents nid = Some (preds_of edges nid).
Hypothesis Hnames : forall nid, In nid (ids nodes) -> In nid (PyDict.keys names).

(** What every turn starts with: the node, its name, the names of its
    parents. *)
Lemma turn_context nid :
  In nid (ids nodes) ->
  exists nd v ps,
    PyDict.get (id_map nodes) nid = Some nd /\
    PyDict.lookup (id_map nodes) nid = Ok nd /\
    PyDict.lookup names nid = Ok v /\
    PyDict.lookup parents nid = Ok (preds_of edges nid) /\
    Server.names_of names (preds_of edges nid) = Ok ps /\
    List.length ps = List.length (preds_of edges (id nd)).
Proof.
  intros Hnid. pose proof Hnid as Hid.
  unfold ids in Hnid. apply in_map_iff in Hnid. destruct Hnid as (nd & <- & Hnd).
  destruct (keys_get names (id nd) (Hnames _ Hid)) as [v Hv].
  destruct (names_of_parents names (preds_of edges (id nd)) []) as (ps & Hps & Hlen).
  { intros pid Hpid. apply Hnames. eapply preds_of_sources; eauto. }
  exists nd, v, ps.
  pose proof (id_map_get nodes nd (proj1 Hwf) Hnd) as Hg.
  repeat split; auto using lookup_found.
Qed.

Lemma sql_turn_ready ctes nid :
  In nid (ids nodes) ->
  if id_ready (sql_ready float_text) nodes edges nid
  then exists out, Server.sql_turn float_text (id_map nodes) parents names ctes nid
                   = Ok (ctes ++ out) /\ List.length out = 1
  else exists e, Server.sql_turn float_text (id_map nodes) parents names ctes nid
                 = Raise e.
Proof.
  intros Hnid.
  destruct (turn_context nid Hnid) as (nd & v & ps & Hg & Hnd & Hv & Hp & Hps & Hlen).
  unfold id_ready, node_ready, Server.sql_turn. rewrite Hg, Hnd, Hp, !bind_ok.
  unfold Server.names_of in Hps. rewrite Hps, bind_ok, Hv, bind_ok.
  rewrite <- Hlen, <- (sql_cte_ready float_text v ps (data nd)).
  destruct (Server.sql_cte float_text v ps (data nd)) as [e|c]; simpl; eauto.
Qed.

Lemma python_turn_ready L nid :
  In nid (ids nodes) ->
  if id_ready (py_ready float_text) nodes edges nid
  then exists out, Server.python_turn float_text (id_map nodes) parents names L nid
                   = Ok (L ++ out) /\ True
  else exists e, Server.python_turn float_text (id_map nodes) parents names L nid
                 = Raise e.
Proof.
  intros Hnid.
  destruct (turn_context nid Hnid) as (nd & v & ps & Hg & Hnd & Hv & Hp & Hps & Hlen).
  unfold id_ready, node_ready, Server.python_turn.
  rewrite Hg, Hnd, Hv, Hp, !bind_ok, Hps, bind_ok.
  rewrite <- Hlen, <- (python_lines_ready float_text v ps (data nd)).
  destruct (Server.python_lines float_text v ps (data nd)) as [e|c]; simpl; eauto.
Qed.

Lemma spark_turn_ready L nid :
  In nid (ids nodes) ->
  if id_ready (spark_ready float_text) nodes edges nid
  then exists out, Server.spark_turn float_text (id_map nodes) parents names L nid
                   = Ok (L ++ out) /\ True
  else exists e, Server.spark_turn float_text (id_map nodes) parents names L nid
                 = Raise e.
Proof.
  intros Hnid.
  destruct (turn_context nid Hnid) as (nd & v & ps & Hg & Hnd & Hv & Hp & Hps & Hlen).
  unfold id_ready, node_ready, Server.spark_turn.
  rewrite Hg, Hnd, Hv, Hp, !bind_ok, Hps, bind_ok.
  rewrite <- Hlen, <- (spark_lines_ready float_text v ps (data nd)).
  destruct (Server.spark_lines float_text v ps (data nd)) as [e|c]; simpl; eauto.
Qed.

End Turns.

Lemma forallb_ready ready nodes edges order :
  NoDup (ids nodes) ->
  incl order (ids nodes) -> incl (ids nodes) order ->
  forallb (id_ready ready nodes edges) order
  = forallb (node_ready ready edges) nodes.
Proof.
  intros Hnd Hsub Hcov.
  destruct (forallb (node_ready ready edges) nodes) eqn:R.
  - apply forallb_forall. intros nid Hnid. apply Hsub in Hnid.
    unfold ids in Hnid. apply in_map_iff in Hnid. destruct Hnid as (nd & <- & Hin).
    unfold id_ready. rewrite (id_map_get nodes nd Hnd Hin).
    rewrite forallb_forall in R. now apply R.
  - destruct (forallb (id_ready ready nodes edges) order) eqn:Q; auto.
    rewrite <- R. symmetry. apply forallb_forall. intros nd Hin.
    rewrite forallb_forall in Q.
    specialize (Q (id nd) (Hcov _ (in_map id _ _ Hin))).
    unfold id_ready in Q. now rewrite (id_map_get nodes nd Hnd Hin) in Q.
Qed.

(** What the three generators do before their loop, on a well-formed
    graph. *)
Lemma generator_setup nodes edges :
  graph_wf nodes edges ->
  exists order parents names counts,
    Server.topo_sort nodes edges = Ok order /\
    incl order (ids nodes) /\ incl (ids nodes) order /\
    List.length order = List.length nodes /\
    for_each Server.add_pred edges (dict_of_ids nodes []) = Ok parents /\
    (forall nid, In nid (ids nodes) ->
       PyDict.get parents nid = Some (preds_of edges nid)) /\
    Server.assign_names (id_map nodes) order = Ok (names, counts) /\
    (forall nid, In nid (ids nodes) -> In nid (PyDict.keys names)).
Proof.
  intros Hwf. pose proof Hwf as [Hnd Hin].
  destruct (topo_sort_covers nodes edges Hwf)
    as (order & Htopo & Hndo & Hsub & Hcov & Hlen).
  destruct (parents_of_graph nodes edges (fun e He => proj2 (Hin e He)))
    as (parents & Hpar & Hparents).
  destruct (assign_names_from (id_map nodes) order PyDict.empty PyDict.empty Hndo)
    as (names & counts & Hnames & _ & Hget).
  { intros nid Hnid. apply id_map_in_keys. now apply Hsub. }
  exists order, parents, names, counts. repeat split; auto.
  intros nid Hnid. apply Hcov in Hnid.
  destruct (in_split nid order Hnid) as (pre & post & Heq).
  eapply get_Some_keys. exact (Hget pre nid post Heq).
Qed.

Lemma gen_sql_run float_text nodes edges :
  graph_wf nodes edges ->
  if forallb (node_ready (sql_ready float_text) edges) nodes
  then exists ctes last,
         Server.gen_sql float_text nodes edges = Ok (Server.sql_text ctes last) /\
         List.length ctes = List.length nodes
  else exists e, Server.gen_sql float_text nodes edges = Raise e.
Proof.
  intros Hwf.
  destruct (generator_setup nodes edges Hwf)
    as (order & parents & names & counts & Htopo & Hsub & Hcov & Hlen
        & Hpar & Hparents & Hnames & Hkeys).
  pose proof (gen_loop_ready nodes _ _ _
                (sql_turn_ready float_text nodes edges parents names Hwf Hparents Hkeys)
                order [] Hsub) as Hloop.
  rewrite (forallb_ready _ nodes edges order (proj1 Hwf) Hsub Hcov) in Hloop.
  unfold Server.gen_sql. rewrite Htopo, bind_ok, Hpar, bind_ok, Hnames, bind_ok.
  destruct (forallb (node_ready (sql_ready float_text) edges) nodes).
  - destruct Hloop as (chunks & Hrun & Hl & Hall). simpl app in Hrun.
    rewrite Hrun, bind_ok.
    assert (Hlast : exists last,
              match rev order with
              | [] => Ok "final"
              | l :: _ => PyDict.lookup names l
              end = Ok last).
    { destruct (rev order) as [|l r] eqn:R; [eauto|].
      assert (Hl' : In l order) by (apply in_rev; rewrite R; now left).
      destruct (keys_get names l (Hkeys l (Hsub l Hl'))) as [v Hv].
      exists v. now apply lookup_found. }
    destruct Hlast as [last Hlast]. rewrite Hlast, bind_ok.
    exists (List.concat chunks), last. split; [reflexivity|].
    rewrite <- Hlen, <- Hl. clear -Hall.
    induction Hall as [|c cs Hc _ IH]; simpl; auto.
    rewrite length_app, IH, Hc. reflexivity.
  - destruct Hloop as [e He]. rewrite He. simpl. eauto.
Qed.

Lemma gen_python_run float_text nodes edges :
  graph_wf nodes edges ->
  if forallb (node_ready (py_ready float_text) edges) nodes
  then exists text, Server.gen_python float_text nodes edges = Ok text
  else exists e, Server.gen_python float_text nodes edges = Raise e.
Proof.
  intros Hwf.
  destruct (generator_setup nodes edges Hwf)
    as (order & parents & names & counts & Htopo & Hsub & Hcov & Hlen
        & Hpar & Hparents & Hnames & Hkeys).
  pose proof (fun st => gen_loop_ready nodes _ _ _
                (python_turn_ready float_text nodes edges parents names Hwf Hparents Hkeys)
                order st Hsub) as Hloop.
  rewrite (forallb_ready _ nodes edges order (proj1 Hwf) Hsub Hcov) in Hloop.
  unfold Server.gen_python. rewrite Htopo, bind_ok, Hpar, bind_ok, Hnames, bind_ok.
  match goal with |- context [for_each _ order ?st] => specialize (Hloop st) end.
  destruct (forallb (node_ready (py_ready float_text) edges) nodes).
  - destruct Hloop as (chunks & Hrun & _). rewrite Hrun, bind_ok.
    destruct (rev order) as [|l r] eqn:R; [simpl; eauto|].
    assert (Hl' : In l order) by (apply in_rev; rewrite R; now left).
    destruct (keys_get names l (Hkeys l (Hsub l Hl'))) as [v Hv].
    rewrite bind_ok, (lookup_found _ _ _ Hv). simpl. eauto.
  - destruct Hloop as [e He]. rewrite He. simpl. eauto.
Qed.

Lemma gen_spark_run float_text nodes edges :
  graph_wf nodes edges ->
  if forallb (node_ready (spark_ready float_text) edges) nodes
  then exists text, Server.gen_spark float_text nodes edges = Ok text
  else exists e, Server.gen_spark float_text nodes edges = Raise e.
Proof.
  intros Hwf.
  destruct (generator_setup nodes edges Hwf)
    as (order & parents & names & counts & Htopo & Hsub & Hcov & Hlen
        & Hpar & Hparents & Hnames & Hkeys).
  pose proof (fun st => gen_loop_ready nodes _ _ _
                (spark_turn_ready float_text nodes edges parents names Hwf Hparents Hkeys)
                order st Hsub) as Hloop.
  rewrite (forallb_ready _ nodes edges order (proj1 Hwf) Hsub Hcov) in Hloop.
  unfold Server.gen_spark. rewrite Htopo, bind_ok, Hpar, bind_ok, Hnames, bind_ok.
  match goal with |- context [for_each _ order ?st] => specialize (Hloop st) end.
  destruct (forallb (node_ready (spark_ready float_text) edges) nodes).
  - destruct Hloop as (chunks & Hrun & _). rewrite Hrun, bind_ok.
    destruct (rev order) as [|l r] eqn:R; [simpl; eauto|].
    assert (Hl' : In l order) by (apply in_rev; rewrite R; now left).
    destruct (keys_get names l (Hkeys l (Hsub l Hl'))) as [v Hv].
    rewrite (lookup_found _ _ _ Hv). simpl. eauto.
  - destruct Hloop as [e He]. rewrite He. simpl. eauto.
Qed.

(** X24. [gen_sql] on a well-formed graph either returns or raises, and
    which of the two is decided node by node. It returns exactly when every
    node is ready: a source as it is, a join with two parents and (unless
    its left key list is blank) a right key, a sample with one parent and a
    number that converts (the fraction in fraction mode, the count
    [int(n or 100)] in rows mode), any other node with one parent. The text
    it returns then holds one CTE per node. As soon as one node is not
    ready (a filter that no edge enters, or a count [abc], is enough) the
    whole generation raises. *)
Theorem gen_sql_returns float_text nodes edges :
  graph_wf nodes edges ->
  if forallb (node_ready (sql_ready float_text) edges) nodes
  then exists ctes last,
         Server.gen_sql float_text nodes edges = Ok (Server.sql_text ctes last) /\
         List.length ctes = List.length nodes
  else exists e, Server.gen_sql float_text nodes edges = Raise e.
Proof. apply gen_sql_run. Qed.

Lemma orphan_graph_wf : graph_wf orphan_nodes [].
Proof. split; [repeat constructor; simpl; intuition discriminate | intros e []]. Qed.

Lemma gen_sql_returns_witness :
  exists e, Server.gen_sql (fun _ => unsupported) orphan_nodes [] = Raise e.
Proof.
  exact (gen_sql_returns (fun _ => unsupported) orphan_nodes [] orphan_graph_wf).
Defined.

(** The same graph goes through the interpreter, which reports the filter's
    error and returns. *)
Example orphan_is_run :
  Server.exec_workflow_pandas bench_engine orphan_nodes [] None
  = Ok (Server.empty_frame,
        [("s", "FileNotFoundError: CSV Source 's' has no uploaded data or readable path.");
         ("f", "IndexError: list index out of range")]).
Proof. reflexivity. Qed.

Example gen_sql_tail :
  Server.gen_sql (fun _ => unsupported) tail_nodes tail_edges
  = Ok (Server.sql_text
          ["node AS (SELECT * FROM read_csv_auto('uploaded.csv', header=true))";
           "node_2 AS (SELECT a, b FROM node)";
           "node_3 AS (SELECT b, c FROM node_2)"]
          "node_3").
Proof. reflexivity. Qed.

(** Without any node the text has an empty [WITH] and selects from [final]. *)
Example gen_sql_empty :
  Server.gen_sql (fun _ => unsupported) [] [] = Ok (Server.sql_text [] "final").
Proof. reflexivity. Qed.

(** X25. [gen_python] on a well-formed graph returns exactly when every node
    is ready for it, and raises otherwise: a source and a node of a type it
    does not know need no parent; a join needs two parents and a key on
    both sides; a sample needs one parent and a number that converts (the
    fraction in fraction mode, the count [int(n or 100)] in rows mode); a
    select, filter, summarize, formula, sort or sink needs one parent. The
    entries of a measure are texts or absent here, as everywhere in the
    embedding: a column that is a list or a dict is outside it. *)
Theorem gen_python_returns float_text nodes edges :
  graph_wf nodes edges ->
  if forallb (node_ready (py_ready float_text) edges) nodes
  then exists text, Server.gen_python float_text nodes edges = Ok text
  else exists e, Server.gen_python float_text nodes edges = Raise e.
Proof. apply gen_python_run. Qed.

Lemma tail_graph_wf : graph_wf tail_nodes tail_edges.
Proof.
  split; [repeat constructor; simpl; intuition discriminate|].
  intros e He. simpl in He. destruct He as [<-|[<-|[]]]; simpl; auto.
Qed.

Lemma gen_python_returns_witness :
  exists text, Server.gen_python (fun _ => unsupported) tail_nodes tail_edges = Ok text.
Proof.
  exact (gen_python_returns (fun _ => unsupported) tail_nodes tail_edges tail_graph_wf).
Defined.

Example gen_python_tail :
  Server.gen_python (fun _ => unsupported) tail_nodes tail_edges
  = Ok (join newline
          ["# Auto-generated by ETL Studio (pandas)";
           "import pandas as pd";
           EmptyString;
           "# Source: CSV";
           ("node = pd.read_csv(r" ++ dq "uploaded.csv" ++ ")")%string;
           EmptyString;
           ("node_2 = node[[" ++ dq "a" ++ ", " ++ dq "b" ++ "]].copy()")%string;
           EmptyString;
           ("node_3 = node_2[[" ++ dq "b" ++ ", " ++ dq "c" ++ "]].copy()")%string;
           EmptyString;
           "result = node_3";
           EmptyString]).
Proof. reflexivity. Qed.

(** X26. [gen_spark] on a well-formed graph returns exactly when every node
    is ready for it, and raises otherwise: a source and a node of a type it
    does not know need no parent; a join needs two parents and, unless its
    left key list is blank, a right key; a sample needs one parent and a
    number that converts (the fraction in fraction mode, the count
    [int(n or 100)] in rows mode); a select, filter, summarize, formula,
    sort or sink needs one parent. *)
Theorem gen_spark_returns float_text nodes edges :
  graph_wf nodes edges ->
  if forallb (node_ready (spark_ready float_text) edges) nodes
  then exists text, Server.gen_spark float_text nodes edges = Ok text
  else exists e, Server.gen_spark float_text nodes edges = Raise e.
Proof. apply gen_spark_run. Qed.

Lemma gen_spark_returns_witness :
  exists text, Server.gen_spark (fun _ => unsupported) tail_nodes tail_edges = Ok text.
Proof.
  exact (gen_spark_returns (fun _ => unsupported) tail_nodes tail_edges tail_graph_wf).
Defined.

Example gen_spark_tail :
  Server.gen_spark (fun _ => unsupported) tail_nodes tail_edges
  = Ok (join newline
          ["# Auto-generated by ETL Studio (PySpark)";
           "from pyspark.sql import SparkSession, functions as F";
           "spark = SparkSession.builder.appName('etl-studio').getOrCreate()";
           EmptyString;
           ("node = spark.read.option('header', True).csv(" ++ dq "uploaded.csv" ++ ")")%string;
           EmptyString;
           "node_2 = node.select('a', 'b')";
           EmptyString;
           "node_3 = node_2.select('b', 'c')";
           EmptyString;
           "result = node_3"]).
Proof. reflexivity. Qed.

(** ** The three generators side by side *)

Lemma sql_ready_spark float_text k d :
  sql_ready float_text k d = true -> spark_ready float_text k d = true.
Proof.
  unfold sql_ready, spark_ready.
  destruct (type d =? "source.csv"); auto.
  destruct (type d =? "transform.sample"); auto.
  destruct (type d =? "transform.join"); auto.
  intros ->. now destruct (_ || _).
Qed.

Lemma py_ready_spark float_text k d :
  py_ready float_text k d = true -> spark_ready float_text k d = true.
Proof.
  unfold py_ready, spark_ready.
  destruct (type d =? "source.csv"); auto.
  destruct (type d =? "transform.sample"); auto.
  destruct (type d =? "transform.join"); auto.
  destruct (Server.left_keys d), (Server.right_keys d); auto; discriminate.
Qed.

Lemma forallb_impl {A : Type} (p q : A -> bool) l :
  (forall x, p x = true -> q x = true) -> forallb p l = true -> forallb q l = true.
Proof. rewrite !forallb_forall. auto. Qed.

(** X27. The Spark generator accepts every well-formed graph that the SQL
    generator or the pandas generator accepts: whenever [gen_sql] or
    [gen_python] returns, so does [gen_spark]. *)
Theorem gen_spark_accepts_most float_text nodes edges :
  graph_wf nodes edges ->
  (exists text, Server.gen_sql float_text nodes edges = Ok text) \/
  (exists text, Server.gen_python float_text nodes edges = Ok text) ->
  exists text, Server.gen_spark float_text nodes edges = Ok text.
Proof.
  intros Hwf Hor.
  pose proof (gen_spark_run float_text nodes edges Hwf) as Hspark.
  assert (Hready : forallb (node_ready (spark_ready float_text) edges) nodes = true).
  { destruct Hor as [[text Hsql]|[text Hpy]].
    - pose proof (gen_sql_run float_text nodes edges Hwf) as H.
      destruct (forallb (node_ready (sql_ready float_text) edges) nodes) eqn:R.
      + revert R. apply forallb_impl. intros nd. apply sql_ready_spark.
      + destruct H as [e He]. congruence.
    - pose proof (gen_python_run float_text nodes edges Hwf) as H.
      destruct (forallb (node_ready (py_ready float_text) edges) nodes) eqn:R.
      + revert R. apply forallb_impl. intros nd. apply py_ready_spark.
      + destruct H as [e He]. congruence. }
  rewrite Hready in Hspark. exact Hspark.
Qed.

Lemma gen_spark_accepts_most_witness :
  exists text, Server.gen_spark (fun _ => unsupported) tail_nodes tail_edges = Ok text.
Proof.
  apply (gen_spark_accepts_most (fun _ => unsupported) tail_nodes tail_edges
           tail_graph_wf).
  left. eexists. reflexivity.
Defined.

(** The SQL and the pandas generator accept different graphs: a join with a
    blank left key list goes through [gen_sql] only, a lone node of an
    unknown type through [gen_python] only. *)
Example generators_disagree :
  (exists text, Server.gen_sql (fun _ => unsupported) blank_join_nodes blank_join_edges
                = Ok text) /\
  Server.gen_python (fun _ => unsupported) blank_join_nodes blank_join_edges
  = Raise IndexError /\
  Server.gen_sql (fun _ => unsupported) stranger_nodes [] = Raise IndexError /\
  Server.gen_python (fun _ => unsupported) stranger_nodes []
  = Ok (join newline
          ["# Auto-generated by ETL Studio (pandas)"; "import pandas as pd"; EmptyString;
           "# TODO: inspect.deepdive"; EmptyString; "result = node"; EmptyString]).
Proof. repeat split; try reflexivity. eexists. reflexivity. Qed.

(** A count that does not convert stops all three generators, whatever the
    parents are. *)
Example generators_need_a_count :
  Server.gen_sql (fun _ => unsupported) counted_nodes counted_edges
  = Raise (PyExc "ValueError" "invalid literal for int() with base 10: 'abc'") /\
  Server.gen_python (fun _ => unsupported) counted_nodes counted_edges
  = Raise (PyExc "ValueError" "invalid literal for int() with base 10: 'abc'") /\
  Server.gen_spark (fun _ => unsupported) counted_nodes counted_edges
  = Raise (PyExc "ValueError" "invalid literal for int() with base 10: 'abc'") /\
  forallb (node_ready (sql_ready (fun _ => unsupported)) counted_edges) counted_nodes
  = false.
Proof. repeat split. Qed.

(* ================================================================== *)
(** * Fault isolation across the run                                    *)
(* ================================================================== *)







(** A run in which the first two nodes fail: the source has no data, the
    filter's text is refused; the loop goes on to the last node, which gets
    the filter's fallback table. *)
Example faulty_run :
  Server.exec_workflow_pandas bench_engine faulty_nodes faulty_edges None
  = Ok (Server.empty_frame,
        [("s", "FileNotFoundError: CSV Source 's' has no uploaded data or readable path.");
         ("f", "Filter expression failed; returned input unchanged. expr='age >'")]).
Proof. reflexivity. Qed.
